(** * MigDBQuery: grouping and threshold analytics of the query service

    A shallow embedding of the two analytics entry points of the
    repository's [QueryService]:

    - [fetchProfitableTokenGroupsWithMigration] with its callers
      [getTopMigratingGroups] (the grouping engine: MongoDB [$match] /
      [$group] / [$project] / [$sort] followed by a TypeScript [map] that
      derives the rise of every member and the percentile "common rise");
    - [findProfitableTokenGroups] (the threshold simulator, written as one
      MongoDB aggregation pipeline).

    together with the queries built on them ([GroupingQueries],
    [CommonQueries], [TokenQueries]).  The display string [groupKey] is
    not part of the development.

    Numbers.  JavaScript and BSON numbers are IEEE-754 doubles.  They are
    modelled by [number]: a rational, one of the two infinities, or NaN;
    there is no negative zero.  The arithmetic of the grouping engine (the
    rise of a member, the percentile rank, [Math.round(x * 10^k) / 10^k],
    the migration rate and the ratios of a summary) and the rise of the
    threshold simulator round every result to the nearest double, ties to
    even ([Binary64]): these results are pinned down to the last digit.
    The accumulators [$sum], [$avg] and [reduce], whose order of summation
    the code does not fix, the products and quotients of the threshold
    stages and the time windows of [compareTimePeriods] are computed over
    the rationals; what is stated of them are counts, orderings and
    bounds.  Comparators such as [(a, b) => a - b] are read through the
    sign of the exact difference, which is the sign of the difference of
    two doubles.  Counts produced by [$sum: 1] and [$size] are natural
    numbers. *)

From Stdlib Require Import String QArith Qround Qabs Qpower Qreduction.
From Stdlib Require Import ZArith List Bool Lia Lqa.
From Stdlib Require Import Permutation Sorted.
Import ListNotations.
Open Scope Q_scope.

(** ** Numbers *)

Inductive number : Type :=
| Fin (q : Q)
| PInf
| NInf
| NaN.

(** Two numbers denote the same value. *)
Definition num_eq (a b : number) : Prop :=
  match a, b with
  | Fin x, Fin y => x == y
  | PInf, PInf | NInf, NInf | NaN, NaN => True
  | _, _ => False
  end.

Definition of_nat (n : nat) : number := Fin (inject_Z (Z.of_nat n)).

Definition num_opp (a : number) : number :=
  match a with
  | Fin x => Fin (- x)
  | PInf => NInf
  | NInf => PInf
  | NaN => NaN
  end.

Definition num_add (a b : number) : number :=
  match a, b with
  | NaN, _ | _, NaN => NaN
  | Fin x, Fin y => Fin (x + y)
  | PInf, NInf | NInf, PInf => NaN
  | PInf, _ | _, PInf => PInf
  | NInf, _ | _, NInf => NInf
  end.

Definition num_sub (a b : number) : number := num_add a (num_opp b).

(** The infinity whose sign is that of a finite, non-zero factor. *)
Definition signed_inf (positive : bool) (q : Q) : number :=
  match q ?= 0 with
  | Eq => NaN
  | Gt => if positive then PInf else NInf
  | Lt => if positive then NInf else PInf
  end.

Definition num_mul (a b : number) : number :=
  match a, b with
  | NaN, _ | _, NaN => NaN
  | Fin x, Fin y => Fin (x * y)
  | PInf, Fin y | Fin y, PInf => signed_inf true y
  | NInf, Fin y | Fin y, NInf => signed_inf false y
  | PInf, PInf | NInf, NInf => PInf
  | PInf, NInf | NInf, PInf => NInf
  end.

(** IEEE division; the zero of the model is the positive zero. *)
Definition num_div (a b : number) : number :=
  match a, b with
  | NaN, _ | _, NaN => NaN
  | Fin x, Fin y => if Qeq_bool y 0 then signed_inf true x else Fin (x / y)
  | Fin _, _ => Fin 0
  | PInf, Fin y => if Qle_bool 0 y then PInf else NInf
  | NInf, Fin y => if Qle_bool 0 y then NInf else PInf
  | _, _ => NaN
  end.

Definition Qltb (x y : Q) : bool := negb (Qle_bool y x).

(** ** Stable sorting by a "goes before or ties" test

    [Array.prototype.sort] is stable, and the document order that MongoDB's
    [$sort] and [$sortArray] leave among ties is unspecified; one stable
    insertion sort models all three. *)

Section Sorting.
Context {A : Type} (leb : A -> A -> bool).

Fixpoint insert_by (x : A) (l : list A) : list A :=
  match l with
  | [] => [x]
  | y :: l' => if leb x y then x :: l else y :: insert_by x l'
  end.

Definition sort_by (l : list A) : list A := fold_right insert_by [] l.
End Sorting.

(** ** JavaScript operators used by the service *)

Module JS.

(** [a < b]: false as soon as one side is NaN. *)
Definition lt (a b : number) : bool :=
  match a, b with
  | NaN, _ | _, NaN => false
  | Fin x, Fin y => Qltb x y
  | NInf, Fin _ | NInf, PInf | Fin _, PInf => true
  | _, _ => false
  end.

Definition gt (a b : number) : bool := lt b a.

Definition isNaN (a : number) : bool :=
  match a with NaN => true | _ => false end.

(** Truthiness of a number: everything but 0 and NaN. *)
Definition truthy (a : number) : bool :=
  match a with
  | NaN => false
  | Fin q => negb (Qeq_bool q 0)
  | _ => true
  end.

(** [a || d] on numbers. *)
Definition or (a d : number) : number := if truthy a then a else d.

Definition floor (a : number) : number :=
  match a with
  | Fin q => Fin (inject_Z (Qfloor q))
  | _ => a
  end.

(** [Math.round]: nearest integer, halves towards +Infinity. *)
Definition round (a : number) : number :=
  match a with
  | Fin q => Fin (inject_Z (Qfloor (q + (1 # 2))))
  | _ => a
  end.

(** [arr[i]] for a numeric [i]: [None] is [undefined], which is what a
    negative, fractional, non-finite or too large index reads. *)
Definition index {A : Type} (arr : list A) (i : number) : option A :=
  match i with
  | Fin q =>
      if Qle_bool 0 q && Qeq_bool q (inject_Z (Qfloor q))
      then nth_error arr (Z.to_nat (Qfloor q))
      else None
  | _ => None
  end.

(** [ToNumber] of a value that is a number or [undefined]. *)
Definition to_number (v : option number) : number :=
  match v with Some x => x | None => NaN end.

(** The comparator [(a, b) => a - b] as used by [sort]: [a] stays in
    front of [b] unless the difference is positive (a NaN difference
    counts as 0). *)
Definition ascending (a b : number) : bool := negb (gt (num_sub a b) (Fin 0)).

(** [arr.slice(0, limit)]. *)
Definition slice0 {A : Type} (arr : list A) (limit : number) : list A :=
  match limit with
  | NaN | NInf => []
  | PInf => arr
  | Fin q =>
      let k := if Qle_bool 0 q then Qfloor q else Qceiling q in
      if (k <? 0)%Z
      then firstn (Nat.sub (length arr) (Z.to_nat (- k))) arr
      else firstn (Z.to_nat k) arr
  end.

(** [a >= b]: false as soon as one side is NaN. *)
Definition ge (a b : number) : bool :=
  match a, b with
  | NaN, _ | _, NaN => false
  | _, _ => negb (lt a b)
  end.

(** The comparator [(a, b) => b - a] as used by [sort]: [a] stays in front
    of [b] unless [b - a] is positive. *)
Definition descending (a b : number) : bool := negb (gt (num_sub b a) (Fin 0)).

End JS.

(** ** Results of an aggregation

    An aggregation either yields its documents or raises.  The server
    errors the two pipelines can raise on numeric documents are a
    [$divide] by zero and a [$limit] that is not a positive integer. *)

Inductive error : Type :=
| DivideByZero
| InvalidLimit.

Inductive result (A : Type) : Type :=
| Ok (a : A)
| Err (e : error).

Arguments Ok {A} a.
Arguments Err {A} e.

Definition bind {A B : Type} (m : result A) (k : A -> result B) : result B :=
  match m with
  | Ok a => k a
  | Err e => Err e
  end.

Notation "x <- m ;; k" := (bind m (fun x => k))
  (at level 61, m at next level, right associativity).

Fixpoint mapM {A B : Type} (f : A -> result B) (l : list A) : result (list B) :=
  match l with
  | [] => Ok []
  | a :: l' => b <- f a ;; bs <- mapM f l' ;; Ok (b :: bs)
  end.

(** ** MongoDB operators used by the pipelines *)

Module Mongo.

(** BSON order on numbers: NaN sorts below every other number. *)
Definition rank (a : number) : nat :=
  match a with NaN => 0 | NInf => 1 | Fin _ => 2 | PInf => 3 end.

Definition cmp (a b : number) : comparison :=
  match a, b with
  | Fin x, Fin y => x ?= y
  | _, _ => (rank a ?= rank b)%nat
  end.

(** Comparison expressions [$gte], [$gt], [$lt], [$lte]. *)
Definition gte (a b : number) : bool :=
  match cmp a b with Lt => false | _ => true end.
Definition gt (a b : number) : bool :=
  match cmp a b with Gt => true | _ => false end.
Definition lt (a b : number) : bool :=
  match cmp a b with Lt => true | _ => false end.
Definition lte (a b : number) : bool :=
  match cmp a b with Gt => false | _ => true end.

(** Query predicates of a [$match] stage on a numeric field: NaN matches
    nothing but NaN. *)
Definition match_eq (field query : number) : bool :=
  match cmp field query with Eq => true | _ => false end.
Definition match_gte (field query : number) : bool :=
  match field, query with
  | NaN, NaN => true
  | NaN, _ | _, NaN => false
  | _, _ => gte field query
  end.
Definition match_lte (field query : number) : bool :=
  match field, query with
  | NaN, NaN => true
  | NaN, _ | _, NaN => false
  | _, _ => lte field query
  end.

Definition subtract : number -> number -> number := num_sub.
Definition multiply : number -> number -> number := num_mul.
Definition add : number -> number -> number := num_add.

(** [$divide] raises on a zero divisor. *)
Definition divide (a b : number) : result number :=
  match b with
  | Fin y => if Qeq_bool y 0 then Err DivideByZero else Ok (num_div a b)
  | _ => Ok (num_div a b)
  end.

(** [$limit]: the first [n] documents, for a positive integer [n]. *)
Definition limit {A : Type} (n : number) (docs : list A) : result (list A) :=
  match n with
  | Fin q =>
      if Qle_bool 1 q && Qeq_bool q (inject_Z (Qfloor q))
      then Ok (firstn (Z.to_nat (Qfloor q)) docs)
      else Err InvalidLimit
  | _ => Err InvalidLimit
  end.

(** A comparison whose left operand may be a missing field: missing
    sorts below every number. *)
Definition lt_missing (a : option number) (b : number) : bool :=
  match a with Some x => lt x b | None => true end.

(** [$max] and [$min] accumulators over a non-empty group. *)
Definition max (l : list number) : number :=
  match l with
  | [] => NaN
  | x :: l' => fold_left (fun m y => if gt y m then y else m) l' x
  end.
Definition min (l : list number) : number :=
  match l with
  | [] => NaN
  | x :: l' => fold_left (fun m y => if lt y m then y else m) l' x
  end.

(** [$sum] of numbers, starting from 0. *)
Definition sum (l : list number) : number := fold_left num_add l (Fin 0).

(** [$avg] of the numbers of a non-empty array or group.  (On no input
    MongoDB yields null; no group or array of the pipelines is empty,
    and the model reads NaN there.) *)
Definition avg (l : list number) : number :=
  num_div (sum l) (of_nat (length l)).

(** Nearest integer, halves to the even neighbour. *)
Definition round_half_even (q : Q) : Z :=
  let f := Qfloor q in
  match ((q - inject_Z f) ?= (1 # 2))%Q with
  | Lt => f
  | Gt => (f + 1)%Z
  | Eq => if Z.even f then f else (f + 1)%Z
  end.

(** [$round: [x, place]] for a place of 0 or more decimals. *)
Definition round (a : number) (place : nat) : number :=
  match a with
  | Fin q =>
      let scale := inject_Z (10 ^ Z.of_nat place) in
      Fin (inject_Z (round_half_even (q * scale)) / scale)
  | _ => a
  end.

End Mongo.

(** ** IEEE-754 binary64

    A double is a rational [m * 2^e] with [|m| < 2^53] and
    [-1074 <= e <= 971].  [round] maps a rational to the nearest double,
    ties to the even significand, with gradual underflow and overflow to
    the infinities: the rounding every arithmetic operation on doubles
    applies to its exact result. *)

Module Binary64.

(** The [k] with [2^k <= q < 2^(k+1)], for a positive [q]. *)
Definition ilog2 (q : Q) : Z :=
  let k := (Z.log2 (Qnum q) - Z.log2 (Zpos (Qden q)))%Z in
  if Qle_bool (2 ^ k) q then k else (k - 1)%Z.

(** The exponent of the unit in the last place of the binade of [q]. *)
Definition exponent (q : Q) : Z := Z.max (ilog2 (Qabs q) - 52) (-1074).

(** The nearest multiple of the unit in the last place. *)
Definition nearest (q : Q) : Q :=
  inject_Z (Mongo.round_half_even (q / 2 ^ exponent q)) * 2 ^ exponent q.

Definition round (q : Q) : number :=
  if Qeq_bool q 0 then Fin 0
  else if Qle_bool (2 ^ 1024) (Qabs (nearest q))
       then (if Qle_bool 0 q then PInf else NInf)
       else Fin (Qred (nearest q)).

(** The double that an exact result is delivered as. *)
Definition rounded (a : number) : number :=
  match a with
  | Fin q => round q
  | _ => a
  end.

(** [a - b], [a * b] and [a / b] on doubles. *)
Definition sub (a b : number) : number := rounded (num_sub a b).
Definition mul (a b : number) : number := rounded (num_mul a b).
Definition div (a b : number) : number := rounded (num_div a b).

End Binary64.

(** ** Data model (the [TokenInfo] schema, fields the analytics read) *)

Record BundleData : Type := {
  bundleSize : number;
  totalBuySol : number
}.

Record TokenInfo : Type := {
  mint : string;
  mintTime : number;
  mintBuyAmt : number;
  maxSol : number;
  maxPrice : number;
  migrated : bool;
  mintSlotSol : number;
  firstSlotSol : number;
  postMintBundle : BundleData;
  mintPattern : string;
  unitPrice : number;
  unitLimit : number;
  createdAt : number
}.

(** The value of an optional parameter, or its default. *)
Definition default {A : Type} (d : A) (o : option A) : A :=
  match o with Some x => x | None => d end.

(** ** [$group]: partition by key

    Members keep their input order; groups appear in the order of their
    first member (MongoDB leaves the order of groups unspecified, the
    pipelines sort afterwards). *)

Section GroupBy.
Context {A K : Type} (key : A -> K) (key_eqb : K -> K -> bool).

Fixpoint add_to_group (k : K) (x : A) (gs : list (K * list A))
  : list (K * list A) :=
  match gs with
  | [] => [(k, [x])]
  | (k', xs) :: gs' =>
      if key_eqb k k' then (k', xs ++ [x]) :: gs'
      else (k', xs) :: add_to_group k x gs'
  end.

Definition group_by (l : list A) : list (K * list A) :=
  fold_left (fun gs x => add_to_group (key x) x gs) l [].
End GroupBy.

Definition option_eqb {A : Type} (eqb : A -> A -> bool) (a b : option A) : bool :=
  match a, b with
  | Some x, Some y => eqb x y
  | None, None => true
  | _, _ => false
  end.

(** ** The grouping engine *)

Module Criteria.
(** [GroupingCriteria]: an absent flag reads as [false]. *)
Record t : Type := {
  mintPattern : bool;
  unitPrice : bool;
  unitLimit : bool;
  postMintBundle : bool
}.
End Criteria.

Module Filters.
(** [QueryFilters]: [None] is an absent ([undefined]) filter. *)
Record t : Type := {
  minMaxSol : option number;
  startTime : option number;
  endTime : option number;
  mintPattern : option string;
  unitPrice : option number;
  unitLimit : option number;
  winPercent : option number
}.

(** [filters = {}] *)
Definition empty : t :=
  {| minMaxSol := None; startTime := None; endTime := None;
     mintPattern := None; unitPrice := None; unitLimit := None;
     winPercent := None |}.
End Filters.

Module GroupId.
(** The [_id] of a group: the enabled dimensions only. *)
Record t : Type := {
  mintPattern : option string;
  unitPrice : option number;
  unitLimit : option number;
  bundleSize : option number;
  totalBuySol : option number
}.

Definition eqb (a b : t) : bool :=
  option_eqb String.eqb (mintPattern a) (mintPattern b)
  && option_eqb Mongo.match_eq (unitPrice a) (unitPrice b)
  && option_eqb Mongo.match_eq (unitLimit a) (unitLimit b)
  && option_eqb Mongo.match_eq (bundleSize a) (bundleSize b)
  && option_eqb Mongo.match_eq (totalBuySol a) (totalBuySol b).
End GroupId.

Module Row.
(** A document leaving the [$project] stage. *)
Record t : Type := {
  groupIdentifier : GroupId.t;
  totalTokens : nat;
  migratedTokens : nat;
  migrationRate : number;
  profitableTokens : nat;
  avgMaxSol : number;
  totalMaxSol : number;
  tokens : list TokenInfo
}.
End Row.

Module Member.
(** An entry of [TokenGroupStats.tokens]. *)
Record t : Type := {
  mint : string;
  mintTime : number;
  migrated : bool;
  maxSol : number;
  maxPrice : number;
  mintSlotSol : number;
  mintBuyAmt : number
}.
End Member.

Module Stats.
(** [TokenGroupStats] (the display string [groupKey] is left out). *)
Record t : Type := {
  groupIdentifier : GroupId.t;
  totalTokens : nat;
  migratedTokens : nat;
  migrationRate : number;
  profitableTokens : nat;
  avgMaxSol : number;
  totalMaxSol : number;
  commonRiseSol : number;
  tokens : list Member.t
}.
End Stats.

Module GroupingEngine.

(** The [$match] stage built from the filters. *)
Definition matchQuery (filters : Filters.t) (t : TokenInfo) : bool :=
  let minMaxSol := default (Fin 0) (Filters.minMaxSol filters) in
  (if JS.gt minMaxSol (Fin 0) then Mongo.match_gte (maxSol t) minMaxSol else true)
  && match Filters.startTime filters with
     | Some startTime => Mongo.match_gte (mintTime t) startTime
     | None => true
     end
  && match Filters.endTime filters with
     | Some endTime => Mongo.match_lte (mintTime t) endTime
     | None => true
     end
  && match Filters.mintPattern filters with
     | Some p => if String.eqb p EmptyString then true else String.eqb (mintPattern t) p
     | None => true
     end
  && match Filters.unitPrice filters with
     | Some p => Mongo.match_eq (unitPrice t) p
     | None => true
     end
  && match Filters.unitLimit filters with
     | Some p => Mongo.match_eq (unitLimit t) p
     | None => true
     end.

(** The [_id] expression built from the grouping criteria. *)
Definition groupId (c : Criteria.t) (t : TokenInfo) : GroupId.t :=
  {| GroupId.mintPattern :=
       if Criteria.mintPattern c then Some (mintPattern t) else None;
     GroupId.unitPrice :=
       if Criteria.unitPrice c then Some (unitPrice t) else None;
     GroupId.unitLimit :=
       if Criteria.unitLimit c then Some (unitLimit t) else None;
     GroupId.bundleSize :=
       if Criteria.postMintBundle c
       then Some (bundleSize (postMintBundle t)) else None;
     GroupId.totalBuySol :=
       if Criteria.postMintBundle c
       then Some (Mongo.round (totalBuySol (postMintBundle t)) 2) else None |}.

(** [$sum: { $cond: ['$migrated', 1, 0] }] *)
Definition sum_migrated (members : list TokenInfo) : nat :=
  fold_left (fun acc t => acc + (if migrated t then 1 else 0))%nat members 0%nat.

(** The [$group] accumulators of one group followed by its [$project];
    [$divide] and [$multiply] deliver doubles. *)
Definition project (g : GroupId.t * list TokenInfo) : result Row.t :=
  let '(id, members) := g in
  let totalTokens := length members in
  let migratedTokens := sum_migrated members in
  let totalMaxSol := Mongo.sum (map maxSol members) in
  let avgMaxSol := Mongo.avg (map maxSol members) in
  ratio <- Mongo.divide (of_nat migratedTokens) (of_nat totalTokens) ;;
  Ok {| Row.groupIdentifier := id;
        Row.totalTokens := totalTokens;
        Row.migratedTokens := migratedTokens;
        Row.migrationRate := Binary64.mul (Binary64.rounded ratio) (Fin 100);
        Row.profitableTokens := totalTokens;
        Row.avgMaxSol := Mongo.round avgMaxSol 4;
        Row.totalMaxSol := Mongo.round totalMaxSol 4;
        Row.tokens := members |}.

(** [$sort: { migrationRate: -1, totalTokens: -1 }] *)
Definition sort_before (a b : Row.t) : bool :=
  match Mongo.cmp (Row.migrationRate a) (Row.migrationRate b) with
  | Gt => true
  | Lt => false
  | Eq => (Row.totalTokens b <=? Row.totalTokens a)%nat
  end.

(** [TokenInfoModel.aggregate([...])] over the stored collection. *)
Definition aggregate (c : Criteria.t) (filters : Filters.t)
  (collection : list TokenInfo) : result (list Row.t) :=
  let matched := filter (matchQuery filters) collection in
  let groups := group_by (groupId c) GroupId.eqb matched in
  rows <- mapM project groups ;;
  Ok (sort_by sort_before rows).

(** Rise of one member: [maxSol - mintSlotSol], with [mintBuyAmt] as the
    base value when [mintSlotSol < 0.05] (the double written [0.05]). *)
Definition riseSol (t : TokenInfo) : number :=
  let maxSol' := JS.or (maxSol t) (Fin 0) in
  let mintSlotSol' := JS.or (mintSlotSol t) (Fin 0) in
  let mintBuyAmt' := JS.or (mintBuyAmt t) (Fin 0) in
  let baseValue :=
    if JS.lt mintSlotSol' (Binary64.round (5 # 100))
    then mintBuyAmt' else mintSlotSol' in
  Binary64.sub maxSol' baseValue.

Definition riseSols (tokens : list TokenInfo) : list number :=
  sort_by JS.ascending
    (filter (fun rise => negb (JS.isNaN rise)) (map riseSol tokens)).

(** [Math.floor(riseSols.length * (1 - winPercent / 100))] *)
Definition percentileIndex (len : nat) (winPercent : number) : number :=
  JS.floor
    (Binary64.mul (of_nat len)
       (Binary64.sub (Fin 1) (Binary64.div winPercent (Fin 100)))).

(** The local [commonRiseSol]; [None] is [undefined]. *)
Definition commonRiseSol (tokens : list TokenInfo) (winPercent : number)
  : option number :=
  let rs := riseSols tokens in
  if (0 <? length rs)%nat
  then JS.index rs (percentileIndex (length rs) winPercent)
  else Some (Fin 0).

(** [Math.round(x * 10^k) / 10^k] for the scale [10^k]. *)
Definition round_to (scale : Q) (x : number) : number :=
  Binary64.div (JS.round (Binary64.mul x (Fin scale))) (Fin scale).

Definition member (t : TokenInfo) : Member.t :=
  {| Member.mint := mint t;
     Member.mintTime := mintTime t;
     Member.migrated := migrated t;
     Member.maxSol := maxSol t;
     Member.maxPrice := maxPrice t;
     Member.mintSlotSol := mintSlotSol t;
     Member.mintBuyAmt := mintBuyAmt t |}.

(** The body of [results.map(...)]. *)
Definition stats (winPercent : number) (r : Row.t) : Stats.t :=
  {| Stats.groupIdentifier := Row.groupIdentifier r;
     Stats.totalTokens := Row.totalTokens r;
     Stats.migratedTokens := Row.migratedTokens r;
     Stats.migrationRate := round_to 100 (Row.migrationRate r);
     Stats.profitableTokens := Row.profitableTokens r;
     Stats.avgMaxSol := Row.avgMaxSol r;
     Stats.totalMaxSol := Row.totalMaxSol r;
     Stats.commonRiseSol :=
       round_to 10000 (JS.to_number (commonRiseSol (Row.tokens r) winPercent));
     Stats.tokens := map member (Row.tokens r) |}.

Definition fetchProfitableTokenGroupsWithMigration
  (groupingCriteria : Criteria.t) (filters : Filters.t)
  (collection : list TokenInfo) : result (list Stats.t) :=
  let winPercent := default (Fin 70) (Filters.winPercent filters) in
  results <- aggregate groupingCriteria filters collection ;;
  Ok (map (stats winPercent) results).

(** [limit] defaults to 10. *)
Definition getTopMigratingGroups
  (groupingCriteria : Criteria.t) (filters : Filters.t) (limit : option number)
  (collection : list TokenInfo) : result (list Stats.t) :=
  results <- fetchProfitableTokenGroupsWithMigration
               groupingCriteria filters collection ;;
  Ok (JS.slice0
        (filter (fun g => (2 <=? Stats.totalTokens g)%nat) results)
        (default (Fin 10) limit)).

End GroupingEngine.

(** ** The threshold simulator *)

Inductive SortBy : Type :=
| by_avgRiseSol
| by_maxRiseSol
| by_totalTokens.

Inductive RiskLevel : Type :=
| HIGH
| MEDIUM
| LOW.

Module Options.
(** The options object of [findProfitableTokenGroups]. *)
Record t : Type := {
  groupByComputeUnits : option bool;
  minRiseSol : option number;
  minTokensInGroup : option number;
  limit : option number;
  sortBy : option SortBy;
  daysBack : option number
}.

(** [options = {}] *)
Definition empty : t :=
  {| groupByComputeUnits := None; minRiseSol := None;
     minTokensInGroup := None; limit := None; sortBy := None;
     daysBack := None |}.
End Options.

Module Sample.
(** An entry of a group's [tokens] array. *)
Record t : Type := {
  mint : string;
  riseSol : number;
  maxSol : number;
  buyPriceSol : number
}.
End Sample.

Module Group.
(** A document leaving the [$group] stage. *)
Record t : Type := {
  _id : GroupId.t;
  totalTokens : nat;
  avgRiseSol : number;
  maxRiseSol : number;
  minRiseSol : number;
  avgMaxSol : number;
  avgBuyPriceSol : number;
  totalRiseSol : number;
  tokens : list Sample.t
}.
End Group.

Module Outcome.
(** One member simulated at one threshold. *)
Record t : Type := {
  isWin : bool;
  profitLoss : number
}.
End Outcome.

Module Simulation.
Record t : Type := {
  threshold : number;
  results : list Outcome.t
}.
End Simulation.

Module Analysis.
Record t : Type := {
  threshold : number;
  winCount : nat;
  lossCount : nat;
  totalProfit : number;
  avgProfit : number
}.
End Analysis.

Module Score.
(** An entry of [thresholdScores]. *)
Record t : Type := {
  threshold : number;
  winCount : nat;
  lossCount : nat;
  winRate : number;
  totalProfit : number;
  avgProfit : number;
  profitabilityScore : number
}.
End Score.

Module Scored.
(** A group with the fields the threshold stages add to it. *)
Record t : Type := {
  group : Group.t;
  thresholdScores : list Score.t;
  optimalThresholdData : option Score.t;
  conservativeThresholdData : option Score.t;
  aggressiveThresholdData : option Score.t
}.
End Scored.

Module Report.
(** A document of the final [$project].  A field read through a missing
    threshold document is absent ([None]). *)
Record t : Type := {
  _id : GroupId.t;
  mintPattern : option string;
  unitPrice : option number;
  unitLimit : option number;
  totalTokens : nat;
  avgRiseSol : number;
  maxRiseSol : number;
  minRiseSol : number;
  avgMaxSol : number;
  avgBuyPriceSol : number;
  totalRiseSol : number;
  profitabilityScore : number;
  recommendedSellThreshold : option number;
  recommendedWinRate : option number;
  recommendedWinCount : option nat;
  recommendedLossCount : option nat;
  recommendedAvgProfit : option number;
  recommendedTotalProfit : option number;
  conservativeThreshold : option number;
  conservativeWinRate : option number;
  conservativeWinCount : option nat;
  conservativeLossCount : option nat;
  conservativeAvgProfit : option number;
  aggressiveThreshold : option number;
  aggressiveWinRate : option number;
  aggressiveWinCount : option nat;
  aggressiveLossCount : option nat;
  aggressiveAvgProfit : option number;
  recommendedSellSol : option number;
  conservativeSellSol : option number;
  aggressiveSellSol : option number;
  riskLevel : RiskLevel;
  allThresholdOptions : list Score.t;
  tokens : list Sample.t
}.
End Report.

Module ThresholdSimulator.

(** [$addFields buyPriceSol]: the lower of [mintSlotSol], [firstSlotSol]. *)
Definition buyPriceSol (t : TokenInfo) : number :=
  if Mongo.lte (mintSlotSol t) (firstSlotSol t)
  then mintSlotSol t else firstSlotSol t.

(** [$addFields riseSol]: a [$subtract] on doubles. *)
Definition riseSol (t : TokenInfo) : number :=
  Binary64.rounded (Mongo.subtract (maxSol t) (buyPriceSol t)).

Definition groupId (groupByComputeUnits : bool) (t : TokenInfo) : GroupId.t :=
  {| GroupId.mintPattern := Some (mintPattern t);
     GroupId.unitPrice :=
       if groupByComputeUnits then Some (unitPrice t) else None;
     GroupId.unitLimit :=
       if groupByComputeUnits then Some (unitLimit t) else None;
     GroupId.bundleSize := None;
     GroupId.totalBuySol := None |}.

Definition sample (t : TokenInfo) : Sample.t :=
  {| Sample.mint := mint t;
     Sample.riseSol := riseSol t;
     Sample.maxSol := maxSol t;
     Sample.buyPriceSol := buyPriceSol t |}.

(** The [$group] accumulators of one group. *)
Definition accumulate (g : GroupId.t * list TokenInfo) : Group.t :=
  let '(id, members) := g in
  {| Group._id := id;
     Group.totalTokens := length members;
     Group.avgRiseSol := Mongo.avg (map riseSol members);
     Group.maxRiseSol := Mongo.max (map riseSol members);
     Group.minRiseSol := Mongo.min (map riseSol members);
     Group.avgMaxSol := Mongo.avg (map maxSol members);
     Group.avgBuyPriceSol := Mongo.avg (map buyPriceSol members);
     Group.totalRiseSol := Mongo.sum (map riseSol members);
     Group.tokens := map sample members |}.

Definition multipliers : list number :=
  [Fin (3 # 10); Fin (4 # 10); Fin (5 # 10); Fin (6 # 10);
   Fin (7 # 10); Fin (8 # 10); Fin (9 # 10)].

Definition thresholdCandidates (g : Group.t) : list number :=
  map (fun multiplier => Mongo.multiply (Group.avgRiseSol g) multiplier)
      multipliers.

(** One token against one threshold. *)
Definition outcome (threshold : number) (token : Sample.t) : Outcome.t :=
  {| Outcome.isWin := Mongo.gte (Sample.riseSol token) threshold;
     Outcome.profitLoss :=
       if Mongo.gte (Sample.riseSol token) threshold
       then threshold
       else if Mongo.gt (Sample.riseSol token) (Fin 0)
            then Sample.riseSol token
            else Fin 0 |}.

Definition thresholdSimulations (g : Group.t) : list Simulation.t :=
  map (fun threshold =>
         {| Simulation.threshold := threshold;
            Simulation.results := map (outcome threshold) (Group.tokens g) |})
      (thresholdCandidates g).

Definition analysis (sim : Simulation.t) : Analysis.t :=
  {| Analysis.threshold := Simulation.threshold sim;
     Analysis.winCount :=
       length (filter Outcome.isWin (Simulation.results sim));
     Analysis.lossCount :=
       length (filter (fun r => negb (Outcome.isWin r)) (Simulation.results sim));
     Analysis.totalProfit :=
       Mongo.sum (map Outcome.profitLoss (Simulation.results sim));
     Analysis.avgProfit :=
       Mongo.avg (map Outcome.profitLoss (Simulation.results sim)) |}.

Definition thresholdAnalysis (g : Group.t) : list Analysis.t :=
  map analysis (thresholdSimulations g).

Definition score (totalTokens : nat) (a : Analysis.t) : result Score.t :=
  winRate <- Mongo.divide (of_nat (Analysis.winCount a)) (of_nat totalTokens) ;;
  ratio <- Mongo.divide (of_nat (Analysis.winCount a)) (of_nat totalTokens) ;;
  Ok {| Score.threshold := Analysis.threshold a;
        Score.winCount := Analysis.winCount a;
        Score.lossCount := Analysis.lossCount a;
        Score.winRate := winRate;
        Score.totalProfit := Analysis.totalProfit a;
        Score.avgProfit := Analysis.avgProfit a;
        Score.profitabilityScore := Mongo.multiply ratio (Analysis.avgProfit a) |}.

Definition thresholdScores (g : Group.t) : result (list Score.t) :=
  mapM (score (Group.totalTokens g)) (thresholdAnalysis g).

(** [$sortArray] with [sortBy: { field: -1 }]. *)
Definition descending {A : Type} (field : A -> number) (a b : A) : bool :=
  Mongo.gte (field a) (field b).

(** [$arrayElemAt: [{ $sortArray: ... }, 0]] *)
Definition best (field : Score.t -> number) (scores : list Score.t)
  : option Score.t :=
  nth_error (sort_by (descending field) scores) 0.

Definition scored (g : Group.t) : result Scored.t :=
  scores <- thresholdScores g ;;
  Ok {| Scored.group := g;
        Scored.thresholdScores := scores;
        Scored.optimalThresholdData := best Score.profitabilityScore scores;
        Scored.conservativeThresholdData := best Score.winRate scores;
        Scored.aggressiveThresholdData := best Score.avgProfit scores |}.

Definition sortField (sortBy : SortBy) (s : Scored.t) : number :=
  match sortBy with
  | by_totalTokens => of_nat (Group.totalTokens (Scored.group s))
  | by_maxRiseSol => Group.maxRiseSol (Scored.group s)
  | by_avgRiseSol => Group.avgRiseSol (Scored.group s)
  end.

(** The risk assessment of the final [$project]. *)
Definition riskLevel (optimalWinRate : option number) : RiskLevel :=
  if Mongo.lt_missing optimalWinRate (Fin (6 # 10)) then HIGH
  else if Mongo.lt_missing optimalWinRate (Fin (75 # 100)) then MEDIUM
  else LOW.

(** The final [$project]. *)
Definition report (s : Scored.t) : Report.t :=
  let g := Scored.group s in
  let optimal := Scored.optimalThresholdData s in
  let conservative := Scored.conservativeThresholdData s in
  let aggressive := Scored.aggressiveThresholdData s in
  let percent := fun d => Mongo.multiply (Score.winRate d) (Fin 100) in
  let sellSol := fun d => Mongo.add (Group.avgBuyPriceSol g) (Score.threshold d) in
  {| Report._id := Group._id g;
     Report.mintPattern := GroupId.mintPattern (Group._id g);
     Report.unitPrice := GroupId.unitPrice (Group._id g);
     Report.unitLimit := GroupId.unitLimit (Group._id g);
     Report.totalTokens := Group.totalTokens g;
     Report.avgRiseSol := Group.avgRiseSol g;
     Report.maxRiseSol := Group.maxRiseSol g;
     Report.minRiseSol := Group.minRiseSol g;
     Report.avgMaxSol := Group.avgMaxSol g;
     Report.avgBuyPriceSol := Group.avgBuyPriceSol g;
     Report.totalRiseSol := Group.totalRiseSol g;
     Report.profitabilityScore :=
       Mongo.multiply (Group.avgRiseSol g) (of_nat (Group.totalTokens g));
     Report.recommendedSellThreshold := option_map Score.threshold optimal;
     Report.recommendedWinRate := option_map percent optimal;
     Report.recommendedWinCount := option_map Score.winCount optimal;
     Report.recommendedLossCount := option_map Score.lossCount optimal;
     Report.recommendedAvgProfit := option_map Score.avgProfit optimal;
     Report.recommendedTotalProfit := option_map Score.totalProfit optimal;
     Report.conservativeThreshold := option_map Score.threshold conservative;
     Report.conservativeWinRate := option_map percent conservative;
     Report.conservativeWinCount := option_map Score.winCount conservative;
     Report.conservativeLossCount := option_map Score.lossCount conservative;
     Report.conservativeAvgProfit := option_map Score.avgProfit conservative;
     Report.aggressiveThreshold := option_map Score.threshold aggressive;
     Report.aggressiveWinRate := option_map percent aggressive;
     Report.aggressiveWinCount := option_map Score.winCount aggressive;
     Report.aggressiveLossCount := option_map Score.lossCount aggressive;
     Report.aggressiveAvgProfit := option_map Score.avgProfit aggressive;
     Report.recommendedSellSol := option_map sellSol optimal;
     Report.conservativeSellSol := option_map sellSol conservative;
     Report.aggressiveSellSol := option_map sellSol aggressive;
     Report.riskLevel := riskLevel (option_map Score.winRate optimal);
     Report.allThresholdOptions := Scored.thresholdScores s;
     Report.tokens := firstn 5 (Group.tokens g) |}.

(** The groups that reach the threshold stages: both [$match] stages,
    the two [$addFields] and the [$group].  [startDate] is the date the
    code derives from the clock and [daysBack] (3 by default) with
    [new Date()] and [setDate(getDate() - daysBack)], a computation on
    the local calendar that is an input of the model. *)
Definition groups (options : Options.t) (startDate : number)
  (collection : list TokenInfo) : list Group.t :=
  let groupByComputeUnits := default false (Options.groupByComputeUnits options) in
  let minRiseSol := default (Fin 0) (Options.minRiseSol options) in
  let minTokensInGroup := default (Fin 2) (Options.minTokensInGroup options) in
  let recent :=
    filter (fun t => negb (String.eqb (mintPattern t) EmptyString)
                     && Mongo.match_gte (createdAt t) startDate) collection in
  let rising :=
    filter (fun t => Mongo.match_gte (riseSol t) minRiseSol) recent in
  let grouped :=
    map accumulate (group_by (groupId groupByComputeUnits) GroupId.eqb rising) in
  filter (fun g => Mongo.match_gte (of_nat (Group.totalTokens g)) minTokensInGroup)
         grouped.

Definition findProfitableTokenGroups (options : Options.t) (startDate : number)
  (collection : list TokenInfo) : result (list Report.t) :=
  let limit := default (Fin 50) (Options.limit options) in
  let sortBy := default by_avgRiseSol (Options.sortBy options) in
  analysed <- mapM scored (groups options startDate collection) ;;
  limited <- Mongo.limit limit
               (sort_by (descending (sortField sortBy)) analysed) ;;
  Ok (map report limited).

End ThresholdSimulator.

(** ** Queries built on the grouping engine *)

Inductive GroupingKey : Type :=
| key_mintPattern
| key_unitPrice
| key_unitLimit
| key_postMintBundle.

Module Summary.
(** The result of [getGroupingSummary]. *)
Record t : Type := {
  totalGroups : nat;
  totalTokens : nat;
  totalMigrated : nat;
  overallMigrationRate : number;
  avgTokensPerGroup : number;
  avgMigrationRatePerGroup : number
}.
End Summary.

Module GroupingQueries.

(** [{ [groupKey]: true }] *)
Definition criteria_of_key (groupKey : GroupingKey) : Criteria.t :=
  {| Criteria.mintPattern :=
       match groupKey with key_mintPattern => true | _ => false end;
     Criteria.unitPrice :=
       match groupKey with key_unitPrice => true | _ => false end;
     Criteria.unitLimit :=
       match groupKey with key_unitLimit => true | _ => false end;
     Criteria.postMintBundle :=
       match groupKey with key_postMintBundle => true | _ => false end |}.

Definition fetchTokenGroupsByKey (groupKey : GroupingKey) (filters : Filters.t)
  (collection : list TokenInfo) : result (list Stats.t) :=
  GroupingEngine.fetchProfitableTokenGroupsWithMigration
    (criteria_of_key groupKey) filters collection.

(** [groups.reduce((sum, g) => sum + g.field, 0)] on a count. *)
Definition reduce_count (field : Stats.t -> nat) (groups : list Stats.t) : nat :=
  fold_left (fun sum g => (sum + field g)%nat) groups 0%nat.

(** [groups.reduce((sum, g) => sum + g.field, 0)] on a number. *)
Definition reduce_number (field : Stats.t -> number) (groups : list Stats.t)
  : number :=
  fold_left (fun sum g => num_add sum (field g)) groups (Fin 0).

Definition getGroupingSummary (groupingCriteria : Criteria.t)
  (filters : Filters.t) (collection : list TokenInfo) : result Summary.t :=
  groups <- GroupingEngine.fetchProfitableTokenGroupsWithMigration
              groupingCriteria filters collection ;;
  let totalGroups := length groups in
  let totalTokens := reduce_count Stats.totalTokens groups in
  let totalMigrated := reduce_count Stats.migratedTokens groups in
  let overallMigrationRate :=
    if (0 <? totalTokens)%nat
    then Binary64.mul (Binary64.div (of_nat totalMigrated) (of_nat totalTokens))
                      (Fin 100)
    else Fin 0 in
  let avgTokensPerGroup :=
    if (0 <? totalGroups)%nat
    then Binary64.div (of_nat totalTokens) (of_nat totalGroups)
    else Fin 0 in
  let avgMigrationRatePerGroup :=
    if (0 <? totalGroups)%nat
    then Binary64.div (reduce_number Stats.migrationRate groups)
                      (of_nat totalGroups)
    else Fin 0 in
  Ok {| Summary.totalGroups := totalGroups;
        Summary.totalTokens := totalTokens;
        Summary.totalMigrated := totalMigrated;
        Summary.overallMigrationRate :=
          GroupingEngine.round_to 100 overallMigrationRate;
        Summary.avgTokensPerGroup :=
          GroupingEngine.round_to 100 avgTokensPerGroup;
        Summary.avgMigrationRatePerGroup :=
          GroupingEngine.round_to 100 avgMigrationRatePerGroup |}.

End GroupingQueries.

(** ** The ready-made query patterns ([CommonQueries])

    [Array.prototype.sort] with a comparator [(a, b) => b.f - a.f] is
    modelled by the stable [sort_by]; where the keys can be NaN the
    comparator is inconsistent and the order JavaScript produces is left
    to the implementation, so the statements about those sorts only use
    what every outcome shares. *)

Inductive SortKey : Type :=
| sort_migrationRate
| sort_totalMaxSol
| sort_avgMaxSol
| sort_totalTokens.

Module Distribution.
(** The result of [getMigrationRateDistribution]; the five counters are
    'Very High (90-100%)', 'High (70-89%)', 'Medium (50-69%)',
    'Low (30-49%)' and 'Very Low (0-29%)'. *)
Record buckets : Type := {
  veryHigh : nat;
  high : nat;
  medium : nat;
  low : nat;
  veryLow : nat
}.

Record t : Type := {
  distribution : buckets;
  totalGroups : nat;
  avgMigrationRate : number
}.
End Distribution.

Module DeepDive.
(** The result of [deepDivePattern]. *)
Record t : Type := {
  pattern : string;
  summary : Summary.t;
  subGroups : list Stats.t
}.
End DeepDive.

Module Comparison.
(** The result of [compareTimePeriods] (the two [period] labels, which
    are display strings, are left out). *)
Record t : Type := {
  recent : Summary.t;
  older : Summary.t;
  improvement_migrationRate : number;
  improvement_tokensPerGroup : number
}.
End Comparison.

Module CommonQueries.

(** A filter object holding [minMaxSol] and, possibly, [mintPattern]. *)
Definition filters_of (minMaxSol : option number) (mintPattern : option string)
  : Filters.t :=
  {| Filters.minMaxSol := minMaxSol; Filters.startTime := None;
     Filters.endTime := None; Filters.mintPattern := mintPattern;
     Filters.unitPrice := None; Filters.unitLimit := None;
     Filters.winPercent := None |}.

(** [{ mintPattern: true }] *)
Definition pattern_only : Criteria.t :=
  {| Criteria.mintPattern := true; Criteria.unitPrice := false;
     Criteria.unitLimit := false; Criteria.postMintBundle := false |}.

(** [{ mintPattern: true, unitPrice: true }] *)
Definition pattern_price : Criteria.t :=
  {| Criteria.mintPattern := true; Criteria.unitPrice := true;
     Criteria.unitLimit := false; Criteria.postMintBundle := false |}.

(** [{ mintPattern: true, unitPrice: true, unitLimit: true }] *)
Definition pattern_price_limit : Criteria.t :=
  {| Criteria.mintPattern := true; Criteria.unitPrice := true;
     Criteria.unitLimit := true; Criteria.postMintBundle := false |}.


(** Pattern 1; [minSol] defaults to 1. *)
Definition getMostSuccessfulMintPatterns (minSol : option number)
  (collection : list TokenInfo) : result (list Stats.t) :=
  GroupingEngine.getTopMigratingGroups pattern_only
    (filters_of (Some (default (Fin 1) minSol)) None) (Some (Fin 20)) collection.




(** Pattern 6; [minAvgSol] defaults to 5 and [minTokens] to 3. *)
Definition getHighValueGroups (minAvgSol minTokens : option number)
  (collection : list TokenInfo) : result (list Stats.t) :=
  allGroups <- GroupingEngine.fetchProfitableTokenGroupsWithMigration
                 pattern_price (filters_of (Some (Fin 2)) None) collection ;;
  Ok (sort_by (fun a b => JS.descending (Stats.avgMaxSol a) (Stats.avgMaxSol b))
        (filter (fun g =>
                   JS.ge (Stats.avgMaxSol g) (default (Fin 5) minAvgSol)
                   && JS.ge (of_nat (Stats.totalTokens g))
                            (default (Fin 3) minTokens))
                allGroups)).

(** Pattern 7; [minMigrationRate] defaults to 70 and [minTokens] to 5. *)
Definition getConsistentPerformers (minMigrationRate minTokens : option number)
  (collection : list TokenInfo) : result (list Stats.t) :=
  allGroups <- GroupingEngine.fetchProfitableTokenGroupsWithMigration
                 pattern_price (filters_of (Some (Fin 1)) None) collection ;;
  Ok (sort_by (fun a b =>
                 JS.descending (Stats.migrationRate a) (Stats.migrationRate b))
        (filter (fun g =>
                   JS.ge (Stats.migrationRate g) (default (Fin 70) minMigrationRate)
                   && JS.ge (of_nat (Stats.totalTokens g))
                            (default (Fin 5) minTokens))
                allGroups)).

(** Pattern 9. *)
Definition deepDivePattern (mintPattern : string) (collection : list TokenInfo)
  : result DeepDive.t :=
  groups <- GroupingEngine.fetchProfitableTokenGroupsWithMigration
              pattern_price_limit
              (filters_of (Some (Fin 0)) (Some mintPattern)) collection ;;
  summary <- GroupingQueries.getGroupingSummary pattern_only
               (filters_of None (Some mintPattern)) collection ;;
  Ok {| DeepDive.pattern := mintPattern;
        DeepDive.summary := summary;
        DeepDive.subGroups := groups |}.

(** Pattern 10; [minSol] defaults to 1 and [limit] to 20. *)
Definition getRoiLeaders (minSol limit : option number)
  (collection : list TokenInfo) : result (list Stats.t) :=
  allGroups <- GroupingEngine.fetchProfitableTokenGroupsWithMigration
                 pattern_price
                 (filters_of (Some (default (Fin 1) minSol)) None) collection ;;
  Ok (JS.slice0
        (sort_by (fun a b =>
                    JS.descending (Stats.totalMaxSol a) (Stats.totalMaxSol b))
                 allGroups)
        (default (Fin 20) limit)).

(** The counter a group falls into, as the [if] / [else if] chain picks it. *)
Definition count_group (d : Distribution.buckets) (g : Stats.t)
  : Distribution.buckets :=
  let rate := Stats.migrationRate g in
  if JS.ge rate (Fin 90) then
    {| Distribution.veryHigh := S (Distribution.veryHigh d);
       Distribution.high := Distribution.high d;
       Distribution.medium := Distribution.medium d;
       Distribution.low := Distribution.low d;
       Distribution.veryLow := Distribution.veryLow d |}
  else if JS.ge rate (Fin 70) then
    {| Distribution.veryHigh := Distribution.veryHigh d;
       Distribution.high := S (Distribution.high d);
       Distribution.medium := Distribution.medium d;
       Distribution.low := Distribution.low d;
       Distribution.veryLow := Distribution.veryLow d |}
  else if JS.ge rate (Fin 50) then
    {| Distribution.veryHigh := Distribution.veryHigh d;
       Distribution.high := Distribution.high d;
       Distribution.medium := S (Distribution.medium d);
       Distribution.low := Distribution.low d;
       Distribution.veryLow := Distribution.veryLow d |}
  else if JS.ge rate (Fin 30) then
    {| Distribution.veryHigh := Distribution.veryHigh d;
       Distribution.high := Distribution.high d;
       Distribution.medium := Distribution.medium d;
       Distribution.low := S (Distribution.low d);
       Distribution.veryLow := Distribution.veryLow d |}
  else
    {| Distribution.veryHigh := Distribution.veryHigh d;
       Distribution.high := Distribution.high d;
       Distribution.medium := Distribution.medium d;
       Distribution.low := Distribution.low d;
       Distribution.veryLow := S (Distribution.veryLow d) |}.

Definition no_group : Distribution.buckets :=
  {| Distribution.veryHigh := 0; Distribution.high := 0;
     Distribution.medium := 0; Distribution.low := 0;
     Distribution.veryLow := 0 |}.

(** Pattern 11; [minSol] defaults to 1. *)
Definition getMigrationRateDistribution (minSol : option number)
  (collection : list TokenInfo) : result Distribution.t :=
  allGroups <- GroupingEngine.fetchProfitableTokenGroupsWithMigration
                 pattern_only
                 (filters_of (Some (default (Fin 1) minSol)) None) collection ;;
  Ok {| Distribution.distribution := fold_left count_group allGroups no_group;
        Distribution.totalGroups := length allGroups;
        Distribution.avgMigrationRate :=
          Binary64.div
            (GroupingQueries.reduce_number Stats.migrationRate allGroups)
            (of_nat (length allGroups)) |}.

(** [g[sortBy]] *)
Definition sort_key (sortBy : SortKey) (g : Stats.t) : number :=
  match sortBy with
  | sort_migrationRate => Stats.migrationRate g
  | sort_totalMaxSol => Stats.totalMaxSol g
  | sort_avgMaxSol => Stats.avgMaxSol g
  | sort_totalTokens => of_nat (Stats.totalTokens g)
  end.

(** Pattern 12; [sortBy] defaults to 'migrationRate' and [limit] to 10. *)
Definition customAnalysis (groupingCriteria : Criteria.t) (filters : Filters.t)
  (sortBy : option SortKey) (limit : option number)
  (collection : list TokenInfo) : result (list Stats.t) :=
  groups <- GroupingEngine.fetchProfitableTokenGroupsWithMigration
              groupingCriteria filters collection ;;
  let key := sort_key (default sort_migrationRate sortBy) in
  let sorted := sort_by (fun a b => JS.descending (key a) (key b)) groups in
  Ok (JS.slice0 sorted (default (Fin 10) limit)).



End CommonQueries.

(** ** The other token queries of the service

    [find] queries return their documents; the aggregations can raise on
    a [$limit] that is not a positive integer. *)

Module Profitable.
(** A document of [findMostProfitableTokens] (the pass-through flag
    [extended], which the data model above does not carry, is left out). *)
Record t : Type := {
  mint : string;
  mintPattern : string;
  maxSol : number;
  buyPriceSol : number;
  riseSol : number;
  unitPrice : number;
  unitLimit : number;
  createdAt : number
}.
End Profitable.

Module Frequency.
(** A document of [getPatternFrequency]. *)
Record t : Type := {
  _id : string;
  count : nat;
  avgMaxSol : number;
  tokens : list string
}.
End Frequency.

Module TokenQueries.

(** [find({ maxSol: { $gte: minMaxSol } }).sort({ maxSol: -1 }).limit(50)];
    [minMaxSol] defaults to 5. *)
Definition findHighLiquidityTokens (minMaxSol : option number)
  (collection : list TokenInfo) : list TokenInfo :=
  firstn 50
    (sort_by (ThresholdSimulator.descending maxSol)
       (filter (fun t => Mongo.match_gte (maxSol t) (default (Fin 5) minMaxSol))
               collection)).

(** One group of [getPatternFrequency]. *)
Definition frequency (g : string * list TokenInfo) : Frequency.t :=
  let '(pattern, members) := g in
  {| Frequency._id := pattern;
     Frequency.count := length members;
     Frequency.avgMaxSol := Mongo.avg (map maxSol members);
     Frequency.tokens := map mint members |}.

(** [limit] defaults to 20. *)
Definition getPatternFrequency (limit : option number)
  (collection : list TokenInfo) : result (list Frequency.t) :=
  let matched :=
    filter (fun t => negb (String.eqb (mintPattern t) EmptyString)) collection in
  let grouped := map frequency (group_by mintPattern String.eqb matched) in
  Mongo.limit (default (Fin 20) limit)
    (sort_by (fun a b => (Frequency.count b <=? Frequency.count a)%nat) grouped).

(** [findOne().sort({ createdAt: -1 })] *)
Definition getLatestToken (collection : list TokenInfo) : option TokenInfo :=
  nth_error (sort_by (ThresholdSimulator.descending createdAt) collection) 0.

Definition profitable (t : TokenInfo) : Profitable.t :=
  {| Profitable.mint := mint t;
     Profitable.mintPattern := mintPattern t;
     Profitable.maxSol := maxSol t;
     Profitable.buyPriceSol := ThresholdSimulator.buyPriceSol t;
     Profitable.riseSol := ThresholdSimulator.riseSol t;
     Profitable.unitPrice := unitPrice t;
     Profitable.unitLimit := unitLimit t;
     Profitable.createdAt := createdAt t |}.

(** [limit] defaults to 20 and [minRiseSol] to 0. *)
Definition findMostProfitableTokens (limit minRiseSol : option number)
  (collection : list TokenInfo) : result (list Profitable.t) :=
  let rising :=
    filter (fun t => Mongo.match_gte (ThresholdSimulator.riseSol t)
                                     (default (Fin 0) minRiseSol))
           collection in
  limited <- Mongo.limit (default (Fin 20) limit)
               (sort_by (ThresholdSimulator.descending ThresholdSimulator.riseSol)
                        rising) ;;
  Ok (map profitable limited).

End TokenQueries.

(** ** Vocabulary of the statements *)

(** [a <= b] on numbers that are not NaN. *)
Definition num_le (a b : number) : Prop :=
  match a, b with
  | NaN, _ | _, NaN => False
  | NInf, _ | _, PInf => True
  | Fin x, Fin y => x <= y
  | _, _ => False
  end.

(** [a <= b] in BSON order (NaN lowest). *)
Definition bson_le (a b : number) : Prop := Mongo.cmp a b <> Gt.

(** Rounding to two decimals, halves up. *)
Definition round2 (x : Q) : Q := inject_Z (Qfloor (x * 100 + (1 # 2))) / 100.

(** The larger of two numbers in BSON order. *)
Definition num_max (a b : number) : number := if Mongo.gt a b then a else b.

(** Profit of a member with rise [rise] when selling at [threshold]. *)
Definition member_profit (threshold rise : number) : number :=
  if Mongo.gte rise threshold then threshold else num_max rise (Fin 0).


(** The exact share of migrated members, in percent. *)
Definition migration_percent (migratedCount totalCount : nat) : Q :=
  inject_Z (Z.of_nat migratedCount) / inject_Z (Z.of_nat totalCount) * 100.

(** The unrounded migration rate of a group as the pipeline computes it:
    a division and a multiplication on doubles. *)
Definition migration_rate (migratedCount totalCount : nat) : number :=
  Binary64.mul (Binary64.div (of_nat migratedCount) (of_nat totalCount))
               (Fin 100).

(** What the [$group] and [$project] stages establish for a row. *)
Definition row_wf (r : Row.t) : Prop :=
  Row.tokens r <> []
  /\ Row.totalTokens r = length (Row.tokens r)
  /\ Row.migratedTokens r = length (filter migrated (Row.tokens r))
  /\ Row.migrationRate r
     = migration_rate (Row.migratedTokens r) (Row.totalTokens r)
  /\ Row.profitableTokens r = Row.totalTokens r.

(** Ranking of two returned groups: the rate of the first is not below
    that of the second, and with equal shares of migrated members the
    first is not the smaller group. *)
Definition ranks_before (g1 g2 : Stats.t) : Prop :=
  num_le (Stats.migrationRate g2) (Stats.migrationRate g1)
  /\ (migration_percent (Stats.migratedTokens g1) (Stats.totalTokens g1)
      == migration_percent (Stats.migratedTokens g2) (Stats.totalTokens g2) ->
      (Stats.totalTokens g2 <= Stats.totalTokens g1)%nat).

(** The filters [{ ...filters, winPercent: p }]. *)
Definition with_winPercent (p : number) (filters : Filters.t) : Filters.t :=
  {| Filters.minMaxSol := Filters.minMaxSol filters;
     Filters.startTime := Filters.startTime filters;
     Filters.endTime := Filters.endTime filters;
     Filters.mintPattern := Filters.mintPattern filters;
     Filters.unitPrice := Filters.unitPrice filters;
     Filters.unitLimit := Filters.unitLimit filters;
     Filters.winPercent := Some p |}.


(** The grouping specification with every dimension switched off. *)
Definition no_dimension : Criteria.t :=
  {| Criteria.mintPattern := false; Criteria.unitPrice := false;
     Criteria.unitLimit := false; Criteria.postMintBundle := false |}.

(** A configuration the specification calls invalid: no dimension is
    enabled, or [winPercent] lies outside [0, 100]. *)
Definition invalid_configuration (c : Criteria.t) (filters : Filters.t) : Prop :=
  c = no_dimension
  \/ exists p, Filters.winPercent filters = Some (Fin p) /\ (p < 0 \/ 100 < p).

(** What the [$group] stage of the simulator establishes for a group. *)
Definition group_wf (g : Group.t) : Prop :=
  Group.tokens g <> []
  /\ Group.totalTokens g = length (Group.tokens g)
  /\ Group.avgRiseSol g = Mongo.avg (map Sample.riseSol (Group.tokens g)).

(** The entry of [thresholdScores] computed from an analysis when the
    division by [totalTokens] succeeds. *)
Definition score_of (totalTokens : nat) (a : Analysis.t) : Score.t :=
  let winRate :=
    Fin (inject_Z (Z.of_nat (Analysis.winCount a))
         / inject_Z (Z.of_nat totalTokens)) in
  {| Score.threshold := Analysis.threshold a;
     Score.winCount := Analysis.winCount a;
     Score.lossCount := Analysis.lossCount a;
     Score.winRate := winRate;
     Score.totalProfit := Analysis.totalProfit a;
     Score.avgProfit := Analysis.avgProfit a;
     Score.profitabilityScore := num_mul winRate (Analysis.avgProfit a) |}.

(** Number of members of a group whose rise reaches a threshold. *)
Definition wins_at (threshold : number) (tokens : list Sample.t) : nat :=
  length (filter (fun token => Mongo.gte (Sample.riseSol token) threshold) tokens).

(** The score entry of a group at one threshold. *)
Definition score_at (g : Group.t) (threshold : number) : Score.t :=
  score_of (Group.totalTokens g)
    (ThresholdSimulator.analysis
       {| Simulation.threshold := threshold;
          Simulation.results :=
            map (ThresholdSimulator.outcome threshold) (Group.tokens g) |}).

(** ** Worked inputs *)

(** A record with the given pattern, outcome, peak, mint-slot value and
    buy amount; every other field holds its schema default. *)
Definition mk_token (pattern : string) (mig : bool)
  (peak slot buy : number) : TokenInfo :=
  {| mint := EmptyString; mintTime := Fin 0; mintBuyAmt := buy; maxSol := peak;
     maxPrice := Fin 0; migrated := mig; mintSlotSol := slot;
     firstSlotSol := Fin 0;
     postMintBundle := {| bundleSize := Fin 0; totalBuySol := Fin 0 |};
     mintPattern := pattern; unitPrice := Fin 0; unitLimit := Fin 0;
     createdAt := Fin 0 |}.

Definition by_pattern : Criteria.t :=
  {| Criteria.mintPattern := true; Criteria.unitPrice := false;
     Criteria.unitLimit := false; Criteria.postMintBundle := false |}.

(** The double written as the decimal literal [q]. *)
Definition literal (q : Q) : number := Binary64.round q.

(** Scenario A: six members of one pattern bought at 0 SOL, rises
    0.2, 0.4, 1.9, 2.1, 3.8 and 6.5, four of them migrated. *)
Definition scenario_A : list TokenInfo :=
  [ mk_token "a" true (literal (21 # 10)) (Fin 0) (Fin 0);
    mk_token "a" false (literal (2 # 10)) (Fin 0) (Fin 0);
    mk_token "a" true (literal (65 # 10)) (Fin 0) (Fin 0);
    mk_token "a" true (literal (4 # 10)) (Fin 0) (Fin 0);
    mk_token "a" false (literal (38 # 10)) (Fin 0) (Fin 0);
    mk_token "a" true (literal (19 # 10)) (Fin 0) (Fin 0) ].

(** Five members of one pattern bought at 0 SOL, rises 1, 2, 3, 4 and 5. *)
Definition five_rises : list TokenInfo :=
  [ mk_token "a" false (Fin 1) (Fin 0) (Fin 0);
    mk_token "a" false (Fin 2) (Fin 0) (Fin 0);
    mk_token "a" false (Fin 3) (Fin 0) (Fin 0);
    mk_token "a" false (Fin 4) (Fin 0) (Fin 0);
    mk_token "a" false (Fin 5) (Fin 0) (Fin 0) ].

(** Filters that hold a [winPercent] only. *)
Definition win_percent (p : number) : Filters.t :=
  {| Filters.minMaxSol := None; Filters.startTime := None;
     Filters.endTime := None; Filters.mintPattern := None;
     Filters.unitPrice := None; Filters.unitLimit := None;
     Filters.winPercent := Some p |}.

(** Two members bought at 0 SOL: an infinite peak and a rise of 1. *)
Definition infinite_rise : list TokenInfo :=
  [ mk_token "a" false PInf (Fin 0) (Fin 0);
    mk_token "a" false (Fin 1) (Fin 0) (Fin 0) ].

(** One pattern of 160 members, 23 of them migrated (14.375%). *)
Definition rate_14_375 : list TokenInfo :=
  repeat (mk_token "a" true (Fin 0) (Fin 0) (Fin 0)) 23
  ++ repeat (mk_token "a" false (Fin 0) (Fin 0) (Fin 0)) 137.


(** Two patterns whose rates differ before rounding only: 41 of 91
    members migrated (45.0549...%) and 50 of 111 (45.0450...%). *)
Definition rounding_ties : list TokenInfo :=
  repeat (mk_token "a" true (Fin 0) (Fin 0) (Fin 0)) 41
  ++ repeat (mk_token "a" false (Fin 0) (Fin 0) (Fin 0)) 50
  ++ repeat (mk_token "b" true (Fin 0) (Fin 0) (Fin 0)) 50
  ++ repeat (mk_token "b" false (Fin 0) (Fin 0) (Fin 0)) 61.

(** Filters whose [winPercent] lies outside [0, 100]. *)
Definition win_percent_150 : Filters.t :=
  {| Filters.minMaxSol := None; Filters.startTime := None;
     Filters.endTime := None; Filters.mintPattern := None;
     Filters.unitPrice := None; Filters.unitLimit := None;
     Filters.winPercent := Some (Fin 150) |}.


(** A record created at time 0 with the given pattern, peak, mint-slot
    value and first-slot value. *)
Definition mk_priced (pattern : string) (peak slot first : number) : TokenInfo :=
  {| mint := EmptyString; mintTime := Fin 0; mintBuyAmt := Fin 0; maxSol := peak;
     maxPrice := Fin 0; migrated := false; mintSlotSol := slot;
     firstSlotSol := first;
     postMintBundle := {| bundleSize := Fin 0; totalBuySol := Fin 0 |};
     mintPattern := pattern; unitPrice := Fin 0; unitLimit := Fin 0;
     createdAt := Fin 0 |}.



(** Five members of one pattern bought at 1 SOL with rises 1, 2, 3, 4
    and 10 (average 4). *)
Definition rising_group : list TokenInfo :=
  [ mk_priced "a" (Fin 2) (Fin 1) (Fin 1);
    mk_priced "a" (Fin 3) (Fin 1) (Fin 2);
    mk_priced "a" (Fin 4) (Fin 2) (Fin 1);
    mk_priced "a" (Fin 5) (Fin 1) (Fin 1);
    mk_priced "a" (Fin 11) (Fin 1) (Fin 1) ].

(** Two members with no recorded peak, bought at 1 and 3 SOL: rises -1
    and -3 (average -2). *)
Definition sinking_group : list TokenInfo :=
  [ mk_priced "a" (Fin 0) (Fin 1) (Fin 1);
    mk_priced "a" (Fin 0) (Fin 3) (Fin 3) ].

(** Options that let negative rises through. *)
Definition allow_losses : Options.t :=
  {| Options.groupByComputeUnits := None;
     Options.minRiseSol := Some (Fin (-5));
     Options.minTokensInGroup := None; Options.limit := None;
     Options.sortBy := None; Options.daysBack := None |}.



(** Four members of which three rise by 10 and one by 0: the optimal
    candidate wins 3 times out of 4. *)
Definition three_of_four : list TokenInfo :=
  [ mk_priced "a" (Fin 11) (Fin 1) (Fin 1);
    mk_priced "a" (Fin 1) (Fin 1) (Fin 1);
    mk_priced "a" (Fin 11) (Fin 1) (Fin 1);
    mk_priced "a" (Fin 11) (Fin 1) (Fin 1) ].

(** The state of a grouping after the records [seen]: every group holds
    the records seen so far whose key matches its own (and at least one),
    no two groups have matching keys, and every record seen has a group. *)
Definition grouped {A K : Type} (key : A -> K) (key_eqb : K -> K -> bool)
  (seen : list A) (gs : list (K * list A)) : Prop :=
  Forall (fun g => snd g = filter (fun x => key_eqb (key x) (fst g)) seen
                   /\ snd g <> []) gs
  /\ ForallOrdPairs (fun k1 k2 => key_eqb k1 k2 = false) (map fst gs)
  /\ Forall (fun x => existsb (key_eqb (key x)) (map fst gs) = true) seen.

(** What holds of every group the grouping engine returns. *)
Definition stats_wf (g : Stats.t) : Prop :=
  Stats.migrationRate g
  = GroupingEngine.round_to 100
      (migration_rate (Stats.migratedTokens g) (Stats.totalTokens g))
  /\ (1 <= Stats.totalTokens g)%nat
  /\ (Stats.migratedTokens g <= Stats.totalTokens g)%nat
  /\ Stats.totalTokens g = length (Stats.tokens g)
  /\ Stats.migratedTokens g = length (filter Member.migrated (Stats.tokens g)).

(** The identifier of a group formed on the mint pattern alone. *)
Definition pattern_id (pattern : string) : GroupId.t :=
  {| GroupId.mintPattern := Some pattern; GroupId.unitPrice := None;
     GroupId.unitLimit := None; GroupId.bundleSize := None;
     GroupId.totalBuySol := None |}.

(** * Properties *)

(** ** Lists: sorting, [mapM], grouping *)

Section SortingFacts.
Context {A : Type} (leb : A -> A -> bool).

Lemma insert_by_perm (x : A) (l : list A) :
  Permutation (insert_by leb x l) (x :: l).
Proof.
  induction l as [|y l IH]; simpl.
  - apply Permutation_refl.
  - destruct (leb x y).
    + apply Permutation_refl.
    + eapply perm_trans; [apply perm_skip, IH | apply perm_swap].
Qed.

Lemma sort_by_perm (l : list A) : Permutation (sort_by leb l) l.
Proof.
  induction l as [|x l IH]; simpl.
  - apply perm_nil.
  - eapply perm_trans; [apply insert_by_perm | apply perm_skip, IH].
Qed.

Lemma sort_by_length (l : list A) : length (sort_by leb l) = length l.
Proof. apply Permutation_length, sort_by_perm. Qed.

Lemma sort_by_In (x : A) (l : list A) : In x (sort_by leb l) <-> In x l.
Proof.
  split; apply Permutation_in;
    [apply sort_by_perm | apply Permutation_sym, sort_by_perm].
Qed.

Lemma sort_by_Forall (Q : A -> Prop) (l : list A) :
  Forall Q l -> Forall Q (sort_by leb l).
Proof.
  intro H. eapply Permutation_Forall; [|exact H].
  apply Permutation_sym, sort_by_perm.
Qed.

(** Sortedness needs the test to be total and transitive on the elements
    at hand, which [P] describes. *)
Variable P : A -> Prop.
Hypothesis leb_total :
  forall a b, P a -> P b -> leb a b = true \/ leb b a = true.
Hypothesis leb_trans :
  forall a b c, P a -> P b -> P c ->
                leb a b = true -> leb b c = true -> leb a c = true.

Lemma insert_by_sorted (x : A) (l : list A) :
  P x -> Forall P l -> StronglySorted (fun a b => leb a b = true) l ->
  StronglySorted (fun a b => leb a b = true) (insert_by leb x l).
Proof.
  intros Px Pl Hs. induction Hs as [|y l Hs IH Hy]; simpl.
  - constructor; [constructor | constructor].
  - inversion Pl as [|? ? Py Pl']; subst.
    destruct (leb x y) eqn:Exy.
    + constructor; [constructor; assumption|].
      constructor; [exact Exy|].
      rewrite Forall_forall in *. intros z Hz.
      apply (leb_trans x y z); auto.
    + constructor; [apply IH, Pl'|].
      eapply Permutation_Forall;
        [apply Permutation_sym, insert_by_perm|].
      constructor; [|exact Hy].
      destruct (leb_total x y Px Py) as [H|H]; [congruence | exact H].
Qed.

Lemma sort_by_sorted (l : list A) :
  Forall P l -> StronglySorted (fun a b => leb a b = true) (sort_by leb l).
Proof.
  induction 1 as [|x l Px Pl IH]; simpl.
  - constructor.
  - apply insert_by_sorted; [exact Px | apply sort_by_Forall, Pl | exact IH].
Qed.
End SortingFacts.

Section MapMFacts.
Context {A B : Type} (f : A -> result B).

Lemma mapM_Ok_Forall2 (l : list A) (l' : list B) :
  mapM f l = Ok l' -> Forall2 (fun a b => f a = Ok b) l l'.
Proof.
  revert l'. induction l as [|a l IH]; simpl; intros l' H.
  - inversion H. constructor.
  - destruct (f a) as [b|e] eqn:Ea; simpl in H; [|discriminate].
    destruct (mapM f l) as [bs|e] eqn:El; simpl in H; [|discriminate].
    inversion H; subst. constructor; [exact Ea | apply IH; reflexivity].
Qed.

Lemma mapM_total (l : list A) :
  Forall (fun a => exists b, f a = Ok b) l -> exists l', mapM f l = Ok l'.
Proof.
  induction 1 as [|a l [b Hb] _ [bs Hbs]]; simpl.
  - eexists; reflexivity.
  - rewrite Hb; simpl. rewrite Hbs; simpl. eexists; reflexivity.
Qed.

Lemma mapM_Ok_Forall (Q : B -> Prop) (l : list A) (l' : list B) :
  (forall a b, In a l -> f a = Ok b -> Q b) ->
  mapM f l = Ok l' -> Forall Q l'.
Proof.
  intros HQ H. apply mapM_Ok_Forall2 in H.
  induction H as [|a b l l' Hab _ IH]; constructor.
  - apply (HQ a b); [left; reflexivity | exact Hab].
  - apply IH. intros a' b' Hin. apply HQ. right; exact Hin.
Qed.
End MapMFacts.

Section GroupByFacts.
Context {A K : Type} (key : A -> K) (key_eqb : K -> K -> bool).

(** Every group is non-empty and made of input elements. *)
Lemma add_to_group_members (Q : A -> Prop) (k : K) (x : A)
      (gs : list (K * list A)) :
  Q x ->
  Forall (fun g => snd g <> [] /\ Forall Q (snd g)) gs ->
  Forall (fun g => snd g <> [] /\ Forall Q (snd g))
         (add_to_group key_eqb k x gs).
Proof.
  intros Qx. induction 1 as [|[k' xs] gs [Hne Hq] Hgs IH]; simpl.
  - constructor; [|constructor]. simpl. split; [discriminate|].
    constructor; [exact Qx | constructor].
  - destruct (key_eqb k k'); constructor; simpl in *; auto.
    split.
    + destruct xs; discriminate.
    + apply Forall_app. split; [exact Hq|]. constructor; [exact Qx|constructor].
Qed.

Lemma group_by_members (Q : A -> Prop) (l : list A) :
  Forall Q l ->
  Forall (fun g => snd g <> [] /\ Forall Q (snd g)) (group_by key key_eqb l).
Proof.
  unfold group_by. intro Hl.
  assert (Hgen : forall gs,
             Forall (fun g => snd g <> [] /\ Forall Q (snd g)) gs ->
             Forall (fun g => snd g <> [] /\ Forall Q (snd g))
                    (fold_left (fun gs x => add_to_group key_eqb (key x) x gs) l gs)).
  { induction Hl as [|x l Qx Hl IH]; simpl; intros gs Hgs.
    - exact Hgs.
    - apply IH, add_to_group_members; assumption. }
  apply Hgen. constructor.
Qed.

Lemma group_by_nonempty (l : list A) (g : K * list A) :
  In g (group_by key key_eqb l) -> snd g <> [].
Proof.
  intro Hin.
  assert (Hall : Forall (fun g => snd g <> [] /\ Forall (fun _ => True) (snd g))
                        (group_by key key_eqb l)).
  { apply group_by_members. apply Forall_forall. auto. }
  rewrite Forall_forall in Hall. apply (Hall g Hin).
Qed.

(** With a key that never distinguishes two elements there is one group,
    holding the whole input in order. *)
Lemma group_by_constant (k0 : K) (l : list A) :
  (forall x, key x = k0) -> key_eqb k0 k0 = true -> l <> [] ->
  group_by key key_eqb l = [(k0, l)].
Proof.
  intros Hkey Heq Hne. unfold group_by.
  assert (Hgen : forall l xs,
             fold_left (fun gs x => add_to_group key_eqb (key x) x gs) l [(k0, xs)]
             = [(k0, xs ++ l)]).
  { clear l Hne. induction l as [|x l IH]; intros xs; simpl.
    - rewrite app_nil_r. reflexivity.
    - rewrite Hkey, Heq, IH, <- app_assoc. reflexivity. }
  destruct l as [|x l]; [contradiction|]. simpl.
  rewrite Hkey. apply Hgen.
Qed.
End GroupByFacts.

(** ** Order on numbers *)

Lemma Qle_bool_false (x y : Q) : Qle_bool x y = false <-> y < x.
Proof.
  split; intro H.
  - apply Qnot_le_lt. intro Hle. apply Qle_bool_iff in Hle. congruence.
  - destruct (Qle_bool x y) eqn:E; [|reflexivity].
    apply Qle_bool_iff in E. lra.
Qed.

Lemma Qltb_true (x y : Q) : Qltb x y = true <-> x < y.
Proof.
  unfold Qltb. rewrite negb_true_iff. apply Qle_bool_false.
Qed.

Lemma Qltb_false (x y : Q) : Qltb x y = false <-> y <= x.
Proof.
  unfold Qltb. rewrite negb_false_iff. apply Qle_bool_iff.
Qed.

Lemma Qcompare_refl_eq (x : Q) : (x ?= x) = Eq.
Proof. apply Qeq_alt. reflexivity. Qed.

Lemma num_eq_refl (a : number) : num_eq a a.
Proof. destruct a; simpl; auto. reflexivity. Qed.

(** The comparator [a - b] orders the numbers that are not NaN. *)
Lemma ascending_num_le (a b : number) :
  JS.isNaN a = false -> JS.isNaN b = false ->
  (JS.ascending a b = true <-> num_le a b).
Proof.
  destruct a as [x| | |], b as [y| | |]; simpl; intros Ha Hb;
    try discriminate; try (split; [intros _; exact I | reflexivity]);
    try (split; [discriminate | contradiction]).
  unfold JS.ascending, JS.gt, JS.lt, num_sub, num_add, num_opp.
  rewrite negb_true_iff, Qltb_false. split; intro H; lra.
Qed.

Lemma num_le_total (a b : number) :
  JS.isNaN a = false -> JS.isNaN b = false -> num_le a b \/ num_le b a.
Proof.
  destruct a as [x| | |], b as [y| | |]; simpl; intros Ha Hb;
    try discriminate; auto.
  destruct (Qlt_le_dec x y); [left | right]; lra.
Qed.

Lemma num_le_trans (a b c : number) : num_le a b -> num_le b c -> num_le a c.
Proof.
  destruct a as [x| | |], b as [y| | |], c as [z| | |]; simpl;
    try contradiction; auto.
  intros; lra.
Qed.

Lemma cmp_antisym (a b : number) : Mongo.cmp b a = CompOpp (Mongo.cmp a b).
Proof.
  destruct a as [x| | |], b as [y| | |]; simpl; try reflexivity.
  symmetry. apply Qcompare_antisym.
Qed.

Lemma bson_le_total (a b : number) : bson_le a b \/ bson_le b a.
Proof.
  unfold bson_le. rewrite (cmp_antisym a b).
  destruct (Mongo.cmp a b); simpl; [left | left | right]; discriminate.
Qed.

Lemma bson_le_trans (a b c : number) : bson_le a b -> bson_le b c -> bson_le a c.
Proof.
  unfold bson_le.
  destruct a as [x| | |], b as [y| | |], c as [z| | |]; simpl;
    try congruence.
  rewrite <- !Qle_alt. intros; lra.
Qed.

Lemma gte_bson_le (a b : number) : Mongo.gte a b = true <-> bson_le b a.
Proof.
  unfold Mongo.gte, bson_le. rewrite (cmp_antisym a b).
  destruct (Mongo.cmp a b); simpl; split; congruence.
Qed.

Lemma gte_false_lt (a b : number) : Mongo.gte a b = false <-> Mongo.lt a b = true.
Proof.
  unfold Mongo.gte, Mongo.lt. destruct (Mongo.cmp a b); split; congruence.
Qed.

Lemma bson_le_fin (x y : Q) : bson_le (Fin x) (Fin y) <-> x <= y.
Proof. unfold bson_le; simpl. symmetry. apply Qle_alt. Qed.

(** ** Rounding to the nearest double *)

Lemma pow2_pos (e : Z) : 0 < 2 ^ e.
Proof. apply Qpower_0_lt. reflexivity. Qed.

Lemma pow2_add (a b : Z) : 2 ^ (a + b) == 2 ^ a * 2 ^ b.
Proof. apply Qpower_plus. discriminate. Qed.

Lemma pow2_le (a b : Z) : (a <= b)%Z -> 2 ^ a <= 2 ^ b.
Proof. intro H. apply Qpower_le_compat_l; [exact H | discriminate]. Qed.

Lemma pow2_lt_inv (a b : Z) : 2 ^ a < 2 ^ b -> (a < b)%Z.
Proof. intro H. apply (Qpower_lt_compat_l_inv 2); [exact H | reflexivity]. Qed.

Lemma pow2_Z (n : Z) : (0 <= n)%Z -> inject_Z (2 ^ n) == 2 ^ n.
Proof. intro H. rewrite Zpower_Qpower by exact H. reflexivity. Qed.

(** [ilog2 q] is the binary order of magnitude of a positive [q]. *)
Lemma ilog2_spec (q : Q) :
  0 < q -> 2 ^ Binary64.ilog2 q <= q /\ q < 2 ^ (Binary64.ilog2 q + 1).
Proof.
  intro Hq. unfold Binary64.ilog2. cbv zeta.
  destruct q as [n d]. simpl Qnum. simpl Qden.
  assert (Hn : (0 < n)%Z).
  { unfold Qlt in Hq. simpl in Hq. lia. }
  set (a := Z.log2 n). set (b := Z.log2 (Z.pos d)).
  destruct (Z.log2_spec n Hn) as [Ha1 Ha2]. fold a in Ha1, Ha2.
  destruct (Z.log2_spec (Z.pos d) ltac:(lia)) as [Hb1 Hb2]. fold b in Hb1, Hb2.
  assert (Ha0 : (0 <= a)%Z) by apply Z.log2_nonneg.
  assert (Hb0 : (0 <= b)%Z) by apply Z.log2_nonneg.
  assert (Hd : 0 < inject_Z (Z.pos d)) by reflexivity.
  assert (Hq' : n # d == inject_Z n / inject_Z (Z.pos d)) by apply Qmake_Qdiv.
  (* bounds on numerator and denominator, in Q *)
  assert (Qa1 : 2 ^ a <= inject_Z n).
  { rewrite <- pow2_Z by exact Ha0. rewrite <- Zle_Qle. exact Ha1. }
  assert (Qa2 : inject_Z n < 2 ^ (a + 1)).
  { rewrite <- pow2_Z by lia. rewrite <- Zlt_Qlt.
    replace (a + 1)%Z with (Z.succ a) by lia. exact Ha2. }
  assert (Qb1 : 2 ^ b <= inject_Z (Z.pos d)).
  { rewrite <- pow2_Z by exact Hb0. rewrite <- Zle_Qle. exact Hb1. }
  assert (Qb2 : inject_Z (Z.pos d) < 2 ^ (b + 1)).
  { rewrite <- pow2_Z by lia. rewrite <- Zlt_Qlt.
    replace (b + 1)%Z with (Z.succ b) by lia. exact Hb2. }
  assert (Hupper : n # d < 2 ^ (a - b + 1)).
  { rewrite Hq'. apply Qlt_shift_div_r; [exact Hd|].
    apply Qlt_le_trans with (2 ^ (a + 1)); [exact Qa2|].
    replace (a + 1)%Z with ((a - b + 1) + b)%Z by lia.
    rewrite pow2_add. apply Qmult_le_l; [apply pow2_pos | exact Qb1]. }
  assert (Hlower : 2 ^ (a - b - 1) < n # d).
  { rewrite Hq'. apply Qlt_shift_div_l; [exact Hd|].
    apply Qlt_le_trans with (2 ^ a); [|exact Qa1].
    replace a with ((a - b - 1) + (b + 1))%Z at 2 by lia.
    rewrite pow2_add. apply Qmult_lt_l; [apply pow2_pos | exact Qb2]. }
  destruct (Qle_bool (2 ^ (a - b)) (n # d)) eqn:E.
  - apply Qle_bool_iff in E. split; [exact E | exact Hupper].
  - assert (E' : n # d < 2 ^ (a - b)).
    { apply Qnot_le_lt. intro H. apply Qle_bool_iff in H. congruence. }
    split; [apply Qlt_le_weak; exact Hlower|].
    replace (a - b - 1 + 1)%Z with (a - b)%Z by lia. exact E'.
Qed.

Lemma ilog2_unique (q : Q) (k : Z) :
  2 ^ k <= q -> q < 2 ^ (k + 1) -> Binary64.ilog2 q = k.
Proof.
  intros H1 H2.
  assert (Hq : 0 < q) by (apply Qlt_le_trans with (2 ^ k); [apply pow2_pos | exact H1]).
  destruct (ilog2_spec q Hq) as [S1 S2].
  assert (A : (Binary64.ilog2 q < k + 1)%Z).
  { apply pow2_lt_inv. apply Qle_lt_trans with q; assumption. }
  assert (B : (k < Binary64.ilog2 q + 1)%Z).
  { apply pow2_lt_inv. apply Qle_lt_trans with q; assumption. }
  lia.
Qed.

Lemma ilog2_mono (x y : Q) :
  0 < x -> x <= y -> (Binary64.ilog2 x <= Binary64.ilog2 y)%Z.
Proof.
  intros Hx Hxy.
  destruct (ilog2_spec x Hx) as [X1 _].
  destruct (ilog2_spec y (Qlt_le_trans _ _ _ Hx Hxy)) as [_ Y2].
  assert (A : (Binary64.ilog2 x < Binary64.ilog2 y + 1)%Z).
  { apply pow2_lt_inv. apply Qle_lt_trans with x; [exact X1|].
    apply Qle_lt_trans with y; assumption. }
  lia.
Qed.

Lemma ilog2_Qeq (x y : Q) : 0 < x -> x == y -> Binary64.ilog2 x = Binary64.ilog2 y.
Proof.
  intros Hx E. destruct (ilog2_spec x Hx) as [X1 X2].
  symmetry. apply ilog2_unique; rewrite <- E; assumption.
Qed.

Lemma Qabs_pos_of_nonzero (q : Q) : ~ q == 0 -> 0 < Qabs q.
Proof.
  intro H. destruct (Qlt_le_dec q 0) as [L | L].
  - rewrite Qabs_neg by lra. lra.
  - rewrite Qabs_pos by exact L.
    destruct (Qle_lt_or_eq _ _ L) as [P | P]; [exact P|].
    exfalso. apply H. symmetry. exact P.
Qed.

Lemma exponent_Qeq (x y : Q) :
  ~ x == 0 -> x == y -> Binary64.exponent x = Binary64.exponent y.
Proof.
  intros Hx E. unfold Binary64.exponent.
  rewrite (ilog2_Qeq (Qabs x) (Qabs y)); [reflexivity | |].
  - apply Qabs_pos_of_nonzero; exact Hx.
  - rewrite E. reflexivity.
Qed.

Lemma exponent_min (q : Q) : (-1074 <= Binary64.exponent q)%Z.
Proof. unfold Binary64.exponent. lia. Qed.

Lemma exponent_upper (q : Q) :
  ~ q == 0 -> Qabs q < 2 ^ (Binary64.exponent q + 53).
Proof.
  intro H. destruct (ilog2_spec _ (Qabs_pos_of_nonzero q H)) as [_ S2].
  apply Qlt_le_trans with (1 := S2). apply pow2_le.
  unfold Binary64.exponent. lia.
Qed.

Lemma exponent_lower (q : Q) :
  ~ q == 0 -> (-1074 < Binary64.exponent q)%Z ->
  2 ^ (Binary64.exponent q + 52) <= Qabs q.
Proof.
  intros H He. destruct (ilog2_spec _ (Qabs_pos_of_nonzero q H)) as [S1 _].
  apply Qle_trans with (2 := S1). apply pow2_le.
  unfold Binary64.exponent in *. lia.
Qed.

Lemma exponent_mono (x y : Q) :
  ~ x == 0 -> Qabs x <= Qabs y -> (Binary64.exponent x <= Binary64.exponent y)%Z.
Proof.
  intros Hx Hxy. unfold Binary64.exponent.
  pose proof (ilog2_mono _ _ (Qabs_pos_of_nonzero x Hx) Hxy). lia.
Qed.

Lemma round_half_even_mono (x y : Q) :
  x <= y -> (Mongo.round_half_even x <= Mongo.round_half_even y)%Z.
Proof.
  intro Hxy. unfold Mongo.round_half_even. cbv zeta.
  pose proof (Qfloor_le x) as Hx1. pose proof (Qlt_floor x) as Hx2.
  pose proof (Qfloor_le y) as Hy1. pose proof (Qlt_floor y) as Hy2.
  pose proof (Qfloor_resp_le _ _ Hxy) as Hf.
  rewrite inject_Z_plus in Hx2, Hy2. change (inject_Z 1) with 1 in Hx2, Hy2.
  destruct (Z.eq_dec (Qfloor x) (Qfloor y)) as [Heq | Hneq].
  - rewrite <- Heq in *.
    destruct (x - inject_Z (Qfloor x) ?= 1 # 2) eqn:Ex;
      destruct (y - inject_Z (Qfloor x) ?= 1 # 2) eqn:Ey;
      repeat match goal with
             | H : (_ ?= _) = Eq |- _ => apply (proj2 (Qeq_alt _ _)) in H
             | H : (_ ?= _) = Lt |- _ => apply (proj2 (Qlt_alt _ _)) in H
             | H : (_ ?= _) = Gt |- _ => apply (proj2 (Qgt_alt _ _)) in H
             end;
      try lia; try (exfalso; lra);
      destruct (Z.even (Qfloor x)); lia.
  - assert (Hlt : (Qfloor x + 1 <= Qfloor y)%Z) by lia.
    destruct (x - inject_Z (Qfloor x) ?= 1 # 2);
      destruct (y - inject_Z (Qfloor y) ?= 1 # 2);
      try destruct (Z.even (Qfloor x)); try destruct (Z.even (Qfloor y)); lia.
Qed.

Lemma round_half_even_Qeq (x y : Q) :
  x == y -> Mongo.round_half_even x = Mongo.round_half_even y.
Proof.
  intro E. apply Z.le_antisymm; apply round_half_even_mono; rewrite E; apply Qle_refl.
Qed.

Lemma round_half_even_Z (z : Z) : Mongo.round_half_even (inject_Z z) = z.
Proof.
  unfold Mongo.round_half_even. cbv zeta. rewrite Qfloor_Z.
  assert (H : (inject_Z z - inject_Z z ?= 1 # 2) = Lt).
  { apply Qlt_alt. setoid_replace (inject_Z z - inject_Z z) with 0 by ring.
    reflexivity. }
  rewrite H. reflexivity.
Qed.

(** The integer nearest to [x] is within [1/2] of it. *)
Lemma round_half_even_near (x : Q) :
  Qabs (inject_Z (Mongo.round_half_even x) - x) <= 1 # 2.
Proof.
  unfold Mongo.round_half_even. cbv zeta.
  pose proof (Qfloor_le x) as H1. pose proof (Qlt_floor x) as H2.
  rewrite inject_Z_plus in H2. change (inject_Z 1) with 1 in H2.
  destruct (x - inject_Z (Qfloor x) ?= 1 # 2) eqn:E;
    [apply (proj2 (Qeq_alt _ _)) in E
    |apply (proj2 (Qlt_alt _ _)) in E
    |apply (proj2 (Qgt_alt _ _)) in E].
  - destruct (Z.even (Qfloor x));
      [|rewrite inject_Z_plus; change (inject_Z 1) with 1];
      apply Qabs_case; intros; lra.
  - apply Qabs_case; intros; lra.
  - rewrite inject_Z_plus; change (inject_Z 1) with 1.
    apply Qabs_case; intros; lra.
Qed.

Lemma nearest_Qeq (x y : Q) :
  ~ x == 0 -> x == y -> Binary64.nearest x == Binary64.nearest y.
Proof.
  intros Hx E. unfold Binary64.nearest.
  rewrite <- (exponent_Qeq x y Hx E).
  rewrite (round_half_even_Qeq (y / 2 ^ Binary64.exponent x)
                               (x / 2 ^ Binary64.exponent x)).
  - reflexivity.
  - apply Qdiv_comp; [symmetry; exact E | reflexivity].
Qed.

Lemma round_Qeq (x y : Q) : x == y -> Binary64.round x = Binary64.round y.
Proof.
  intro E. unfold Binary64.round.
  destruct (Qeq_bool x 0) eqn:Ex.
  - apply Qeq_bool_iff in Ex.
    assert (Ey : Qeq_bool y 0 = true) by (apply Qeq_bool_iff; rewrite <- E; exact Ex).
    rewrite Ey. reflexivity.
  - assert (Hx : ~ x == 0) by (apply Qeq_bool_neq; exact Ex).
    assert (Ey : Qeq_bool y 0 = false).
    { destruct (Qeq_bool y 0) eqn:Ey; [|reflexivity].
      apply Qeq_bool_iff in Ey. exfalso. apply Hx. rewrite E. exact Ey. }
    rewrite Ey.
    pose proof (nearest_Qeq x y Hx E) as N.
    assert (B1 : Qle_bool (2 ^ 1024) (Qabs (Binary64.nearest x))
                 = Qle_bool (2 ^ 1024) (Qabs (Binary64.nearest y))).
    { apply eq_true_iff_eq. rewrite !Qle_bool_iff, N. reflexivity. }
    assert (B2 : Qle_bool 0 x = Qle_bool 0 y).
    { apply eq_true_iff_eq. rewrite !Qle_bool_iff, E. reflexivity. }
    rewrite B1, B2.
    destruct (Qle_bool (2 ^ 1024) (Qabs (Binary64.nearest y))); [reflexivity|].
    f_equal. apply Qred_complete. exact N.
Qed.

Lemma scaled_le (k : Z) (e : Z) (x : Q) :
  x <= inject_Z k * 2 ^ e -> (Mongo.round_half_even (x / 2 ^ e) <= k)%Z.
Proof.
  intro H. rewrite <- (round_half_even_Z k). apply round_half_even_mono.
  apply Qle_shift_div_r; [apply pow2_pos | exact H].
Qed.

Lemma scaled_ge (k : Z) (e : Z) (x : Q) :
  inject_Z k * 2 ^ e <= x -> (k <= Mongo.round_half_even (x / 2 ^ e))%Z.
Proof.
  intro H. rewrite <- (round_half_even_Z k) at 1. apply round_half_even_mono.
  apply Qle_shift_div_l; [apply pow2_pos | exact H].
Qed.

Lemma nearest_le (k : Z) (x : Q) :
  x <= inject_Z k * 2 ^ Binary64.exponent x ->
  Binary64.nearest x <= inject_Z k * 2 ^ Binary64.exponent x.
Proof.
  intro H. unfold Binary64.nearest.
  apply Qmult_le_compat_r; [|apply Qlt_le_weak, pow2_pos].
  rewrite <- Zle_Qle. apply scaled_le. exact H.
Qed.

Lemma nearest_ge (k : Z) (x : Q) :
  inject_Z k * 2 ^ Binary64.exponent x <= x ->
  inject_Z k * 2 ^ Binary64.exponent x <= Binary64.nearest x.
Proof.
  intro H. unfold Binary64.nearest.
  apply Qmult_le_compat_r; [|apply Qlt_le_weak, pow2_pos].
  rewrite <- Zle_Qle. apply scaled_ge. exact H.
Qed.

Lemma nearest_nonneg (x : Q) : 0 <= x -> 0 <= Binary64.nearest x.
Proof.
  intro H. apply Qle_trans with (inject_Z 0 * 2 ^ Binary64.exponent x).
  - change (inject_Z 0) with 0. rewrite Qmult_0_l. apply Qle_refl.
  - apply nearest_ge. change (inject_Z 0) with 0. rewrite Qmult_0_l. exact H.
Qed.

Lemma nearest_nonpos (x : Q) : x <= 0 -> Binary64.nearest x <= 0.
Proof.
  intro H. apply Qle_trans with (inject_Z 0 * 2 ^ Binary64.exponent x).
  - apply nearest_le. change (inject_Z 0) with 0. rewrite Qmult_0_l. exact H.
  - change (inject_Z 0) with 0. rewrite Qmult_0_l. apply Qle_refl.
Qed.

Lemma pow2_53 (e : Z) : inject_Z (2 ^ 53) * 2 ^ e == 2 ^ (e + 53).
Proof. rewrite pow2_add. rewrite pow2_Z by lia. ring. Qed.

Lemma pow2_52 (e : Z) : inject_Z (2 ^ 52) * 2 ^ e == 2 ^ (e + 52).
Proof. rewrite pow2_add. rewrite pow2_Z by lia. ring. Qed.

Lemma neg_pow2_53 (e : Z) : inject_Z (- 2 ^ 53) * 2 ^ e == - 2 ^ (e + 53).
Proof. rewrite inject_Z_opp, <- pow2_53. ring. Qed.

Lemma neg_pow2_52 (e : Z) : inject_Z (- 2 ^ 52) * 2 ^ e == - 2 ^ (e + 52).
Proof. rewrite inject_Z_opp, <- pow2_52. ring. Qed.

(** Rounding to the nearest double, before overflow, is monotone. *)
Lemma nearest_mono (x y : Q) :
  ~ x == 0 -> ~ y == 0 -> x <= y -> Binary64.nearest x <= Binary64.nearest y.
Proof.
  intros Hx Hy Hxy.
  destruct (Qlt_le_dec x 0) as [Xneg | Xpos];
    destruct (Qlt_le_dec y 0) as [Yneg | Ypos].
  - (* both negative *)
    assert (Ax : Qabs x == - x) by (apply Qabs_neg; lra).
    assert (Ay : Qabs y == - y) by (apply Qabs_neg; lra).
    assert (He : (Binary64.exponent y <= Binary64.exponent x)%Z).
    { apply exponent_mono; [exact Hy | rewrite Ax, Ay; lra]. }
    destruct (Z.eq_dec (Binary64.exponent y) (Binary64.exponent x)) as [Ee | Ne].
    + unfold Binary64.nearest. rewrite Ee.
      apply Qmult_le_compat_r; [|apply Qlt_le_weak, pow2_pos].
      rewrite <- Zle_Qle. apply round_half_even_mono.
      apply Qmult_le_compat_r; [exact Hxy|].
      apply Qlt_le_weak, Qinv_lt_0_compat, pow2_pos.
    + assert (Lx : (-1074 < Binary64.exponent x)%Z).
      { pose proof (exponent_min y). lia. }
      pose proof (exponent_lower x Hx Lx) as Bx.
      pose proof (exponent_upper y Hy) as By.
      rewrite Ax in Bx. rewrite Ay in By.
      apply Qle_trans with (- 2 ^ (Binary64.exponent x + 52)).
      * rewrite <- neg_pow2_52. apply nearest_le. rewrite neg_pow2_52. lra.
      * apply Qle_trans with (- 2 ^ (Binary64.exponent y + 53)).
        -- assert (P : 2 ^ (Binary64.exponent y + 53) <= 2 ^ (Binary64.exponent x + 52))
             by (apply pow2_le; lia).
           lra.
        -- rewrite <- neg_pow2_53. apply nearest_ge. rewrite neg_pow2_53. lra.
  - apply Qle_trans with 0; [apply nearest_nonpos; lra | apply nearest_nonneg; exact Ypos].
  - exfalso. lra.
  - (* both positive *)
    assert (Ax : Qabs x == x) by (apply Qabs_pos; exact Xpos).
    assert (Ay : Qabs y == y) by (apply Qabs_pos; exact Ypos).
    assert (He : (Binary64.exponent x <= Binary64.exponent y)%Z).
    { apply exponent_mono; [exact Hx | rewrite Ax, Ay; exact Hxy]. }
    destruct (Z.eq_dec (Binary64.exponent x) (Binary64.exponent y)) as [Ee | Ne].
    + unfold Binary64.nearest. rewrite Ee.
      apply Qmult_le_compat_r; [|apply Qlt_le_weak, pow2_pos].
      rewrite <- Zle_Qle. apply round_half_even_mono.
      apply Qmult_le_compat_r; [exact Hxy|].
      apply Qlt_le_weak, Qinv_lt_0_compat, pow2_pos.
    + assert (Ly : (-1074 < Binary64.exponent y)%Z).
      { pose proof (exponent_min x). lia. }
      pose proof (exponent_lower y Hy Ly) as By.
      pose proof (exponent_upper x Hx) as Bx.
      rewrite Ax in Bx. rewrite Ay in By.
      apply Qle_trans with (2 ^ (Binary64.exponent x + 53)).
      * rewrite <- pow2_53. apply nearest_le. rewrite pow2_53. lra.
      * apply Qle_trans with (2 ^ (Binary64.exponent y + 52)).
        -- apply pow2_le; lia.
        -- rewrite <- pow2_52. apply nearest_ge. rewrite pow2_52. exact By.
Qed.

(** The three ways a rational rounds. *)
Inductive rounds (q : Q) : number -> Prop :=
| rounds_zero : q == 0 -> rounds q (Fin 0)
| rounds_over :
    ~ q == 0 -> 2 ^ 1024 <= Qabs (Binary64.nearest q) ->
    rounds q (if Qle_bool 0 q then PInf else NInf)
| rounds_finite :
    ~ q == 0 -> Qabs (Binary64.nearest q) < 2 ^ 1024 ->
    rounds q (Fin (Qred (Binary64.nearest q))).

Lemma round_cases (q : Q) : rounds q (Binary64.round q).
Proof.
  unfold Binary64.round.
  destruct (Qeq_bool q 0) eqn:E.
  - apply rounds_zero. apply Qeq_bool_iff. exact E.
  - assert (Hq : ~ q == 0) by (apply Qeq_bool_neq; exact E).
    destruct (Qle_bool (2 ^ 1024) (Qabs (Binary64.nearest q))) eqn:O.
    + apply rounds_over; [exact Hq | apply Qle_bool_iff; exact O].
    + apply rounds_finite; [exact Hq|].
      apply Qnot_le_lt. intro H. apply Qle_bool_iff in H. congruence.
Qed.

(** Rounding to the nearest double is monotone. *)
Lemma rounded_mono (x y : Q) :
  x <= y -> num_le (Binary64.round x) (Binary64.round y).
Proof.
  intro Hxy.
  destruct (round_cases x) as [X0 | X0 XO | X0 XF];
    destruct (round_cases y) as [Y0 | Y0 YO | Y0 YF].
  - simpl. apply Qle_refl.
  - assert (P : Qle_bool 0 y = true) by (apply Qle_bool_iff; lra).
    rewrite P. exact I.
  - cbn [num_le]. rewrite Qred_correct. apply nearest_nonneg. lra.
  - assert (P : Qle_bool 0 x = false).
    { apply Qle_bool_false.
      destruct (Qlt_le_dec x 0) as [L | L]; [exact L|].
      exfalso. apply X0. lra. }
    rewrite P. exact I.
  - destruct (Qle_bool 0 x) eqn:Px.
    + apply Qle_bool_iff in Px.
      assert (Py : Qle_bool 0 y = true) by (apply Qle_bool_iff; lra).
      rewrite Py. exact I.
    + destruct (Qle_bool 0 y); exact I.
  - destruct (Qle_bool 0 x) eqn:Px; [|exact I].
    exfalso. apply Qle_bool_iff in Px.
    pose proof (nearest_mono x y X0 Y0 Hxy) as M.
    pose proof (nearest_nonneg x Px) as Nx.
    rewrite Qabs_pos in XO by exact Nx.
    rewrite Qabs_pos in YF by lra. lra.
  - cbn [num_le]. rewrite Qred_correct. apply nearest_nonpos. lra.
  - destruct (Qle_bool 0 y) eqn:Py; [exact I|].
    exfalso. apply Qle_bool_false in Py.
    pose proof (nearest_mono x y X0 Y0 Hxy) as M.
    pose proof (nearest_nonpos y (Qlt_le_weak _ _ Py)) as Ny.
    rewrite Qabs_neg in YO by exact Ny.
    rewrite Qabs_neg in XF by lra. lra.
  - cbn [num_le]. rewrite !Qred_correct. apply nearest_mono; assumption.
Qed.

(** A rational on the grid of its own binade rounds to itself. *)
Lemma nearest_exact (q : Q) (k : Z) :
  q == inject_Z k * 2 ^ Binary64.exponent q -> Binary64.nearest q == q.
Proof.
  intro H. unfold Binary64.nearest.
  rewrite (round_half_even_Qeq _ (inject_Z k)).
  - rewrite round_half_even_Z. symmetry. exact H.
  - apply Qmult_inj_r with (2 ^ Binary64.exponent q).
    + intro Z0. pose proof (pow2_pos (Binary64.exponent q)). lra.
    + rewrite <- H. field. intro Z0. pose proof (pow2_pos (Binary64.exponent q)). lra.
Qed.

Lemma Qabs_scaled (m : Z) (e : Z) :
  Qabs (inject_Z m * 2 ^ e) == inject_Z (Z.abs m) * 2 ^ e.
Proof.
  rewrite Qabs_Qmult. rewrite (Qabs_pos (2 ^ e)) by apply Qlt_le_weak, pow2_pos.
  apply Qmult_comp; [|reflexivity].
  unfold Qabs, inject_Z. simpl. reflexivity.
Qed.

(** [m * 2^e] with a significand of at most 53 bits and an exponent in
    range is a double. *)
Lemma nearest_representable (q : Q) (m e : Z) :
  q == inject_Z m * 2 ^ e -> (Z.abs m < 2 ^ 53)%Z -> (-1074 <= e)%Z ->
  Binary64.nearest q == q.
Proof.
  intros Hq Hm He.
  destruct (Qeq_dec q 0) as [Z0 | NZ].
  - apply (nearest_exact q 0). change (inject_Z 0) with 0.
    rewrite Qmult_0_l. exact Z0.
  - set (E := Binary64.exponent q).
    assert (HE : (E <= e)%Z).
    { destruct (Z_le_gt_dec E (-1074)) as [L | G]; [lia|].
      pose proof (exponent_lower q NZ ltac:(fold E; lia)) as B. fold E in B.
      assert (U : Qabs q < 2 ^ (e + 53)).
      { rewrite Hq, Qabs_scaled, <- pow2_53.
        apply Qmult_lt_compat_r; [apply pow2_pos|].
        rewrite <- Zlt_Qlt. exact Hm. }
      assert (P : (E + 52 < e + 53)%Z).
      { apply pow2_lt_inv. apply Qle_lt_trans with (Qabs q); assumption. }
      lia. }
    apply (nearest_exact q (m * 2 ^ (e - E))). fold E.
    rewrite Hq, inject_Z_mult, pow2_Z by lia.
    replace e with ((e - E) + E)%Z at 1 by lia.
    rewrite pow2_add. ring.
Qed.

Lemma round_representable (q : Q) (m e : Z) :
  q == inject_Z m * 2 ^ e -> (Z.abs m < 2 ^ 53)%Z -> (-1074 <= e <= 971)%Z ->
  Binary64.round q = Fin (Qred q).
Proof.
  intros Hq Hm He.
  pose proof (nearest_representable q m e Hq Hm ltac:(lia)) as N.
  destruct (round_cases q) as [Z0 | NZ O | NZ F].
  - f_equal. symmetry. apply (Qred_complete q 0). exact Z0.
  - exfalso. rewrite N, Hq, Qabs_scaled in O.
    assert (U : inject_Z (Z.abs m) * 2 ^ e < 2 ^ 1024).
    { apply Qlt_le_trans with (2 ^ (e + 53)).
      - rewrite <- pow2_53. apply Qmult_lt_compat_r; [apply pow2_pos|].
        rewrite <- Zlt_Qlt. exact Hm.
      - apply pow2_le. lia. }
    lra.
  - f_equal. apply Qred_complete. exact N.
Qed.

(** Integers below [2^53] in absolute value are doubles. *)
Lemma round_Z (z : Z) :
  (Z.abs z < 2 ^ 53)%Z -> Binary64.round (inject_Z z) = Fin (inject_Z z).
Proof.
  intro H. rewrite (round_representable (inject_Z z) z 0); [| |exact H|lia].
  - f_equal. unfold inject_Z, Qred. simpl.
    pose proof (Z.ggcd_gcd z 1) as G. pose proof (Z.ggcd_correct_divisors z 1) as D.
    destruct (Z.ggcd z 1) as [g [a b]]. simpl in *.
    rewrite Z.gcd_1_r in G. subst g. destruct D as [D1 D2].
    rewrite Z.mul_1_l in D1, D2. subst. reflexivity.
  - change (2 ^ 0) with 1. ring.
Qed.

Lemma pow2_le_inv (a b : Z) : 2 ^ a <= 2 ^ b -> (a <= b)%Z.
Proof. intro H. apply (Qpower_le_compat_l_inv 2); [exact H | reflexivity]. Qed.

Lemma pow2_lt (a b : Z) : (a < b)%Z -> 2 ^ a < 2 ^ b.
Proof. intro H. apply Qpower_lt_compat_l; [exact H | reflexivity]. Qed.

Lemma pow2_half (e : Z) : 2 ^ (e - 1) == (1 # 2) * 2 ^ e.
Proof.
  replace (e - 1)%Z with (e + -1)%Z by lia. rewrite pow2_add.
  change (2 ^ (-1)) with (1 # 2). ring.
Qed.

(** The distance between a rational and its nearest double is at most
    half a unit in the last place. *)
Lemma nearest_error (q : Q) :
  Qabs (Binary64.nearest q - q) <= 2 ^ (Binary64.exponent q - 1).
Proof.
  unfold Binary64.nearest. set (e := Binary64.exponent q).
  pose proof (round_half_even_near (q / 2 ^ e)) as H.
  pose proof (pow2_pos e) as P.
  assert (E : inject_Z (Mongo.round_half_even (q / 2 ^ e)) * 2 ^ e - q
              == (inject_Z (Mongo.round_half_even (q / 2 ^ e)) - q / 2 ^ e) * 2 ^ e).
  { field. lra. }
  rewrite E, Qabs_Qmult, (Qabs_pos (2 ^ e)) by lra.
  rewrite pow2_half.
  apply Qmult_le_compat_r; [exact H | lra].
Qed.

Lemma exponent_le (q : Q) (k : Z) :
  ~ q == 0 -> (-1021 <= k)%Z -> Qabs q <= 2 ^ k ->
  (Binary64.exponent q <= k - 52)%Z.
Proof.
  intros Hq Hk H.
  destruct (Z_le_gt_dec (Binary64.exponent q) (-1074)) as [L | G]; [lia|].
  pose proof (exponent_lower q Hq ltac:(lia)) as B.
  assert (P : (Binary64.exponent q + 52 <= k)%Z).
  { apply pow2_le_inv. apply Qle_trans with (Qabs q); assumption. }
  lia.
Qed.

Lemma nearest_pow2 (k : Z) : (-1074 <= k)%Z -> Binary64.nearest (2 ^ k) == 2 ^ k.
Proof.
  intro H. apply (nearest_representable (2 ^ k) 1 k); [|reflexivity|exact H].
  change (inject_Z 1) with 1. ring.
Qed.

Lemma nearest_neg_pow2 (k : Z) :
  (-1074 <= k)%Z -> Binary64.nearest (- 2 ^ k) == - 2 ^ k.
Proof.
  intro H. apply (nearest_representable (- 2 ^ k) (-1) k); [|reflexivity|exact H].
  change (inject_Z (-1)) with (-(1)). ring.
Qed.

Lemma nearest_within (q : Q) (k : Z) :
  ~ q == 0 -> (-1074 <= k)%Z -> Qabs q <= 2 ^ k ->
  Qabs (Binary64.nearest q) <= 2 ^ k.
Proof.
  intros Hq Hk H.
  pose proof (pow2_pos k) as P.
  assert (B : - 2 ^ k <= q <= 2 ^ k).
  { revert H. apply Qabs_case; intros; split; lra. }
  destruct B as [B1 B2].
  assert (U : Binary64.nearest q <= 2 ^ k).
  { rewrite <- (nearest_pow2 k Hk). apply nearest_mono; [exact Hq | lra | exact B2]. }
  assert (L : - 2 ^ k <= Binary64.nearest q).
  { rewrite <- (nearest_neg_pow2 k Hk). apply nearest_mono; [lra | exact Hq | exact B1]. }
  apply Qabs_case; intros; lra.
Qed.

(** Rounding a rational of magnitude at most [2^k]: the result is finite,
    of magnitude at most [2^k], and off by at most [2^(k-53)]. *)
Lemma round_error (x : Q) (k : Z) :
  (-1021 <= k <= 1023)%Z -> Qabs x <= 2 ^ k ->
  exists r, Binary64.round x = Fin r
            /\ Qabs (r - x) <= 2 ^ (k - 53)
            /\ Qabs r <= 2 ^ k.
Proof.
  intros Hk H.
  pose proof (pow2_pos k) as P. pose proof (pow2_pos (k - 53)) as P'.
  destruct (round_cases x) as [Z0 | NZ O | NZ F].
  - exists 0. split; [reflexivity|]. split.
    + setoid_replace (0 - x) with 0 by (rewrite Z0; ring). simpl. lra.
    + simpl. lra.
  - exfalso.
    pose proof (nearest_within x k NZ ltac:(lia) H) as W.
    assert (Q2 : 2 ^ k < 2 ^ 1024) by (apply pow2_lt; lia).
    lra.
  - exists (Qred (Binary64.nearest x)). split; [reflexivity|].
    rewrite !Qred_correct. split.
    + apply Qle_trans with (1 := nearest_error x).
      apply pow2_le. pose proof (exponent_le x k NZ ltac:(lia) H). lia.
    + apply nearest_within; [exact NZ | lia | exact H].
Qed.

Lemma rounded_not_NaN (q : Q) : Binary64.round q <> NaN.
Proof.
  destruct (round_cases q); try discriminate.
  destruct (Qle_bool 0 q); discriminate.
Qed.

Lemma rounded_number_mono (a b : number) :
  num_le a b -> num_le (Binary64.rounded a) (Binary64.rounded b).
Proof.
  destruct a as [x| | |], b as [y| | |]; simpl; try contradiction; auto.
  - apply rounded_mono.
  - intros _. pose proof (rounded_not_NaN x).
    destruct (Binary64.round x); simpl; auto.
  - intros _. pose proof (rounded_not_NaN y).
    destruct (Binary64.round y); simpl; auto.
Qed.

(** A rational between two integers that are doubles rounds to a finite
    value between them. *)
Lemma rounded_between (x : Q) (a b : Z) :
  (Z.abs a < 2 ^ 53)%Z -> (Z.abs b < 2 ^ 53)%Z ->
  inject_Z a <= x <= inject_Z b ->
  exists r, Binary64.round x = Fin r /\ inject_Z a <= r <= inject_Z b.
Proof.
  intros Ha Hb [H1 H2].
  pose proof (rounded_mono _ _ H1) as L. pose proof (rounded_mono _ _ H2) as U.
  rewrite round_Z in L, U by assumption.
  destruct (Binary64.round x) as [r| | |]; simpl in L, U; try contradiction.
  exists r. split; [reflexivity | split; assumption].
Qed.

(** ** Percentile estimator *)

Lemma StronglySorted_weaken {A : Type} (P : A -> Prop) (R R' : A -> A -> Prop)
      (l : list A) :
  (forall a b, P a -> P b -> R a b -> R' a b) ->
  Forall P l -> StronglySorted R l -> StronglySorted R' l.
Proof.
  intros HR Pl Hs. induction Hs as [|x l Hs IH Hx]; constructor.
  - apply IH. inversion Pl; assumption.
  - inversion Pl as [|? ? Px Pl']; subst.
    rewrite Forall_forall in *. intros y Hy. apply HR; auto.
Qed.

Lemma riseSols_perm (tokens : list TokenInfo) :
  Permutation (GroupingEngine.riseSols tokens)
              (filter (fun rise => negb (JS.isNaN rise))
                      (map GroupingEngine.riseSol tokens)).
Proof. apply sort_by_perm. Qed.

Lemma riseSols_not_NaN (tokens : list TokenInfo) :
  Forall (fun r => JS.isNaN r = false) (GroupingEngine.riseSols tokens).
Proof.
  apply sort_by_Forall, Forall_forall. intros r Hr.
  apply filter_In in Hr. destruct Hr as [_ Hr].
  apply negb_true_iff in Hr. exact Hr.
Qed.

Lemma riseSols_sorted (tokens : list TokenInfo) :
  StronglySorted num_le (GroupingEngine.riseSols tokens).
Proof.
  apply (StronglySorted_weaken (fun r => JS.isNaN r = false)
           (fun a b => JS.ascending a b = true)).
  - intros a b Ha Hb. apply ascending_num_le; assumption.
  - apply riseSols_not_NaN.
  - apply (sort_by_sorted JS.ascending (fun r => JS.isNaN r = false)).
    + intros a b Ha Hb.
      destruct (num_le_total a b Ha Hb) as [H|H]; [left | right];
        apply ascending_num_le; assumption.
    + intros a b c Ha Hb Hc Hab Hbc.
      apply ascending_num_le; [assumption..|].
      apply (num_le_trans a b c); apply ascending_num_le; assumption.
    + apply Forall_forall. intros r Hr.
      apply filter_In in Hr. destruct Hr as [_ Hr].
      apply negb_true_iff in Hr. exact Hr.
Qed.

(** Reading an array at a non-negative integer. *)
Lemma index_integer {A : Type} (arr : list A) (z : Z) :
  (0 <= z)%Z -> JS.index arr (Fin (inject_Z z)) = nth_error arr (Z.to_nat z).
Proof.
  intro Hz. unfold JS.index. rewrite Qfloor_Z.
  assert (H0 : Qle_bool 0 (inject_Z z) = true).
  { apply Qle_bool_iff. change 0 with (inject_Z 0). rewrite <- Zle_Qle. exact Hz. }
  assert (H1 : Qeq_bool (inject_Z z) (inject_Z z) = true).
  { apply Qeq_bool_iff. reflexivity. }
  rewrite H0, H1. reflexivity.
Qed.

Lemma index_of_nat {A : Type} (arr : list A) (k : nat) :
  JS.index arr (of_nat k) = nth_error arr k.
Proof.
  unfold of_nat. rewrite index_integer by lia. rewrite Nat2Z.id. reflexivity.
Qed.

Lemma Qmult_le_left (c a b : Q) : 0 <= c -> a <= b -> c * a <= c * b.
Proof.
  intros Hc Hab. rewrite (Qmult_comm c a), (Qmult_comm c b).
  apply Qmult_le_compat_r; assumption.
Qed.

(** Rounding between two integer bounds: the value stays between them and
    moves by at most half a unit in the last place of [2^k]. *)
Lemma rounded_within (x : Q) (a b k : Z) :
  (Z.abs a < 2 ^ 53)%Z -> (Z.abs b < 2 ^ 53)%Z -> (-1021 <= k <= 1023)%Z ->
  inject_Z a <= x <= inject_Z b -> Qabs x <= 2 ^ k ->
  exists r, Binary64.round x = Fin r
            /\ inject_Z a <= r <= inject_Z b
            /\ Qabs (r - x) <= 2 ^ (k - 53).
Proof.
  intros Ha Hb Hk Hx Hm.
  destruct (rounded_between x a b Ha Hb Hx) as [r [Hr Hab]].
  destruct (round_error x k Hk Hm) as [r' [Hr' [He _]]].
  assert (r' = r) by congruence. subst r'.
  exists r. split; [exact Hr | split; assumption].
Qed.

(** The factor [1 - winPercent / 100] of the rank: two roundings, each
    off by at most [2^-53]. *)
Lemma percentile_factor (p : Q) :
  0 <= p <= 100 ->
  exists t s,
    Binary64.div (Fin p) (Fin 100) = Fin t
    /\ Binary64.sub (Fin 1) (Fin t) = Fin s
    /\ 0 <= t <= 1 /\ 0 <= s <= 1
    /\ Qabs (t - p / 100) <= 2 ^ (-53)
    /\ Qabs (s - (1 - t)) <= 2 ^ (-53).
Proof.
  intros [Hp0 Hp1].
  assert (Hq : 0 <= p / 100 <= 1).
  { change (p / 100) with (p * (1 # 100)). split; lra. }
  destruct (rounded_within (p / 100) 0 1 0) as [t [Ht [Bt Et]]];
    try reflexivity; try lia; try exact Hq.
  { apply Qabs_case; intros; change (2 ^ 0) with 1; lra. }
  change (inject_Z 0) with 0 in Bt. change (inject_Z 1) with 1 in Bt.
  destruct (rounded_within (1 - t) 0 1 0) as [s [Hs [Bs Es]]];
    try reflexivity; try lia.
  { change (inject_Z 0) with 0. change (inject_Z 1) with 1. split; lra. }
  { apply Qabs_case; intros; change (2 ^ 0) with 1; lra. }
  change (inject_Z 0) with 0 in Bs. change (inject_Z 1) with 1 in Bs.
  exists t, s. repeat split; try lra; try assumption.
Qed.

Lemma percentile_factor_antitone (p1 p2 t1 t2 s1 s2 : Q) :
  p1 <= p2 ->
  Binary64.div (Fin p1) (Fin 100) = Fin t1 ->
  Binary64.div (Fin p2) (Fin 100) = Fin t2 ->
  Binary64.sub (Fin 1) (Fin t1) = Fin s1 ->
  Binary64.sub (Fin 1) (Fin t2) = Fin s2 ->
  s2 <= s1.
Proof.
  intros Hp H1 H2 H3 H4.
  assert (Ht : t1 <= t2).
  { assert (L : p1 / 100 <= p2 / 100).
    { change (?a / 100) with (a * (1 # 100)). lra. }
    pose proof (rounded_mono _ _ L) as M.
    change (Binary64.round (p1 / 100)) with (Binary64.div (Fin p1) (Fin 100)) in M.
    change (Binary64.round (p2 / 100)) with (Binary64.div (Fin p2) (Fin 100)) in M.
    rewrite H1, H2 in M. exact M. }
  assert (L : 1 - t2 <= 1 - t1) by lra.
  pose proof (rounded_mono _ _ L) as M.
  change (Binary64.round (1 - t2)) with (Binary64.sub (Fin 1) (Fin t2)) in M.
  change (Binary64.round (1 - t1)) with (Binary64.sub (Fin 1) (Fin t1)) in M.
  rewrite H3, H4 in M. exact M.
Qed.

Lemma of_nat_bounds (n : nat) :
  (0 < n)%nat ->
  2 ^ Z.log2 (Z.of_nat n) <= inject_Z (Z.of_nat n)
  /\ inject_Z (Z.of_nat n) < 2 ^ (Z.log2 (Z.of_nat n) + 1).
Proof.
  intro Hn.
  destruct (Z.log2_spec (Z.of_nat n) ltac:(lia)) as [L U].
  pose proof (Z.log2_nonneg (Z.of_nat n)) as P.
  split.
  - rewrite <- pow2_Z by exact P. rewrite <- Zle_Qle. exact L.
  - rewrite <- pow2_Z by lia. rewrite <- Zlt_Qlt.
    replace (Z.log2 (Z.of_nat n) + 1)%Z with (Z.succ (Z.log2 (Z.of_nat n))) by lia.
    exact U.
Qed.

(** The rank of the percentile, for a win-percentage in [0, 100] and an
    array of fewer than [2^32] rises: a position of the array or its
    length, at most 1 away from the floor of the exact product, and a
    position of the array as soon as the win-percentage is [10^-12] or
    more. *)
Lemma percentileIndex_rank (n : nat) (p : Q) :
  0 <= p <= 100 -> (Z.of_nat n < 2 ^ 32)%Z ->
  exists k : nat,
    GroupingEngine.percentileIndex n (Fin p) = of_nat k
    /\ (k <= n)%nat
    /\ (Z.of_nat k - 1
        <= Qfloor (inject_Z (Z.of_nat n) * (1 - p / 100))
        <= Z.of_nat k + 1)%Z
    /\ (1 # 1000000000000 <= p -> (0 < n)%nat -> (k < n)%nat).
Proof.
  intros Hp Hn.
  destruct (percentile_factor p Hp) as [t [s [Ht [Hs [Bt [Bs [Et Es]]]]]]].
  unfold GroupingEngine.percentileIndex. rewrite Ht, Hs.
  set (N := inject_Z (Z.of_nat n)).
  assert (HN0 : 0 <= N).
  { unfold N. change 0 with (inject_Z 0). rewrite <- Zle_Qle. lia. }
  assert (HN : N <= 2 ^ 32).
  { unfold N. rewrite <- pow2_Z by lia. rewrite <- Zle_Qle. lia. }
  assert (Hx : 0 <= N * s <= N).
  { split; [apply Qmult_le_0_compat; lra|].
    setoid_replace N with (N * 1) at 2 by ring.
    apply Qmult_le_left; lra. }
  destruct (rounded_within (N * s) 0 (Z.of_nat n) 32) as [r [Hr [Br Er]]];
    try lia.
  { change (inject_Z 0) with 0. exact Hx. }
  { apply Qabs_case; intros; lra. }
  change (inject_Z 0) with 0 in Br. fold N in Br.
  change (Binary64.mul (of_nat n) (Fin s)) with (Binary64.round (N * s)).
  rewrite Hr. cbn [JS.floor].
  assert (F0 : (0 <= Qfloor r)%Z).
  { change 0%Z with (Qfloor 0). apply Qfloor_resp_le. lra. }
  assert (F1 : (Qfloor r <= Z.of_nat n)%Z).
  { rewrite <- (Qfloor_Z (Z.of_nat n)). apply Qfloor_resp_le. apply Br. }
  exists (Z.to_nat (Qfloor r)).
  split; [unfold of_nat; rewrite Z2Nat.id by exact F0; reflexivity|].
  split; [lia|].
  rewrite Z2Nat.id by exact F0.
  pose proof (Qfloor_le r) as R1. pose proof (Qlt_floor r) as R2.
  rewrite inject_Z_plus in R2. change (inject_Z 1) with 1 in R2.
  split.
  - (* the exact product *)
    set (v := N * (1 - p / 100)).
    pose proof (Qfloor_le v) as V1. pose proof (Qlt_floor v) as V2.
    rewrite inject_Z_plus in V2. change (inject_Z 1) with 1 in V2.
    assert (Ed : Qabs (N * s - v) <= 2 ^ (-20)).
    { unfold v.
      setoid_replace (N * s - N * (1 - p / 100))
        with (N * (s - (1 - p / 100))) by ring.
      rewrite Qabs_Qmult, (Qabs_pos N) by exact HN0.
      assert (D : Qabs (s - (1 - p / 100)) <= 2 ^ (-52)).
      { setoid_replace (s - (1 - p / 100))
          with ((s - (1 - t)) - (t - p / 100)) by ring.
        revert Et Es.
        change (2 ^ (-53)) with (1 # 9007199254740992).
        change (2 ^ (-52)) with (1 # 4503599627370496).
        do 3 (apply Qabs_case; intros ?); intros; lra. }
      apply Qle_trans with (2 ^ 32 * 2 ^ (-52)); [|apply Qle_lteq; right; reflexivity].
      apply Qle_trans with (N * 2 ^ (-52)).
      - apply Qmult_le_left; [exact HN0 | exact D].
      - apply Qmult_le_compat_r; [exact HN | discriminate]. }
    assert (Close : - (1) < r - v < 1).
    { revert Er Ed.
      change (2 ^ (32 - 53)) with (1 # 2097152).
      change (2 ^ (-20)) with (1 # 1048576).
      do 2 (apply Qabs_case; intros ?); intros; split; lra. }
    destruct Close as [C1 C2].
    split.
    + assert (Q1 : inject_Z (Qfloor r) < inject_Z (Qfloor v + 1 + 1)).
      { rewrite !inject_Z_plus. change (inject_Z 1) with 1. lra. }
      rewrite <- Zlt_Qlt in Q1. lia.
    + assert (Q1 : inject_Z (Qfloor v) < inject_Z (Qfloor r + 1 + 1)).
      { rewrite !inject_Z_plus. change (inject_Z 1) with 1. lra. }
      rewrite <- Zlt_Qlt in Q1. lia.
  - intros Hlow Hpos.
    (* the factor is below 1 by [2^-47] at least *)
    assert (T : 1 # 140737488355328 <= t).
    { assert (L : 1 # 140737488355328 <= p / 100).
      { change (p / 100) with (p * (1 # 100)). lra. }
      pose proof (rounded_mono _ _ L) as M.
      change (Binary64.round (p / 100)) with (Binary64.div (Fin p) (Fin 100)) in M.
      rewrite Ht in M.
      replace (Binary64.round (1 # 140737488355328))
        with (Fin (1 # 140737488355328)) in M by (vm_compute; reflexivity).
      exact M. }
    assert (S1 : s <= 140737488355327 # 140737488355328).
    { assert (L : 1 - t <= 140737488355327 # 140737488355328) by lra.
      pose proof (rounded_mono _ _ L) as M.
      change (Binary64.round (1 - t)) with (Binary64.sub (Fin 1) (Fin t)) in M.
      rewrite Hs in M.
      replace (Binary64.round (140737488355327 # 140737488355328))
        with (Fin (140737488355327 # 140737488355328)) in M
        by (vm_compute; reflexivity).
      exact M. }
    destruct (of_nat_bounds n Hpos) as [L U]. fold N in L, U.
    set (j := Z.log2 (Z.of_nat n)) in *.
    assert (Hj : (0 <= j < 32)%Z).
    { split; [apply Z.log2_nonneg|].
      apply Z.log2_lt_pow2; lia. }
    destruct (round_error (N * s) (j + 1)) as [r' [Hr' [Er' _]]]; [lia| |].
    { apply Qabs_case; intros; lra. }
    assert (r' = r) by congruence. subst r'.
    assert (E2 : 2 ^ (j + 1 - 53) == 2 ^ j * (1 # 4503599627370496)).
    { replace (j + 1 - 53)%Z with (j + -52)%Z by lia. rewrite pow2_add.
      reflexivity. }
    rewrite E2 in Er'.
    assert (Hlt : r < N).
    { assert (X1 : N * s <= N * (140737488355327 # 140737488355328)).
      { apply Qmult_le_left; assumption. }
      assert (NP : 0 < N) by (apply Qlt_le_trans with (2 ^ j); [apply pow2_pos | exact L]).
      revert Er'. apply Qabs_case; intros; lra. }
    assert (Q1 : inject_Z (Qfloor r) < inject_Z (Z.of_nat n)).
    { fold N. lra. }
    rewrite <- Zlt_Qlt in Q1. lia.
Qed.

Lemma riseSols_length (tokens : list TokenInfo) :
  (length (GroupingEngine.riseSols tokens) <= length tokens)%nat.
Proof.
  rewrite (Permutation_length (riseSols_perm tokens)).
  eapply Nat.le_trans; [apply filter_length_le|]. rewrite length_map. lia.
Qed.

(** C1 fails as stated: with five rises 1, 2, 3, 4, 5 and a
    win-percentage of 80 the rank [floor (5 * (1 - 80 / 100))] is 1, which
    holds the rise 2, but the product of the doubles [5] and
    [1 - 80 / 100] lies just below 1 and the estimator returns the rise at
    rank 0. *)
Lemma rank_of_five_at_80 :
  GroupingEngine.riseSols five_rises = [Fin 1; Fin 2; Fin 3; Fin 4; Fin 5]
  /\ Qfloor (inject_Z (Z.of_nat 5) * (1 - 80 / 100)) = 1%Z
  /\ nth_error (GroupingEngine.riseSols five_rises) 1 = Some (Fin 2)
  /\ GroupingEngine.percentileIndex 5 (Fin 80) = Fin 0
  /\ GroupingEngine.commonRiseSol five_rises (Fin 80) = Some (Fin 1)
  /\ (exists g,
         GroupingEngine.fetchProfitableTokenGroupsWithMigration
           by_pattern (win_percent (Fin 80)) five_rises = Ok [g]
         /\ Stats.commonRiseSol g = Fin 1)
  /\ GroupingEngine.commonRiseSol five_rises (Fin 80)
     <> nth_error (GroupingEngine.riseSols five_rises)
                  (Z.to_nat (Qfloor (inject_Z (Z.of_nat 5) * (1 - 80 / 100)))).
Proof.
  split; [vm_compute; reflexivity|].
  split; [vm_compute; reflexivity|].
  split; [vm_compute; reflexivity|].
  split; [vm_compute; reflexivity|].
  split; [vm_compute; reflexivity|].
  split; [eexists; split; vm_compute; reflexivity|].
  vm_compute. discriminate.
Qed.

(** C1, amended.  The percentile estimator sorts the rises of a group
    that are not NaN (infinite ones included) in ascending order and, for
    a win-percentage [p] in [0, 100], reads the element at the 0-indexed
    rank [Math.floor(n * (1 - p / 100))] computed on doubles.  That rank
    is the floor of the exact product or one of its two neighbours; it is
    at most [n], and a position of the array as soon as [p] is [10^-12]
    or more.  With no rise the estimate is 0; the group reports the
    estimate rounded to 4 decimals; an absent [winPercent] acts as 70;
    and on scenario A (rises 0.2, 0.4, 1.9, 2.1, 3.8, 6.5, no
    [winPercent] given) the common rise is 0.4.  An infinite rise takes
    part: of the rises 1 and +Infinity the estimate at 50 is +Infinity. *)
Theorem percentile_estimator_on_doubles :
  (forall (tokens : list TokenInfo) (p : Q),
      0 <= p <= 100 ->
      (Z.of_nat (length tokens) < 2 ^ 32)%Z ->
      let rs := GroupingEngine.riseSols tokens in
      StronglySorted num_le rs
      /\ Permutation rs (filter (fun rise => negb (JS.isNaN rise))
                                (map GroupingEngine.riseSol tokens))
      /\ (rs = [] ->
          GroupingEngine.commonRiseSol tokens (Fin p) = Some (Fin 0))
      /\ (exists k : nat,
             GroupingEngine.percentileIndex (length rs) (Fin p) = of_nat k
             /\ (k <= length rs)%nat
             /\ (Z.of_nat k - 1
                 <= Qfloor (inject_Z (Z.of_nat (length rs)) * (1 - p / 100))
                 <= Z.of_nat k + 1)%Z
             /\ (rs <> [] ->
                 GroupingEngine.commonRiseSol tokens (Fin p) = nth_error rs k)
             /\ (rs <> [] -> 1 # 1000000000000 <= p -> (k < length rs)%nat))
      /\ (forall r : Row.t,
             Stats.commonRiseSol (GroupingEngine.stats (Fin p) r)
             = GroupingEngine.round_to 10000
                 (JS.to_number
                    (GroupingEngine.commonRiseSol (Row.tokens r) (Fin p)))))
  /\ (forall (c : Criteria.t) (filters : Filters.t)
             (collection : list TokenInfo),
         Filters.winPercent filters = None ->
         GroupingEngine.fetchProfitableTokenGroupsWithMigration
           c filters collection
         = GroupingEngine.fetchProfitableTokenGroupsWithMigration
             c (with_winPercent (Fin 70) filters) collection)
  /\ (GroupingEngine.riseSols scenario_A
      = map literal [2 # 10; 4 # 10; 19 # 10; 21 # 10; 38 # 10; 65 # 10]
      /\ GroupingEngine.commonRiseSol scenario_A (Fin 70)
         = Some (literal (4 # 10))
      /\ exists g : Stats.t,
           GroupingEngine.fetchProfitableTokenGroupsWithMigration
             by_pattern Filters.empty scenario_A = Ok [g]
           /\ Stats.commonRiseSol g = literal (4 # 10))
  /\ (GroupingEngine.riseSols infinite_rise = [Fin 1; PInf]
      /\ GroupingEngine.commonRiseSol infinite_rise (Fin 50) = Some PInf).
Proof.
  split; [|split; [|split]].
  - intros tokens p Hp Hlen rs.
    split; [apply riseSols_sorted|].
    split; [apply riseSols_perm|].
    unfold GroupingEngine.commonRiseSol. fold rs.
    split; [intros ->; reflexivity|].
    split; [|intro r; reflexivity].
    assert (Hn : (Z.of_nat (length rs) < 2 ^ 32)%Z).
    { pose proof (riseSols_length tokens). fold rs in H. lia. }
    destruct (percentileIndex_rank (length rs) p Hp Hn) as [k [Hk [Hle [Hfl Hin]]]].
    exists k. split; [exact Hk|]. split; [exact Hle|]. split; [exact Hfl|].
    split.
    + intro Hne.
      assert (Hpos : (0 <? length rs)%nat = true).
      { apply Nat.ltb_lt. destruct rs; [contradiction | simpl; lia]. }
      rewrite Hpos, Hk. apply index_of_nat.
    + intros Hne Hlow. apply Hin; [exact Hlow|].
      destruct rs; [contradiction | simpl; lia].
  - intros c filters collection Hnone.
    unfold GroupingEngine.fetchProfitableTokenGroupsWithMigration.
    rewrite Hnone. reflexivity.
  - split; [vm_compute; reflexivity|].
    split; [vm_compute; reflexivity|].
    eexists. split; vm_compute; reflexivity.
  - split; vm_compute; reflexivity.
Qed.

Lemma percentile_estimator_on_doubles_witness :
  0 <= 70 <= 100
  /\ (Z.of_nat (length scenario_A) < 2 ^ 32)%Z
  /\ exists k : nat,
       GroupingEngine.percentileIndex
         (length (GroupingEngine.riseSols scenario_A)) (Fin 70) = of_nat k
       /\ (k <= length (GroupingEngine.riseSols scenario_A))%nat.
Proof.
  assert (Hp : 0 <= 70 <= 100) by (split; discriminate).
  assert (Hn : (Z.of_nat (length scenario_A) < 2 ^ 32)%Z) by reflexivity.
  split; [exact Hp|]. split; [exact Hn|].
  destruct (proj1 (proj2 (proj2 (proj2
             (proj1 percentile_estimator_on_doubles scenario_A 70 Hp Hn)))))
    as [k [Hk [Hle _]]].
  exists k. split; assumption.
Defined.

(** ** The aggregation of the grouping engine *)

Lemma sum_migrated_count (members : list TokenInfo) :
  GroupingEngine.sum_migrated members = length (filter migrated members).
Proof.
  unfold GroupingEngine.sum_migrated.
  assert (Hgen : forall acc,
             fold_left (fun acc t => (acc + (if migrated t then 1 else 0))%nat)
                       members acc
             = (acc + length (filter migrated members))%nat).
  { induction members as [|t members IH]; intros acc; simpl.
    - lia.
    - rewrite IH. destruct (migrated t); simpl; lia. }
  apply (Hgen 0%nat).
Qed.

Lemma of_nat_nonzero (n : nat) :
  n <> 0%nat -> Qeq_bool (inject_Z (Z.of_nat n)) 0 = false.
Proof.
  intro Hn. destruct (Qeq_bool (inject_Z (Z.of_nat n)) 0) eqn:E; [|reflexivity].
  apply Qeq_bool_iff in E. unfold Qeq in E. simpl in E. exfalso. lia.
Qed.

(** Dividing two counts succeeds as soon as the divisor is not 0. *)
Lemma divide_counts (m n : nat) :
  n <> 0%nat ->
  Mongo.divide (of_nat m) (of_nat n)
  = Ok (Fin (inject_Z (Z.of_nat m) / inject_Z (Z.of_nat n))).
Proof.
  intro Hn. unfold Mongo.divide, of_nat, num_div.
  rewrite (of_nat_nonzero n Hn). reflexivity.
Qed.

Lemma ratio_of_counts (m n : nat) :
  n <> 0%nat ->
  num_div (of_nat m) (of_nat n)
  = Fin (inject_Z (Z.of_nat m) / inject_Z (Z.of_nat n)).
Proof.
  intro Hn. unfold num_div, of_nat. rewrite (of_nat_nonzero n Hn). reflexivity.
Qed.

Lemma project_row (id : GroupId.t) (members : list TokenInfo) :
  members <> [] ->
  exists r, GroupingEngine.project (id, members) = Ok r
            /\ Row.groupIdentifier r = id
            /\ Row.tokens r = members
            /\ row_wf r.
Proof.
  intro Hne. unfold GroupingEngine.project.
  assert (Hn : length members <> 0%nat).
  { destruct members; [contradiction | discriminate]. }
  rewrite divide_counts by exact Hn.
  cbn [bind]. eexists. split; [reflexivity|].
  split; [reflexivity|]. split; [reflexivity|].
  unfold row_wf.
  cbn [Row.tokens Row.totalTokens Row.migratedTokens Row.migrationRate
       Row.profitableTokens].
  split; [exact Hne|]. split; [reflexivity|].
  split; [apply sum_migrated_count|]. split; [|reflexivity].
  unfold migration_rate, Binary64.div.
  rewrite ratio_of_counts by exact Hn. reflexivity.
Qed.

Lemma projected_rows (c : Criteria.t) (l : list TokenInfo) (rows : list Row.t) :
  mapM GroupingEngine.project (group_by (GroupingEngine.groupId c) GroupId.eqb l)
  = Ok rows ->
  Forall row_wf rows.
Proof.
  intro Hrows.
  assert (Hg : Forall (fun g => snd g <> [] /\ Forall (fun _ => True) (snd g))
                      (group_by (GroupingEngine.groupId c) GroupId.eqb l)).
  { apply group_by_members. apply Forall_forall. auto. }
  rewrite Forall_forall in Hg.
  eapply mapM_Ok_Forall; [|exact Hrows].
  intros [id members] r Hin Hr.
  destruct (Hg _ Hin) as [Hne _]. simpl in Hne.
  destruct (project_row id members Hne) as [r' [Hr' [_ [_ Hwf]]]].
  congruence.
Qed.

(** The aggregation never raises, and its rows are well formed. *)
Lemma aggregate_rows (c : Criteria.t) (filters : Filters.t)
      (collection : list TokenInfo) :
  exists rows,
    GroupingEngine.aggregate c filters collection = Ok rows
    /\ Forall row_wf rows.
Proof.
  unfold GroupingEngine.aggregate.
  set (groups := group_by _ _ _).
  assert (Hg : Forall (fun g => snd g <> [] /\ Forall (fun _ => True) (snd g)) groups).
  { apply group_by_members. apply Forall_forall. auto. }
  destruct (mapM_total GroupingEngine.project groups) as [rows Hrows].
  { eapply Forall_impl; [|exact Hg]. intros [id members] [Hne _].
    destruct (project_row id members Hne) as [r [Hr _]]. eauto. }
  rewrite Hrows. simpl. eexists. split; [reflexivity|].
  apply sort_by_Forall. eapply projected_rows. exact Hrows.
Qed.

Lemma fetch_rows (c : Criteria.t) (filters : Filters.t)
      (collection : list TokenInfo) :
  exists rows,
    GroupingEngine.aggregate c filters collection = Ok rows
    /\ Forall row_wf rows
    /\ GroupingEngine.fetchProfitableTokenGroupsWithMigration c filters collection
       = Ok (map (GroupingEngine.stats (default (Fin 70) (Filters.winPercent filters)))
                 rows).
Proof.
  destruct (aggregate_rows c filters collection) as [rows [Hagg Hwf]].
  exists rows. split; [exact Hagg|]. split; [exact Hwf|].
  unfold GroupingEngine.fetchProfitableTokenGroupsWithMigration.
  rewrite Hagg. reflexivity.
Qed.

(** ** Migration rate *)

Lemma migration_percent_range (m n : nat) :
  (m <= n)%nat -> n <> 0%nat -> 0 <= migration_percent m n <= 100.
Proof.
  intros Hmn Hn. unfold migration_percent.
  assert (Hn' : 0 < inject_Z (Z.of_nat n)).
  { change 0 with (inject_Z 0). rewrite <- Zlt_Qlt. lia. }
  assert (Hm0 : 0 <= inject_Z (Z.of_nat m)).
  { change 0 with (inject_Z 0). rewrite <- Zle_Qle. lia. }
  assert (Hm1 : inject_Z (Z.of_nat m) <= inject_Z (Z.of_nat n)).
  { rewrite <- Zle_Qle. lia. }
  assert (Hlo : 0 <= inject_Z (Z.of_nat m) / inject_Z (Z.of_nat n)).
  { apply Qle_shift_div_l; [exact Hn' | lra]. }
  assert (Hhi : inject_Z (Z.of_nat m) / inject_Z (Z.of_nat n) <= 1).
  { apply Qle_shift_div_r; [exact Hn' | lra]. }
  split; lra.
Qed.

Lemma JS_round_mono (a b : number) :
  num_le a b -> num_le (JS.round a) (JS.round b).
Proof.
  destruct a as [x| | |], b as [y| | |]; cbn [JS.round num_le]; auto.
  intro H. rewrite <- Zle_Qle. apply Qfloor_resp_le. lra.
Qed.

Lemma div_mono (s : Q) (a b : number) :
  0 < s -> num_le a b ->
  num_le (Binary64.div a (Fin s)) (Binary64.div b (Fin s)).
Proof.
  intros Hs H. unfold Binary64.div. apply rounded_number_mono.
  assert (E : Qeq_bool s 0 = false).
  { destruct (Qeq_bool s 0) eqn:E; [|reflexivity].
    apply Qeq_bool_iff in E. exfalso. lra. }
  assert (P : Qle_bool 0 s = true) by (apply Qle_bool_iff; lra).
  destruct a as [x| | |], b as [y| | |]; simpl in *;
    rewrite ?E, ?P; simpl; try contradiction; auto.
  apply Qmult_le_compat_r; [exact H|].
  apply Qlt_le_weak, Qinv_lt_0_compat, Hs.
Qed.

(** Rounding to a number of decimals is monotone. *)
Lemma round_to_mono (s a b : Q) :
  0 < s -> a <= b ->
  num_le (GroupingEngine.round_to s (Fin a)) (GroupingEngine.round_to s (Fin b)).
Proof.
  intros Hs H. unfold GroupingEngine.round_to.
  apply div_mono; [exact Hs|]. apply JS_round_mono.
  apply rounded_mono. apply Qmult_le_compat_r; lra.
Qed.

(** [Math.round(q * 100) / 100] of a percentage: a percentage again, at
    most 0.00501 away. *)
Lemma round_to_100_value (q : Q) :
  0 <= q <= 100 ->
  exists r, GroupingEngine.round_to 100 (Fin q) = Fin r
            /\ 0 <= r <= 100
            /\ Qabs (r - q) <= 501 # 100000.
Proof.
  intros [H0 H1]. unfold GroupingEngine.round_to.
  change (Binary64.mul (Fin q) (Fin 100)) with (Binary64.round (q * 100)).
  destruct (rounded_within (q * 100) 0 10000 14) as [x [Hx [Bx Ex]]];
    try reflexivity; try lia.
  { change (inject_Z 0) with 0. change (inject_Z 10000) with 10000. split; lra. }
  { change (2 ^ 14) with 16384. apply Qabs_case; intros; lra. }
  change (inject_Z 0) with 0 in Bx. change (inject_Z 10000) with 10000 in Bx.
  change (2 ^ (14 - 53)) with (1 # 549755813888) in Ex.
  rewrite Hx. cbn [JS.round].
  set (k := Qfloor (x + (1 # 2))).
  pose proof (Qfloor_le (x + (1 # 2))) as K1.
  pose proof (Qlt_floor (x + (1 # 2))) as K2.
  rewrite inject_Z_plus in K2. change (inject_Z 1) with 1 in K2.
  fold k in K1, K2.
  assert (K0 : 0 <= inject_Z k).
  { change 0 with (inject_Z (Qfloor 0)). rewrite <- Zle_Qle.
    apply Qfloor_resp_le. lra. }
  assert (K3 : inject_Z k <= 10000).
  { change 10000 with (inject_Z (Qfloor 10000)). rewrite <- Zle_Qle.
    assert (L : (k <= Qfloor (10000 + (1 # 2)))%Z).
    { apply Qfloor_resp_le. lra. }
    exact L. }
  change (Binary64.div (Fin (inject_Z k)) (Fin 100))
    with (Binary64.round (inject_Z k / 100)).
  assert (D : inject_Z k / 100 == inject_Z k * (1 # 100)) by reflexivity.
  destruct (rounded_within (inject_Z k / 100) 0 100 7) as [r [Hr [Br Er]]];
    try reflexivity; try lia.
  { change (inject_Z 0) with 0. change (inject_Z 100) with 100.
    rewrite D. split; lra. }
  { change (2 ^ 7) with 128. rewrite D. apply Qabs_case; intros; lra. }
  change (inject_Z 0) with 0 in Br. change (inject_Z 100) with 100 in Br.
  change (2 ^ (7 - 53)) with (1 # 70368744177664) in Er.
  exists r. split; [exact Hr|]. split; [exact Br|].
  revert Er Ex. rewrite D.
  do 3 (apply Qabs_case; intros ?); intros; lra.
Qed.

(** The unrounded rate of a group: a percentage at most [2^-45] away from
    the exact share. *)
Lemma migration_rate_value (m n : nat) :
  (m <= n)%nat -> n <> 0%nat ->
  exists q, migration_rate m n = Fin q
            /\ 0 <= q <= 100
            /\ Qabs (q - migration_percent m n) <= 1 # 35184372088832.
Proof.
  intros Hmn Hn. unfold migration_rate, Binary64.div.
  rewrite ratio_of_counts by exact Hn. cbn [Binary64.rounded].
  set (e := inject_Z (Z.of_nat m) / inject_Z (Z.of_nat n)).
  assert (He : 0 <= e <= 1).
  { pose proof (migration_percent_range m n Hmn Hn) as R.
    unfold migration_percent in R. fold e in R. split; lra. }
  destruct (rounded_within e 0 1 0) as [a [Ha [Ba Ea]]];
    try reflexivity; try lia.
  { exact He. }
  { change (2 ^ 0) with 1. apply Qabs_case; intros; lra. }
  change (inject_Z 0) with 0 in Ba. change (inject_Z 1) with 1 in Ba.
  change (2 ^ (0 - 53)) with (1 # 9007199254740992) in Ea.
  rewrite Ha.
  change (Binary64.mul (Fin a) (Fin 100)) with (Binary64.round (a * 100)).
  destruct (rounded_within (a * 100) 0 100 7) as [q [Hq [Bq Eq]]];
    try reflexivity; try lia.
  { change (inject_Z 0) with 0. change (inject_Z 100) with 100. split; lra. }
  { change (2 ^ 7) with 128. apply Qabs_case; intros; lra. }
  change (inject_Z 0) with 0 in Bq. change (inject_Z 100) with 100 in Bq.
  change (2 ^ (7 - 53)) with (1 # 70368744177664) in Eq.
  exists q. split; [exact Hq|]. split; [exact Bq|].
  unfold migration_percent. fold e.
  revert Ea Eq. do 3 (apply Qabs_case; intros ?); intros; lra.
Qed.

(** The rate a group reports. *)
Lemma reported_rate_value (m n : nat) :
  (m <= n)%nat -> n <> 0%nat ->
  exists q, GroupingEngine.round_to 100 (migration_rate m n) = Fin q
            /\ 0 <= q <= 100
            /\ Qabs (q - migration_percent m n) <= 51 # 10000.
Proof.
  intros Hmn Hn.
  destruct (migration_rate_value m n Hmn Hn) as [u [Hu [Bu Eu]]].
  rewrite Hu.
  destruct (round_to_100_value u Bu) as [q [Hq [Bq Eq]]].
  exists q. split; [exact Hq|]. split; [exact Bq|].
  revert Eu Eq. do 3 (apply Qabs_case; intros ?); intros; lra.
Qed.

Lemma filter_length_le {A : Type} (f : A -> bool) (l : list A) :
  (length (filter f l) <= length l)%nat.
Proof.
  induction l as [|x l IH]; simpl; [lia|]. destruct (f x); simpl; lia.
Qed.

Lemma members_migrated (tokens : list TokenInfo) :
  filter Member.migrated (map GroupingEngine.member tokens)
  = map GroupingEngine.member (filter migrated tokens).
Proof.
  induction tokens as [|t tokens IH]; simpl; [reflexivity|].
  destruct (migrated t); simpl; rewrite IH; reflexivity.
Qed.

(** C3 fails as stated: of 160 members 23 migrated, a share of 14.375%
    that rounds to 14.38, but the product of the doubles is
    14.374999999999998 and the group reports 14.37. *)
Lemma half_way_rate_is_rounded_down :
  exists g,
    GroupingEngine.fetchProfitableTokenGroupsWithMigration
      by_pattern Filters.empty rate_14_375 = Ok [g]
    /\ Stats.migratedTokens g = 23%nat
    /\ Stats.totalTokens g = 160%nat
    /\ migration_percent 23 160 == 14375 # 1000
    /\ round2 (migration_percent 23 160) == 1438 # 100
    /\ Stats.migrationRate g = literal (1437 # 100)
    /\ Stats.migrationRate g <> literal (1438 # 100)
    /\ ~ num_eq (Stats.migrationRate g)
                (Fin (round2 (migration_percent (Stats.migratedTokens g)
                                                (Stats.totalTokens g)))).
Proof.
  eexists. split; [vm_compute; reflexivity|].
  split; [reflexivity|]. split; [reflexivity|].
  split; [vm_compute; reflexivity|].
  split; [vm_compute; reflexivity|].
  split; [vm_compute; reflexivity|].
  split; [vm_compute; discriminate|].
  vm_compute. discriminate.
Qed.

(** C3, amended.  Every group the grouping engine returns has a migration
    rate of [migratedTokens / totalTokens * 100] computed on doubles and
    rounded to 2 decimals by [Math.round(x * 100) / 100], again on
    doubles: a number between 0 and 100 that is less than 0.0051 away
    from the exact share of migrated members.  [migratedTokens] is the
    number of members whose [migrated] flag is set and [totalTokens] the
    number of members; 4 migrated members out of 6 give 66.67, as
    scenario A shows. *)
Theorem migration_rate_on_doubles :
  (forall (c : Criteria.t) (filters : Filters.t) (collection : list TokenInfo),
    exists groups,
      GroupingEngine.fetchProfitableTokenGroupsWithMigration c filters collection
      = Ok groups
      /\ Forall (fun g =>
                   Stats.migrationRate g
                   = GroupingEngine.round_to 100
                       (migration_rate (Stats.migratedTokens g)
                                       (Stats.totalTokens g))
                   /\ (exists q,
                          Stats.migrationRate g = Fin q
                          /\ 0 <= q <= 100
                          /\ Qabs (q - migration_percent
                                         (Stats.migratedTokens g)
                                         (Stats.totalTokens g))
                             <= 51 # 10000)
                   /\ Stats.migratedTokens g
                      = length (filter Member.migrated (Stats.tokens g))
                   /\ Stats.totalTokens g = length (Stats.tokens g))
                groups)
  /\ GroupingEngine.round_to 100 (migration_rate 4 6) = literal (6667 # 100)
  /\ (exists g,
         GroupingEngine.fetchProfitableTokenGroupsWithMigration
           by_pattern Filters.empty scenario_A = Ok [g]
         /\ Stats.totalTokens g = 6%nat
         /\ Stats.migratedTokens g = 4%nat
         /\ Stats.migrationRate g = literal (6667 # 100)).
Proof.
  split; [|split].
  - intros c filters collection.
    destruct (fetch_rows c filters collection) as [rows [_ [Hwf Hfetch]]].
    eexists. split; [exact Hfetch|].
    apply Forall_map. eapply Forall_impl; [|exact Hwf].
    intros r [Hne [Htot [Hmig [Hrate Hprof]]]].
    cbn [GroupingEngine.stats Stats.migrationRate Stats.migratedTokens
         Stats.totalTokens Stats.tokens].
    rewrite Hrate.
    assert (Hle : (Row.migratedTokens r <= Row.totalTokens r)%nat).
    { rewrite Hmig, Htot. apply filter_length_le. }
    assert (Hnz : Row.totalTokens r <> 0%nat).
    { rewrite Htot. destruct (Row.tokens r); [contradiction | discriminate]. }
    split; [reflexivity|].
    split; [apply reported_rate_value; assumption|].
    split.
    + rewrite members_migrated, length_map. exact Hmig.
    + rewrite length_map. exact Htot.
  - vm_compute. reflexivity.
  - eexists. split; [vm_compute; reflexivity|].
    split; [reflexivity|]. split; [reflexivity|]. vm_compute. reflexivity.
Qed.

(** C9.  Whatever the criteria and the filters (a minimum [maxSol]
    included), [profitableTokens] of every returned group equals its
    [totalTokens]: the count is not narrowed to members above a profit
    floor. *)
Theorem profitable_tokens_is_total :
  forall (c : Criteria.t) (filters : Filters.t) (collection : list TokenInfo),
  exists groups,
    GroupingEngine.fetchProfitableTokenGroupsWithMigration c filters collection
    = Ok groups
    /\ Forall (fun g => Stats.profitableTokens g = Stats.totalTokens g
                        /\ Stats.profitableTokens g = length (Stats.tokens g))
              groups.
Proof.
  intros c filters collection.
  destruct (fetch_rows c filters collection) as [rows [_ [Hwf Hfetch]]].
  eexists. split; [exact Hfetch|].
  apply Forall_map. eapply Forall_impl; [|exact Hwf].
  intros r [_ [Htot [_ [_ Hprof]]]]. simpl.
  split; [exact Hprof|]. rewrite length_map. congruence.
Qed.

(** ** Ranking of the returned groups *)

Lemma row_counts (r : Row.t) :
  row_wf r ->
  (Row.migratedTokens r <= Row.totalTokens r)%nat
  /\ Row.totalTokens r <> 0%nat.
Proof.
  intros [Hne [Htot [Hmig _]]]. split.
  - rewrite Hmig, Htot. apply filter_length_le.
  - rewrite Htot. destruct (Row.tokens r); [contradiction | discriminate].
Qed.

Lemma row_rate_finite (r : Row.t) :
  row_wf r -> exists q, Row.migrationRate r = Fin q /\ 0 <= q <= 100.
Proof.
  intro Hwf. destruct (row_counts r Hwf) as [Hle Hnz].
  destruct Hwf as [_ [_ [_ [Hrate _]]]].
  destruct (migration_rate_value _ _ Hle Hnz) as [q [Hq [Bq _]]].
  exists q. split; [congruence | exact Bq].
Qed.

(** Equal shares of migrated members give the same unrounded rate. *)
Lemma migration_rate_Qeq (m1 n1 m2 n2 : nat) :
  n1 <> 0%nat -> n2 <> 0%nat ->
  migration_percent m1 n1 == migration_percent m2 n2 ->
  migration_rate m1 n1 = migration_rate m2 n2.
Proof.
  intros H1 H2 E. unfold migration_rate, Binary64.div.
  rewrite !ratio_of_counts by assumption. cbn [Binary64.rounded].
  rewrite (round_Qeq (inject_Z (Z.of_nat m1) / inject_Z (Z.of_nat n1))
                     (inject_Z (Z.of_nat m2) / inject_Z (Z.of_nat n2))).
  - reflexivity.
  - unfold migration_percent in E. lra.
Qed.

Lemma sort_before_spec (a b : Row.t) (qa qb : Q) :
  Row.migrationRate a = Fin qa -> Row.migrationRate b = Fin qb ->
  (GroupingEngine.sort_before a b = true
   <-> qb < qa \/ (qa == qb /\ (Row.totalTokens b <= Row.totalTokens a)%nat)).
Proof.
  intros Ha Hb. unfold GroupingEngine.sort_before. rewrite Ha, Hb. simpl.
  destruct (qa ?= qb) eqn:E.
  - apply Qeq_alt in E. rewrite Nat.leb_le. split.
    + intro H. right. split; assumption.
    + intros [H|[_ H]]; [lra | exact H].
  - apply Qlt_alt in E. split; [discriminate|].
    intros [H|[H _]]; lra.
  - apply Qgt_alt in E. split; [intros _; left; exact E | reflexivity].
Qed.

Lemma rows_sorted (c : Criteria.t) (filters : Filters.t)
      (collection : list TokenInfo) (rows : list Row.t) :
  GroupingEngine.aggregate c filters collection = Ok rows ->
  StronglySorted (fun a b => GroupingEngine.sort_before a b = true) rows.
Proof.
  intro Hagg. unfold GroupingEngine.aggregate in Hagg.
  set (groups := group_by _ _ _) in Hagg.
  destruct (mapM GroupingEngine.project groups) as [rows0|e] eqn:Hrows;
    simpl in Hagg; [|discriminate].
  inversion Hagg; subst rows.
  apply (sort_by_sorted GroupingEngine.sort_before
           (fun r => exists q, Row.migrationRate r = Fin q)).
  - intros a b [qa Ha] [qb Hb].
    rewrite (sort_before_spec a b qa qb Ha Hb),
            (sort_before_spec b a qb qa Hb Ha).
    destruct (Q_dec qa qb) as [[H|H]|H]; [right; left; exact H | left; left; exact H|].
    destruct (Nat.le_ge_cases (Row.totalTokens a) (Row.totalTokens b)).
    + right. right. split; [symmetry; exact H | assumption].
    + left. right. split; assumption.
  - intros a b d [qa Ha] [qb Hb] [qd Hd].
    rewrite (sort_before_spec a b qa qb Ha Hb),
            (sort_before_spec b d qb qd Hb Hd),
            (sort_before_spec a d qa qd Ha Hd).
    intros [H1|[H1 L1]] [H2|[H2 L2]].
    + left; lra.
    + left; lra.
    + left; lra.
    + right. split; [lra | lia].
  - eapply Forall_impl; [|eapply projected_rows; exact Hrows].
    intros r Hr. destruct (row_rate_finite r Hr) as [q [Hq _]].
    eexists; exact Hq.
Qed.

Lemma StronglySorted_map {A B : Type} (f : A -> B) (R : B -> B -> Prop)
      (l : list A) :
  StronglySorted (fun a b => R (f a) (f b)) l -> StronglySorted R (map f l).
Proof.
  induction 1 as [|x l Hs IH Hx]; simpl; constructor.
  - exact IH.
  - apply Forall_map. exact Hx.
Qed.

Lemma StronglySorted_filter {A : Type} (R : A -> A -> Prop) (f : A -> bool)
      (l : list A) :
  StronglySorted R l -> StronglySorted R (filter f l).
Proof.
  induction 1 as [|x l Hs IH Hx]; simpl; [constructor|].
  destruct (f x); [|exact IH].
  constructor; [exact IH|].
  rewrite Forall_forall in *. intros y Hy. apply filter_In in Hy. apply Hx, Hy.
Qed.

Lemma StronglySorted_firstn {A : Type} (R : A -> A -> Prop) (n : nat)
      (l : list A) :
  StronglySorted R l -> StronglySorted R (firstn n l).
Proof.
  intro Hs. revert n. induction Hs as [|x l Hs IH Hx]; intros [|n]; simpl;
    try constructor.
  - apply IH.
  - rewrite Forall_forall in *. intros y Hy. apply Hx.
    rewrite <- (firstn_skipn n l). apply in_or_app. left. exact Hy.
Qed.

(** [slice(0, limit)] keeps a prefix, whatever the limit. *)
Lemma slice0_prefix {A : Type} (arr : list A) (limit : number) :
  exists m, JS.slice0 arr limit = firstn m arr.
Proof.
  destruct limit as [q| | |]; simpl.
  - destruct (_ <? 0)%Z; eexists; reflexivity.
  - exists (length arr). symmetry. apply firstn_all.
  - exists 0%nat. reflexivity.
  - exists 0%nat. reflexivity.
Qed.

Lemma slice0_count {A : Type} (arr : list A) (k : nat) :
  JS.slice0 arr (of_nat k) = firstn k arr.
Proof.
  unfold JS.slice0, of_nat.
  assert (H0 : Qle_bool 0 (inject_Z (Z.of_nat k)) = true).
  { apply Qle_bool_iff. change 0 with (inject_Z 0). rewrite <- Zle_Qle. lia. }
  rewrite H0, Qfloor_Z.
  destruct (Z.of_nat k <? 0)%Z eqn:E; [apply Z.ltb_lt in E; lia|].
  rewrite Nat2Z.id. reflexivity.
Qed.

Lemma stats_ranked (wp : number) (a b : Row.t) :
  row_wf a -> row_wf b -> GroupingEngine.sort_before a b = true ->
  ranks_before (GroupingEngine.stats wp a) (GroupingEngine.stats wp b).
Proof.
  intros Wa Wb Hab.
  destruct (row_rate_finite a Wa) as [qa [Ha _]].
  destruct (row_rate_finite b Wb) as [qb [Hb _]].
  apply (sort_before_spec a b _ _ Ha Hb) in Hab.
  unfold ranks_before.
  cbn [GroupingEngine.stats Stats.migrationRate Stats.migratedTokens
       Stats.totalTokens].
  rewrite Ha, Hb. split.
  - apply round_to_mono; [reflexivity|]. destruct Hab as [H|[H _]]; lra.
  - intro Heq. destruct Hab as [H|[_ H]]; [|exact H].
    exfalso.
    destruct (row_counts a Wa) as [_ Na]. destruct (row_counts b Wb) as [_ Nb].
    destruct Wa as [_ [_ [_ [Ra _]]]]. destruct Wb as [_ [_ [_ [Rb _]]]].
    pose proof (migration_rate_Qeq _ _ _ _ Na Nb Heq) as E.
    rewrite <- Ra, <- Rb, Ha, Hb in E. inversion E; subst. lra.
Qed.

Lemma fetch_ranked (c : Criteria.t) (filters : Filters.t)
      (collection : list TokenInfo) :
  exists groups,
    GroupingEngine.fetchProfitableTokenGroupsWithMigration c filters collection
    = Ok groups
    /\ StronglySorted ranks_before groups.
Proof.
  destruct (fetch_rows c filters collection) as [rows [Hagg [Hwf Hfetch]]].
  eexists. split; [exact Hfetch|].
  apply StronglySorted_map.
  apply (StronglySorted_weaken row_wf
           (fun a b => GroupingEngine.sort_before a b = true)).
  - intros a b Ha Hb. apply stats_ranked; assumption.
  - exact Hwf.
  - eapply rows_sorted. exact Hagg.
Qed.

(** C10 (amended).  The returned groups are sorted by migration rate in
    non-increasing order; among groups whose unrounded rates
    [migratedTokens / totalTokens] are equal, by [totalTokens] in
    non-increasing order.  [getTopMigratingGroups] returns a prefix of
    the groups with at least 2 members (the first [k] of them for a
    limit [k]), so its result is sorted in the same way. *)
Theorem groups_ranked :
  forall (c : Criteria.t) (filters : Filters.t) (collection : list TokenInfo),
  exists groups,
    GroupingEngine.fetchProfitableTokenGroupsWithMigration c filters collection
    = Ok groups
    /\ StronglySorted ranks_before groups
    /\ (forall limit : option number,
         exists top,
           GroupingEngine.getTopMigratingGroups c filters limit collection = Ok top
           /\ (exists m,
                  top = firstn m (filter (fun g => (2 <=? Stats.totalTokens g)%nat)
                                         groups))
           /\ StronglySorted ranks_before top
           /\ Forall (fun g => (2 <= Stats.totalTokens g)%nat) top)
    /\ (forall k : nat,
         GroupingEngine.getTopMigratingGroups c filters (Some (of_nat k)) collection
         = Ok (firstn k (filter (fun g => (2 <=? Stats.totalTokens g)%nat) groups))).
Proof.
  intros c filters collection.
  destruct (fetch_ranked c filters collection) as [groups [Hfetch Hsorted]].
  exists groups. split; [exact Hfetch|]. split; [exact Hsorted|].
  unfold GroupingEngine.getTopMigratingGroups. rewrite Hfetch. unfold bind.
  split.
  - intro limit.
    destruct (slice0_prefix
                (filter (fun g => (2 <=? Stats.totalTokens g)%nat) groups)
                (default (Fin 10) limit)) as [m Hm].
    eexists. split; [reflexivity|]. rewrite Hm.
    split; [exists m; reflexivity|].
    split.
    + apply StronglySorted_firstn, StronglySorted_filter, Hsorted.
    + apply Forall_forall. intros g Hg.
      assert (Hin : In g (filter (fun g => (2 <=? Stats.totalTokens g)%nat) groups)).
      { rewrite <- (firstn_skipn m (filter _ groups)).
        apply in_or_app. left. exact Hg. }
      apply filter_In in Hin. destruct Hin as [_ Hin].
      apply Nat.leb_le. exact Hin.
  - intro k. unfold default. rewrite slice0_count. reflexivity.
Qed.

(** C10 fails as stated: two returned groups tie on the (rounded)
    migration rate 45.05 while the smaller group comes first. *)
Lemma rounding_ties_break_the_order :
  exists g1 g2,
    GroupingEngine.fetchProfitableTokenGroupsWithMigration
      by_pattern Filters.empty rounding_ties = Ok [g1; g2]
    /\ Stats.migrationRate g1
       = GroupingEngine.round_to 100 (migration_rate 41 91)
    /\ Stats.migrationRate g2
       = GroupingEngine.round_to 100 (migration_rate 50 111)
    /\ num_eq (Stats.migrationRate g1) (literal (4505 # 100))
    /\ num_eq (Stats.migrationRate g2) (literal (4505 # 100))
    /\ Stats.totalTokens g1 = 91%nat
    /\ Stats.totalTokens g2 = 111%nat
    /\ ~ (num_eq (Stats.migrationRate g1) (Stats.migrationRate g2) ->
          (Stats.totalTokens g2 <= Stats.totalTokens g1)%nat).
Proof.
  eexists. eexists. split; [vm_compute; reflexivity|].
  split; [vm_compute; reflexivity|].
  split; [vm_compute; reflexivity|].
  split; [vm_compute; reflexivity|].
  split; [vm_compute; reflexivity|].
  split; [reflexivity|]. split; [reflexivity|].
  intro H. assert (Hle : (111 <= 91)%nat).
  { apply H. vm_compute. reflexivity. }
  lia.
Qed.

(** ** Configurations the engine accepts *)

Lemma sort_by_singleton {A : Type} (leb : A -> A -> bool) (x : A) :
  sort_by leb [x] = [x].
Proof. reflexivity. Qed.

(** With no dimension enabled the matched records form one group. *)
Lemma no_dimension_single_group (filters : Filters.t)
      (collection : list TokenInfo) :
  exists groups,
    GroupingEngine.fetchProfitableTokenGroupsWithMigration
      no_dimension filters collection = Ok groups
    /\ map Stats.tokens groups
       = match filter (GroupingEngine.matchQuery filters) collection with
         | [] => []
         | matched => [map GroupingEngine.member matched]
         end.
Proof.
  unfold GroupingEngine.fetchProfitableTokenGroupsWithMigration,
         GroupingEngine.aggregate.
  destruct (filter (GroupingEngine.matchQuery filters) collection)
    as [|t matched] eqn:Hm.
  - eexists. split; reflexivity.
  - rewrite (group_by_constant (GroupingEngine.groupId no_dimension) GroupId.eqb
               (GroupingEngine.groupId no_dimension t) (t :: matched));
      [|reflexivity|reflexivity|discriminate].
    destruct (project_row (GroupingEngine.groupId no_dimension t) (t :: matched))
      as [r [Hr [_ [Htok _]]]]; [discriminate|].
    unfold mapM. rewrite Hr. unfold bind. rewrite sort_by_singleton.
    eexists. split; [reflexivity|]. simpl. rewrite Htok. reflexivity.
Qed.

(** C7 (amended).  The engine validates nothing: for every grouping
    specification and every filter set, those with no enabled dimension
    or with a [winPercent] outside [0, 100] included, it raises no error
    and returns computed groups; with no dimension enabled, all matched
    records fall into one group. *)
Theorem no_input_validation :
  forall (c : Criteria.t) (filters : Filters.t) (collection : list TokenInfo),
    (exists groups,
        GroupingEngine.fetchProfitableTokenGroupsWithMigration c filters collection
        = Ok groups)
    /\ (exists groups,
           GroupingEngine.fetchProfitableTokenGroupsWithMigration
             no_dimension filters collection = Ok groups
           /\ map Stats.tokens groups
              = match filter (GroupingEngine.matchQuery filters) collection with
                | [] => []
                | matched => [map GroupingEngine.member matched]
                end).
Proof.
  intros c filters collection. split.
  - destruct (fetch_rows c filters collection) as [rows [_ [_ Hfetch]]].
    eexists. exact Hfetch.
  - apply no_dimension_single_group.
Qed.

(** C7 fails as stated: a configuration that is invalid on both counts
    (no dimension enabled, [winPercent = 150]) raises nothing and yields a
    computed group of the six records of scenario A. *)
Lemma invalid_configuration_is_accepted :
  invalid_configuration no_dimension win_percent_150
  /\ Filters.winPercent win_percent_150 = Some (Fin 150)
  /\ exists g,
       GroupingEngine.fetchProfitableTokenGroupsWithMigration
         no_dimension win_percent_150 scenario_A = Ok [g]
       /\ Stats.totalTokens g = 6%nat
       /\ Stats.migratedTokens g = 4%nat
       /\ num_eq (Stats.migrationRate g) (literal (6667 # 100)).
Proof.
  split; [left; reflexivity|]. split; [reflexivity|].
  eexists. split; [vm_compute; reflexivity|].
  split; [reflexivity|]. split; [reflexivity|]. vm_compute. reflexivity.
Qed.

(** What an out-of-range [winPercent] does instead of raising: at 150
    the rank of scenario A is negative, the read yields [undefined], and
    the group reports NaN as its common rise. *)
Lemma percentile_out_of_range :
  GroupingEngine.commonRiseSol scenario_A (Fin 150) = None
  /\ GroupingEngine.round_to 10000
       (JS.to_number (GroupingEngine.commonRiseSol scenario_A (Fin 150))) = NaN.
Proof. split; vm_compute; reflexivity. Qed.

(** ** Profit derivation *)






Lemma filter_partition_length {A : Type} (f : A -> bool) (l : list A) :
  (length (filter (fun x => negb (f x)) l) + length (filter f l) = length l)%nat.
Proof.
  induction l as [|x l IH]; simpl; [reflexivity|].
  destruct (f x); simpl; lia.
Qed.

Lemma accumulate_wf (id : GroupId.t) (members : list TokenInfo) :
  members <> [] -> group_wf (ThresholdSimulator.accumulate (id, members)).
Proof.
  intro Hne. unfold group_wf; simpl.
  split; [destruct members; [contradiction | discriminate]|].
  split; [rewrite length_map; reflexivity|].
  rewrite map_map. reflexivity.
Qed.

Lemma groups_wf (options : Options.t) (startDate : number)
      (collection : list TokenInfo) :
  Forall group_wf (ThresholdSimulator.groups options startDate collection).
Proof.
  unfold ThresholdSimulator.groups.
  apply Forall_forall. intros g Hg.
  apply filter_In in Hg. destruct Hg as [Hg _].
  apply in_map_iff in Hg. destruct Hg as [[id members] [<- Hin]].
  apply accumulate_wf.
  apply (group_by_nonempty _ _ _ _ Hin).
Qed.

(** The members of a group of the simulator passed its [$match] on the
    rise. *)
Lemma groups_rises (options : Options.t) (startDate : number)
      (collection : list TokenInfo) (g : Group.t) :
  In g (ThresholdSimulator.groups options startDate collection) ->
  Forall (fun token =>
            Mongo.match_gte (Sample.riseSol token)
                            (default (Fin 0) (Options.minRiseSol options)) = true)
         (Group.tokens g).
Proof.
  unfold ThresholdSimulator.groups. intro Hg.
  apply filter_In in Hg. destruct Hg as [Hg _].
  apply in_map_iff in Hg. destruct Hg as [[id members] [<- Hin]].
  simpl. apply Forall_map.
  match type of Hin with
  | In _ (group_by ?k ?e (filter ?f ?l)) =>
      assert (Hm : Forall (fun g => snd g <> []
                                    /\ Forall (fun t => f t = true) (snd g))
                          (group_by k e (filter f l)))
  end.
  { apply group_by_members. apply Forall_forall. intros t Ht.
    apply filter_In in Ht. apply Ht. }
  rewrite Forall_forall in Hm. destruct (Hm _ Hin) as [_ Hq]. exact Hq.
Qed.





(** ** The stages of the threshold simulator *)

Lemma mapM_pure {A B : Type} (f : A -> result B) (h : A -> B) (l : list A) :
  (forall a, In a l -> f a = Ok (h a)) -> mapM f l = Ok (map h l).
Proof.
  induction l as [|a l IH]; simpl; intro H; [reflexivity|].
  rewrite (H a) by (left; reflexivity). simpl.
  rewrite IH by (intros; apply H; right; assumption). reflexivity.
Qed.

Lemma score_total (n : nat) (a : Analysis.t) :
  n <> 0%nat -> ThresholdSimulator.score n a = Ok (score_of n a).
Proof.
  intro Hn. unfold ThresholdSimulator.score.
  rewrite divide_counts by exact Hn. reflexivity.
Qed.

(** The scores of a well-formed group are computed without error. *)
Lemma thresholdScores_total (g : Group.t) :
  group_wf g ->
  ThresholdSimulator.thresholdScores g
  = Ok (map (score_of (Group.totalTokens g)) (ThresholdSimulator.thresholdAnalysis g)).
Proof.
  intros [Hne [Htot _]]. unfold ThresholdSimulator.thresholdScores.
  apply mapM_pure. intros a _. apply score_total.
  rewrite Htot. destruct (Group.tokens g); [contradiction | discriminate].
Qed.

Lemma analysis_counts (threshold : number) (tokens : list Sample.t) :
  let a := ThresholdSimulator.analysis
             {| Simulation.threshold := threshold;
                Simulation.results :=
                  map (ThresholdSimulator.outcome threshold) tokens |} in
  Analysis.threshold a = threshold
  /\ Analysis.winCount a = wins_at threshold tokens
  /\ Analysis.lossCount a
     = length (filter (fun token =>
                         negb (Mongo.gte (Sample.riseSol token) threshold)) tokens)
  /\ Analysis.totalProfit a
     = Mongo.sum (map (fun token => member_profit threshold (Sample.riseSol token))
                      tokens)
  /\ Analysis.avgProfit a
     = Mongo.avg (map (fun token => member_profit threshold (Sample.riseSol token))
                      tokens).
Proof.
  simpl. unfold wins_at.
  assert (Hf : forall (p : bool -> bool),
             length (filter (fun r => p (Outcome.isWin r))
                            (map (ThresholdSimulator.outcome threshold) tokens))
             = length (filter (fun token =>
                                 p (Mongo.gte (Sample.riseSol token) threshold))
                              tokens)).
  { intro p. induction tokens as [|t tokens IH]; simpl; [reflexivity|].
    destruct (p (Mongo.gte (Sample.riseSol t) threshold)); simpl; rewrite IH;
      reflexivity. }
  split; [reflexivity|].
  split; [apply (Hf (fun b => b))|].
  split; [apply (Hf negb)|].
  rewrite map_map. split; reflexivity.
Qed.

Lemma thresholdAnalysis_map (g : Group.t) :
  ThresholdSimulator.thresholdAnalysis g
  = map (fun threshold =>
           ThresholdSimulator.analysis
             {| Simulation.threshold := threshold;
                Simulation.results :=
                  map (ThresholdSimulator.outcome threshold) (Group.tokens g) |})
        (ThresholdSimulator.thresholdCandidates g).
Proof.
  unfold ThresholdSimulator.thresholdAnalysis,
         ThresholdSimulator.thresholdSimulations.
  rewrite map_map. reflexivity.
Qed.

Lemma filter_length_mono {A : Type} (f g : A -> bool) (l : list A) :
  (forall x, f x = true -> g x = true) ->
  (length (filter f l) <= length (filter g l))%nat.
Proof.
  intro H. induction l as [|x l IH]; simpl; [lia|].
  destruct (f x) eqn:Ef.
  - rewrite (H x Ef). simpl. lia.
  - destruct (g x); simpl; lia.
Qed.

(** The higher the threshold, the fewer the wins. *)
Lemma wins_at_antitone (t1 t2 : number) (tokens : list Sample.t) :
  bson_le t1 t2 -> (wins_at t2 tokens <= wins_at t1 tokens)%nat.
Proof.
  intro H. apply filter_length_mono. intros x Hx.
  apply gte_bson_le. apply gte_bson_le in Hx.
  apply (bson_le_trans t1 t2 _ H Hx).
Qed.

Lemma wins_and_losses (t : number) (tokens : list Sample.t) :
  (wins_at t tokens
   + length (filter (fun token => negb (Mongo.gte (Sample.riseSol token) t)) tokens)
   = length tokens)%nat.
Proof.
  unfold wins_at.
  rewrite Nat.add_comm.
  apply (filter_partition_length (fun token => Mongo.gte (Sample.riseSol token) t)).
Qed.

(** Scaling a non-negative number by growing positive factors. *)
Lemma multiply_monotone (a : number) (m1 m2 : Q) :
  bson_le (Fin 0) a -> 0 < m1 -> m1 <= m2 ->
  bson_le (Mongo.multiply a (Fin m1)) (Mongo.multiply a (Fin m2)).
Proof.
  intros Ha Hm1 Hm12.
  destruct a as [x| | |]; unfold bson_le in *; simpl in *; try congruence.
  - rewrite <- Qle_alt in *.
    rewrite (Qmult_comm x m1), (Qmult_comm x m2).
    apply Qmult_le_compat_r; assumption.
  - unfold signed_inf.
    assert (H1 : (m1 ?= 0) = Gt) by (apply Qgt_alt; exact Hm1).
    assert (H2 : (m2 ?= 0) = Gt) by (apply Qgt_alt; lra).
    rewrite H1, H2. simpl. discriminate.
Qed.

(** With a non-negative average rise the ladder is ascending. *)
Lemma ladder_ascending (g : Group.t) :
  bson_le (Fin 0) (Group.avgRiseSol g) ->
  StronglySorted bson_le (ThresholdSimulator.thresholdCandidates g).
Proof.
  intro Ha. unfold ThresholdSimulator.thresholdCandidates,
                   ThresholdSimulator.multipliers. cbn [map].
  repeat first [apply SSorted_cons | apply SSorted_nil
               | apply Forall_cons | apply Forall_nil].
  all: apply multiply_monotone; [exact Ha | reflexivity | discriminate].
Qed.

Lemma gte_finite (r t : Q) : Mongo.gte (Fin r) (Fin t) = Qle_bool t r.
Proof.
  unfold Mongo.gte; simpl. destruct (r ?= t) eqn:E; symmetry.
  - apply Qle_bool_iff. apply Qeq_alt in E. lra.
  - apply Qle_bool_false. apply Qlt_alt in E. exact E.
  - apply Qle_bool_iff. apply Qgt_alt in E. lra.
Qed.


Lemma scores_of_group (g : Group.t) :
  group_wf g ->
  ThresholdSimulator.thresholdScores g
  = Ok (map (score_at g) (ThresholdSimulator.thresholdCandidates g)).
Proof.
  intro Hwf. rewrite (thresholdScores_total g Hwf), thresholdAnalysis_map, map_map.
  reflexivity.
Qed.

Lemma score_at_counts (g : Group.t) (t : number) :
  Score.threshold (score_at g t) = t
  /\ Score.winCount (score_at g t) = wins_at t (Group.tokens g)
  /\ Score.lossCount (score_at g t)
     = length (filter (fun token => negb (Mongo.gte (Sample.riseSol token) t))
                      (Group.tokens g)).
Proof.
  destruct (analysis_counts t (Group.tokens g)) as [H1 [H2 [H3 _]]].
  cbv zeta in *. unfold score_at, score_of.
  cbn [Score.threshold Score.winCount Score.lossCount].
  rewrite H1, H2, H3. repeat split; reflexivity.
Qed.

(** C6.  For every group of the threshold simulator and every candidate of
    its ladder, [winCount + lossCount] is the group's member count, and
    between any two candidates the higher threshold never has the larger
    [winCount]; when the average rise is not negative the ladder is
    ascending, so [winCount] is non-increasing along it. *)
Theorem win_loss_accounting :
  forall (options : Options.t) (startDate : number) (collection : list TokenInfo)
         (g : Group.t),
    In g (ThresholdSimulator.groups options startDate collection) ->
    exists scores,
      ThresholdSimulator.thresholdScores g = Ok scores
      /\ map Score.threshold scores = ThresholdSimulator.thresholdCandidates g
      /\ Group.totalTokens g = length (Group.tokens g)
      /\ Forall (fun s =>
                   (Score.winCount s + Score.lossCount s = Group.totalTokens g)%nat)
                scores
      /\ (forall s1 s2,
             In s1 scores -> In s2 scores ->
             bson_le (Score.threshold s1) (Score.threshold s2) ->
             (Score.winCount s2 <= Score.winCount s1)%nat)
      /\ (bson_le (Fin 0) (Group.avgRiseSol g) ->
          StronglySorted
            (fun s1 s2 =>
               bson_le (Score.threshold s1) (Score.threshold s2)
               /\ (Score.winCount s2 <= Score.winCount s1)%nat)
            scores).
Proof.
  intros options startDate collection g Hin.
  pose proof (groups_wf options startDate collection) as Hall.
  rewrite Forall_forall in Hall. pose proof (Hall g Hin) as Hwf.
  eexists. split; [apply scores_of_group, Hwf|].
  split.
  { rewrite map_map. rewrite <- (map_id (ThresholdSimulator.thresholdCandidates g)) at 2.
    apply map_ext. intro t. apply score_at_counts. }
  split; [apply Hwf|].
  split.
  { apply Forall_map, Forall_forall. intros t _.
    destruct (score_at_counts g t) as [_ [Hw Hl]]. rewrite Hw, Hl.
    destruct Hwf as [_ [Htot _]]. rewrite Htot. apply wins_and_losses. }
  split.
  { intros s1 s2 H1 H2.
    apply in_map_iff in H1. destruct H1 as [t1 [<- _]].
    apply in_map_iff in H2. destruct H2 as [t2 [<- _]].
    destruct (score_at_counts g t1) as [-> [-> _]].
    destruct (score_at_counts g t2) as [-> [-> _]].
    apply wins_at_antitone. }
  intro Havg. apply StronglySorted_map.
  apply (StronglySorted_weaken (fun _ => True) bson_le).
  - intros t1 t2 _ _ H12.
    destruct (score_at_counts g t1) as [-> [-> _]].
    destruct (score_at_counts g t2) as [-> [-> _]].
    split; [exact H12 | apply wins_at_antitone, H12].
  - apply Forall_forall. auto.
  - apply ladder_ascending, Havg.
Qed.

Lemma win_loss_accounting_witness :
  exists g,
    In g (ThresholdSimulator.groups Options.empty (Fin 0) rising_group)
    /\ exists scores,
         ThresholdSimulator.thresholdScores g = Ok scores
         /\ map Score.winCount scores = [4; 4; 4; 3; 3; 2; 2]%nat
         /\ Forall (fun s =>
                      (Score.winCount s + Score.lossCount s = Group.totalTokens g)%nat)
                   scores.
Proof.
  eexists. split; [vm_compute; left; reflexivity|].
  destruct (win_loss_accounting Options.empty (Fin 0) rising_group _
              (or_introl eq_refl))
    as [scores [Hs [_ [_ [Hsum _]]]]].
  exists scores. split; [exact Hs|]. split; [|exact Hsum].
  vm_compute in Hs. inversion Hs. reflexivity.
Defined.

(** ** Degenerate ladders *)




Lemma multiply_nonneg (a : number) (m : Q) :
  bson_le (Fin 0) a -> 0 < m -> bson_le (Fin 0) (Mongo.multiply a (Fin m)).
Proof.
  intros Ha Hm.
  destruct a as [x| | |]; unfold bson_le in *; simpl in *; try congruence.
  - rewrite <- Qle_alt in *. apply Qmult_le_0_compat; lra.
  - unfold signed_inf.
    assert (H1 : (m ?= 0) = Gt) by (apply Qgt_alt; exact Hm).
    rewrite H1. simpl. discriminate.
Qed.



(** Sums and averages of numbers that are 0 or more. *)
Lemma sum_nonneg (l : list number) :
  Forall (bson_le (Fin 0)) l -> bson_le (Fin 0) (Mongo.sum l).
Proof.
  unfold Mongo.sum.
  assert (Hgen : forall acc,
             bson_le (Fin 0) acc -> Forall (bson_le (Fin 0)) l ->
             bson_le (Fin 0) (fold_left num_add l acc)).
  { induction l as [|x l IH]; simpl; intros acc Hacc Hl; [exact Hacc|].
    inversion Hl as [|? ? Hx Hl']; subst. apply IH; [|exact Hl'].
    destruct acc as [a| | |], x as [b| | |]; unfold bson_le in *; simpl in *;
      try congruence.
    rewrite <- Qle_alt in *. lra. }
  intro Hl. apply Hgen; [|exact Hl]. unfold bson_le; simpl. discriminate.
Qed.

Lemma avg_nonneg (l : list number) :
  l <> [] -> Forall (bson_le (Fin 0)) l -> bson_le (Fin 0) (Mongo.avg l).
Proof.
  intros Hne Hl. unfold Mongo.avg. pose proof (sum_nonneg l Hl) as Hs.
  assert (Hn : 0 < inject_Z (Z.of_nat (length l))).
  { change 0 with (inject_Z 0). rewrite <- Zlt_Qlt.
    destruct l; [contradiction | simpl; lia]. }
  unfold of_nat. destruct (Mongo.sum l) as [s| | |];
    unfold bson_le in *; simpl in *; try congruence.
  - destruct (Qeq_bool (inject_Z (Z.of_nat (length l))) 0) eqn:E.
    + apply Qeq_bool_iff in E. lra.
    + simpl. rewrite <- Qle_alt in *. apply Qle_shift_div_l; lra.
  - assert (H0 : Qle_bool 0 (inject_Z (Z.of_nat (length l))) = true).
    { apply Qle_bool_iff. lra. }
    rewrite H0. simpl. discriminate.
Qed.

Lemma match_gte_nonneg (x : number) (q : Q) :
  0 <= q -> Mongo.match_gte x (Fin q) = true -> bson_le (Fin 0) x.
Proof.
  intros Hq H. destruct x as [r| | |]; simpl in H; try discriminate.
  rewrite gte_finite in H. apply Qle_bool_iff in H.
  apply bson_le_fin. lra.
Qed.

(** ** Selection of the optimal candidate and reports *)

Lemma bson_le_refl (a : number) : bson_le a a.
Proof. destruct (bson_le_total a a); assumption. Qed.

(** [$sortArray] in descending order followed by [$arrayElemAt 0] picks an
    entry that no other entry beats. *)
Lemma best_maximal (field : Score.t -> number) (scores : list Score.t) :
  scores <> [] ->
  exists d,
    ThresholdSimulator.best field scores = Some d
    /\ In d scores
    /\ forall d', In d' scores -> bson_le (field d') (field d).
Proof.
  intro Hne. unfold ThresholdSimulator.best.
  pose proof (sort_by_sorted (ThresholdSimulator.descending field)
                (fun _ => True)) as Hsorted.
  specialize (Hsorted
    (fun a b _ _ =>
       match bson_le_total (field a) (field b) with
       | or_introl H => or_intror (proj2 (gte_bson_le _ _) H)
       | or_intror H => or_introl (proj2 (gte_bson_le _ _) H)
       end)).
  specialize (Hsorted
    (fun a b c _ _ _ Hab Hbc =>
       proj2 (gte_bson_le _ _)
             (bson_le_trans _ _ _ (proj1 (gte_bson_le _ _) Hbc)
                            (proj1 (gte_bson_le _ _) Hab)))).
  specialize (Hsorted scores (proj2 (Forall_forall _ _) (fun _ _ => I))).
  pose proof (fun x => sort_by_In (ThresholdSimulator.descending field) x scores)
    as Hin.
  pose proof (sort_by_length (ThresholdSimulator.descending field) scores) as Hlen.
  destruct (sort_by (ThresholdSimulator.descending field) scores) as [|d rest].
  - destruct scores; [contradiction | discriminate].
  - exists d. split; [reflexivity|].
    split; [apply Hin; left; reflexivity|].
    intros d' Hd'. apply Hin in Hd'. destruct Hd' as [<-|Hd'].
    + apply bson_le_refl.
    + inversion Hsorted as [|? ? _ Hall]; subst.
      rewrite Forall_forall in Hall. apply gte_bson_le, Hall, Hd'.
Qed.

Lemma candidates_nonempty (g : Group.t) :
  ThresholdSimulator.thresholdCandidates g <> [].
Proof. discriminate. Qed.

(** The threshold stages succeed on every well-formed group. *)
Lemma scored_total (g : Group.t) :
  group_wf g ->
  exists s,
    ThresholdSimulator.scored g = Ok s
    /\ Scored.group s = g
    /\ Scored.thresholdScores s
       = map (score_at g) (ThresholdSimulator.thresholdCandidates g)
    /\ Scored.optimalThresholdData s
       = ThresholdSimulator.best Score.profitabilityScore (Scored.thresholdScores s).
Proof.
  intro Hwf. unfold ThresholdSimulator.scored.
  rewrite (scores_of_group g Hwf). unfold bind.
  eexists. split; [reflexivity|]. repeat split; reflexivity.
Qed.

Lemma firstn_In {A : Type} (n : nat) (l : list A) (x : A) :
  In x (firstn n l) -> In x l.
Proof.
  intro H. rewrite <- (firstn_skipn n l). apply in_or_app. left. exact H.
Qed.

Lemma limit_subset {A : Type} (n : number) (docs limited : list A) :
  Mongo.limit n docs = Ok limited -> forall x, In x limited -> In x docs.
Proof.
  unfold Mongo.limit. destruct n as [q| | |]; try discriminate.
  destruct (_ && _); [|discriminate].
  intros H x Hx. inversion H; subst. eapply firstn_In, Hx.
Qed.

(** Every report comes from a well-formed group that went through the
    threshold stages. *)
Lemma find_reports (options : Options.t) (startDate : number)
      (collection : list TokenInfo) (reports : list Report.t) :
  ThresholdSimulator.findProfitableTokenGroups options startDate collection = Ok reports ->
  exists limited,
    reports = map ThresholdSimulator.report limited
    /\ Forall (fun s =>
                 In (Scored.group s) (ThresholdSimulator.groups options startDate collection)
                 /\ ThresholdSimulator.scored (Scored.group s) = Ok s)
              limited.
Proof.
  unfold ThresholdSimulator.findProfitableTokenGroups. intro H.
  destruct (mapM ThresholdSimulator.scored _) as [analysed|e] eqn:Ha;
    simpl in H; [|discriminate].
  destruct (Mongo.limit _ _) as [limited|e] eqn:Hl; simpl in H; [|discriminate].
  inversion H; subst reports. exists limited. split; [reflexivity|].
  apply Forall_forall. intros s Hs.
  apply (limit_subset _ _ _ Hl) in Hs. apply sort_by_In in Hs.
  apply mapM_Ok_Forall2 in Ha.
  clear Hl H. induction Ha as [|g s' gs ss Hgs _ IH]; [contradiction|].
  destruct Hs as [->|Hs].
  - assert (Hg : Scored.group s = g).
    { unfold ThresholdSimulator.scored in Hgs.
      destruct (ThresholdSimulator.thresholdScores g); simpl in Hgs;
        [|discriminate].
      inversion Hgs; reflexivity. }
    rewrite Hg. split; [left; reflexivity | exact Hgs].
  - destruct (IH Hs) as [H1 H2]. split; [right; exact H1 | exact H2].
Qed.

Lemma limit_count {A : Type} (k : nat) (docs : list A) :
  Mongo.limit (of_nat (S k)) docs = Ok (firstn (S k) docs).
Proof.
  unfold Mongo.limit, of_nat. rewrite Qfloor_Z.
  assert (H1 : Qle_bool 1 (inject_Z (Z.of_nat (S k))) = true).
  { apply Qle_bool_iff. change 1 with (inject_Z 1). rewrite <- Zle_Qle. lia. }
  assert (H2 : Qeq_bool (inject_Z (Z.of_nat (S k))) (inject_Z (Z.of_nat (S k))) = true).
  { apply Qeq_bool_iff. reflexivity. }
  rewrite H1, H2, Nat2Z.id. reflexivity.
Qed.





(** ** Risk level *)








(** An optimal win rate of 3/4 is reported as LOW. *)
Lemma three_of_four_is_low :
  exists r,
    ThresholdSimulator.findProfitableTokenGroups Options.empty (Fin 0) three_of_four
    = Ok [r]
    /\ Report.recommendedWinCount r = Some 3%nat
    /\ Report.totalTokens r = 4%nat
    /\ Report.riskLevel r = LOW.
Proof.
  eexists. split; [vm_compute; reflexivity|]. repeat split; reflexivity.
Qed.

(** * Further properties of the service *)

(** ** [$group] as a partition *)

Section GroupByEquivalence.
Context {A K : Type} (key : A -> K) (key_eqb : K -> K -> bool).
Hypothesis key_eqb_refl : forall k, key_eqb k k = true.
Hypothesis key_eqb_sym : forall k k', key_eqb k k' = key_eqb k' k.
Hypothesis key_eqb_trans :
  forall k1 k2 k3, key_eqb k1 k2 = true -> key_eqb k2 k3 = true ->
                   key_eqb k1 k3 = true.

Lemma key_eqb_false_trans (k1 k2 k3 : K) :
  key_eqb k1 k2 = true -> key_eqb k2 k3 = false -> key_eqb k1 k3 = false.
Proof.
  intros H12 H23. destruct (key_eqb k1 k3) eqn:E; [|reflexivity].
  rewrite <- H23. symmetry. apply (key_eqb_trans k2 k1 k3); [|exact E].
  rewrite key_eqb_sym. exact H12.
Qed.

Lemma filter_snoc (f : A -> bool) (l : list A) (x : A) :
  filter f (l ++ [x]) = filter f l ++ (if f x then [x] else []).
Proof. rewrite filter_app. simpl. destruct (f x); reflexivity. Qed.

(** Adding a record leaves the keys in place and appends its key when no
    group matches. *)
Lemma add_to_group_keys (k : K) (x : A) (gs : list (K * list A)) :
  map fst (add_to_group key_eqb k x gs)
  = if existsb (key_eqb k) (map fst gs) then map fst gs else map fst gs ++ [k].
Proof.
  induction gs as [|[k' xs] gs IH]; simpl; [reflexivity|].
  destruct (key_eqb k k'); simpl; [reflexivity|].
  rewrite IH. destruct (existsb (key_eqb k) (map fst gs)); reflexivity.
Qed.

Lemma existsb_false_Forall (k : K) (ks : list K) :
  existsb (key_eqb k) ks = false -> Forall (fun k' => key_eqb k k' = false) ks.
Proof.
  induction ks as [|k' ks IH]; simpl; intro H; constructor.
  - apply orb_false_iff in H. apply H.
  - apply IH. apply orb_false_iff in H. apply H.
Qed.

Lemma ForallOrdPairs_snoc {B : Type} (R : B -> B -> Prop) (l : list B) (b : B) :
  ForallOrdPairs R l -> Forall (fun a => R a b) l -> ForallOrdPairs R (l ++ [b]).
Proof.
  induction 1 as [|a l Ha Hl IH]; simpl; intro Hb.
  - constructor; constructor.
  - inversion Hb; subst. constructor; [|apply IH; assumption].
    apply Forall_app. split; [exact Ha|]. constructor; [assumption | constructor].
Qed.

Lemma add_to_group_filter (seen : list A) (x : A) (gs : list (K * list A)) :
  Forall (fun g => snd g = filter (fun y => key_eqb (key y) (fst g)) seen
                   /\ snd g <> []) gs ->
  ForallOrdPairs (fun k1 k2 => key_eqb k1 k2 = false) (map fst gs) ->
  (existsb (key_eqb (key x)) (map fst gs) = false ->
   filter (fun y => key_eqb (key y) (key x)) seen = []) ->
  Forall (fun g => snd g = filter (fun y => key_eqb (key y) (fst g)) (seen ++ [x])
                   /\ snd g <> [])
         (add_to_group key_eqb (key x) x gs).
Proof.
  induction gs as [|[k' xs] gs IH]; simpl; intros Hmem Hdist Hnew.
  - constructor; [|constructor]. simpl. split; [|discriminate].
    rewrite filter_snoc, (Hnew eq_refl), key_eqb_refl. reflexivity.
  - inversion Hmem as [|? ? [Hxs Hne] Hmem']; subst.
    inversion Hdist as [|? ? Hfirst Hdist']; subst. simpl in *.
    destruct (key_eqb (key x) k') eqn:E.
    + constructor.
      * simpl. rewrite filter_snoc, E, <- Hxs.
        split; [reflexivity | destruct xs; discriminate].
      * rewrite Forall_forall in *. intros g Hg.
        destruct (Hmem' g Hg) as [Hg1 Hg2]. split; [|exact Hg2].
        rewrite filter_snoc, <- Hg1.
        assert (Hkg : key_eqb k' (fst g) = false).
        { apply Hfirst. apply in_map. exact Hg. }
        rewrite (key_eqb_false_trans _ _ _ E Hkg), app_nil_r. reflexivity.
    + constructor.
      * simpl. rewrite filter_snoc, E, app_nil_r, <- Hxs.
        split; [reflexivity | exact Hne].
      * apply IH; [exact Hmem' | exact Hdist' | exact Hnew].
Qed.

Lemma add_to_group_grouped (seen : list A) (x : A) (gs : list (K * list A)) :
  grouped key key_eqb seen gs ->
  grouped key key_eqb (seen ++ [x]) (add_to_group key_eqb (key x) x gs).
Proof.
  intros [Hmem [Hdist Hcov]].
  assert (Hnew : existsb (key_eqb (key x)) (map fst gs) = false ->
                 filter (fun y => key_eqb (key y) (key x)) seen = []).
  { intro Hno. apply existsb_false_Forall in Hno.
    rewrite Forall_forall in Hno, Hcov.
    clear Hmem Hdist. induction seen as [|y seen IH]; [reflexivity|]. simpl.
    destruct (key_eqb (key y) (key x)) eqn:E.
    - exfalso. pose proof (Hcov y (or_introl eq_refl)) as Hy.
      apply existsb_exists in Hy. destruct Hy as [k' [Hk' Hyk']].
      pose proof (Hno k' Hk') as Hxk'.
      rewrite key_eqb_sym in E.
      rewrite (key_eqb_trans _ _ _ E Hyk') in Hxk'. discriminate.
    - apply IH. intros z Hz. apply Hcov. right. exact Hz. }
  split; [apply add_to_group_filter; assumption|].
  rewrite add_to_group_keys.
  destruct (existsb (key_eqb (key x)) (map fst gs)) eqn:Ex.
  - split; [exact Hdist|].
    apply Forall_app. split; [exact Hcov|].
    constructor; [exact Ex | constructor].
  - split.
    + apply ForallOrdPairs_snoc; [exact Hdist|].
      eapply Forall_impl; [|apply existsb_false_Forall, Ex].
      intros k' Hk'. simpl in Hk'. rewrite key_eqb_sym. exact Hk'.
    + apply Forall_app. split.
      * eapply Forall_impl; [|exact Hcov].
        intros y Hy. simpl in Hy. rewrite existsb_app, Hy. reflexivity.
      * constructor; [|constructor].
        rewrite existsb_app. simpl. rewrite key_eqb_refl.
        rewrite orb_true_r. reflexivity.
Qed.

(** After the whole input, every group is the sub-list of the input whose
    keys match the group's, and no two groups match. *)
Lemma group_by_grouped (l : list A) :
  grouped key key_eqb l (group_by key key_eqb l).
Proof.
  unfold group_by.
  assert (Hgen : forall seen gs,
             grouped key key_eqb seen gs ->
             grouped key key_eqb (seen ++ l)
                     (fold_left (fun gs x => add_to_group key_eqb (key x) x gs) l gs)).
  { induction l as [|x l IH]; simpl; intros seen gs Hg.
    - rewrite app_nil_r. exact Hg.
    - replace (seen ++ x :: l) with ((seen ++ [x]) ++ l)
        by (rewrite <- app_assoc; reflexivity).
      apply IH, add_to_group_grouped, Hg. }
  apply (Hgen [] []). repeat split; constructor.
Qed.
End GroupByEquivalence.

Section GroupByPartition.
Context {A K : Type} (key : A -> K) (key_eqb : K -> K -> bool).

Lemma add_to_group_perm (k : K) (x : A) (gs : list (K * list A)) :
  Permutation (concat (map snd (add_to_group key_eqb k x gs)))
              (x :: concat (map snd gs)).
Proof.
  induction gs as [|[k' xs] gs IH]; simpl.
  - apply Permutation_refl.
  - destruct (key_eqb k k'); simpl.
    + rewrite <- app_assoc. simpl. apply Permutation_sym, Permutation_middle.
    + eapply perm_trans; [apply Permutation_app_head, IH|].
      apply Permutation_sym, Permutation_middle.
Qed.

(** The groups together hold every input element exactly once. *)
Lemma group_by_perm (l : list A) :
  Permutation (concat (map snd (group_by key key_eqb l))) l.
Proof.
  unfold group_by.
  assert (Hgen : forall gs,
             Permutation
               (concat (map snd (fold_left
                                   (fun gs x => add_to_group key_eqb (key x) x gs)
                                   l gs)))
               (concat (map snd gs) ++ l)).
  { induction l as [|x l IH]; simpl; intros gs.
    - rewrite app_nil_r. apply Permutation_refl.
    - eapply perm_trans; [apply IH|].
      eapply perm_trans; [apply Permutation_app_tail, add_to_group_perm|].
      simpl. apply Permutation_middle. }
  apply (Hgen []).
Qed.
End GroupByPartition.

(** Matching of group identifiers is an equivalence. *)

Lemma cmp_refl (a : number) : Mongo.cmp a a = Eq.
Proof. destruct a; simpl; try reflexivity. apply Qcompare_refl_eq. Qed.

Lemma match_eq_sym (a b : number) : Mongo.match_eq a b = Mongo.match_eq b a.
Proof.
  unfold Mongo.match_eq. rewrite (cmp_antisym a b).
  destruct (Mongo.cmp a b); reflexivity.
Qed.

Lemma match_eq_trans (a b c : number) :
  Mongo.match_eq a b = true -> Mongo.match_eq b c = true ->
  Mongo.match_eq a c = true.
Proof.
  unfold Mongo.match_eq.
  destruct a as [x| | |], b as [y| | |], c as [z| | |]; simpl;
    try discriminate; try reflexivity.
  destruct (x ?= y) eqn:E1; try discriminate.
  destruct (y ?= z) eqn:E2; try discriminate.
  apply Qeq_alt in E1. apply Qeq_alt in E2.
  assert (E3 : x == z) by (rewrite E1; exact E2).
  apply Qeq_alt in E3. rewrite E3. reflexivity.
Qed.

Section OptionEqb.
Context {B : Type} (eqb : B -> B -> bool).

Lemma option_eqb_refl (a : option B) :
  (forall b, eqb b b = true) -> option_eqb eqb a a = true.
Proof. intro H. destruct a; simpl; auto. Qed.

Lemma option_eqb_sym (a b : option B) :
  (forall x y, eqb x y = eqb y x) -> option_eqb eqb a b = option_eqb eqb b a.
Proof. intro H. destruct a, b; simpl; auto. Qed.

Lemma option_eqb_trans (a b c : option B) :
  (forall x y z, eqb x y = true -> eqb y z = true -> eqb x z = true) ->
  option_eqb eqb a b = true -> option_eqb eqb b c = true ->
  option_eqb eqb a c = true.
Proof. intro H. destruct a, b, c; simpl; try discriminate; eauto. Qed.
End OptionEqb.

Lemma GroupId_eqb_refl (k : GroupId.t) : GroupId.eqb k k = true.
Proof.
  unfold GroupId.eqb.
  rewrite (option_eqb_refl String.eqb) by apply String.eqb_refl.
  rewrite !(option_eqb_refl Mongo.match_eq);
    try (intro b; unfold Mongo.match_eq; rewrite cmp_refl; reflexivity).
  reflexivity.
Qed.

Lemma GroupId_eqb_sym (k k' : GroupId.t) : GroupId.eqb k k' = GroupId.eqb k' k.
Proof.
  unfold GroupId.eqb.
  rewrite (option_eqb_sym String.eqb (GroupId.mintPattern k)) by apply String.eqb_sym.
  rewrite (option_eqb_sym Mongo.match_eq (GroupId.unitPrice k)) by apply match_eq_sym.
  rewrite (option_eqb_sym Mongo.match_eq (GroupId.unitLimit k)) by apply match_eq_sym.
  rewrite (option_eqb_sym Mongo.match_eq (GroupId.bundleSize k)) by apply match_eq_sym.
  rewrite (option_eqb_sym Mongo.match_eq (GroupId.totalBuySol k)) by apply match_eq_sym.
  reflexivity.
Qed.

Lemma string_eqb_trans (x y z : string) :
  String.eqb x y = true -> String.eqb y z = true -> String.eqb x z = true.
Proof.
  intros H1 H2. apply String.eqb_eq in H1. apply String.eqb_eq in H2.
  subst. apply String.eqb_refl.
Qed.

Lemma GroupId_eqb_trans (k1 k2 k3 : GroupId.t) :
  GroupId.eqb k1 k2 = true -> GroupId.eqb k2 k3 = true ->
  GroupId.eqb k1 k3 = true.
Proof.
  unfold GroupId.eqb. rewrite !andb_true_iff.
  intros [[[[A1 A2] A3] A4] A5] [[[[B1 B2] B3] B4] B5].
  repeat split.
  - apply (option_eqb_trans String.eqb _ _ _ string_eqb_trans A1 B1).
  - apply (option_eqb_trans Mongo.match_eq _ _ _ match_eq_trans A2 B2).
  - apply (option_eqb_trans Mongo.match_eq _ _ _ match_eq_trans A3 B3).
  - apply (option_eqb_trans Mongo.match_eq _ _ _ match_eq_trans A4 B4).
  - apply (option_eqb_trans Mongo.match_eq _ _ _ match_eq_trans A5 B5).
Qed.

Lemma Forall2_impl_In {A B : Type} (P Q : A -> B -> Prop) (l : list A)
      (l' : list B) :
  (forall a b, In a l -> P a b -> Q a b) -> Forall2 P l l' -> Forall2 Q l l'.
Proof.
  intros H HP. induction HP as [|a b l l' Hab _ IH]; constructor.
  - apply H; [left; reflexivity | exact Hab].
  - apply IH. intros a' b' Hin. apply H. right. exact Hin.
Qed.

Lemma Forall2_map_eq {A B C : Type} (f : A -> C) (g : B -> C) (l : list A)
      (l' : list B) :
  Forall2 (fun a b => g b = f a) l l' -> map g l' = map f l.
Proof. induction 1; simpl; congruence. Qed.

Lemma Forall2_Forall_right {A B : Type} (P : A -> B -> Prop) (Q : B -> Prop)
      (l : list A) (l' : list B) :
  (forall a b, In a l -> P a b -> Q b) -> Forall2 P l l' -> Forall Q l'.
Proof.
  intros H HP. induction HP as [|a b l l' Hab _ IH]; constructor.
  - apply (H a); [left; reflexivity | exact Hab].
  - apply IH. intros a' b' Hin. apply H. right. exact Hin.
Qed.

Lemma ForallOrdPairs_perm {B : Type} (R : B -> B -> Prop) (l l' : list B) :
  (forall a b, R a b -> R b a) ->
  Permutation l l' -> ForallOrdPairs R l -> ForallOrdPairs R l'.
Proof.
  intros Hsym Hp. induction Hp as [|x l l' Hp IH|x y l|l1 l2 l3 _ IH1 _ IH2];
    intro H.
  - exact H.
  - inversion H; subst. constructor; [|apply IH; assumption].
    eapply Permutation_Forall; eassumption.
  - inversion H as [|? ? Hy Hrest]; subst.
    inversion Hrest as [|? ? Hx Hl]; subst.
    inversion Hy as [|? ? Hyx Hyl]; subst.
    constructor; [|constructor; assumption].
    constructor; [apply Hsym; exact Hyx | exact Hx].
  - apply IH2, IH1, H.
Qed.

Lemma ForallOrdPairs_map {B C : Type} (f : B -> C) (R : C -> C -> Prop)
      (l : list B) :
  ForallOrdPairs R (map f l) <-> ForallOrdPairs (fun a b => R (f a) (f b)) l.
Proof.
  induction l as [|x l IH]; simpl; split; intro H;
    try (constructor; fail); inversion H; subst; constructor;
    try (apply IH; assumption).
  - apply Forall_map. assumption.
  - apply Forall_map. assumption.
Qed.

(** The rows of the aggregation, before [$sort], correspond one to one to
    the groups of the matched records. *)
Lemma aggregate_structure (c : Criteria.t) (filters : Filters.t)
      (collection : list TokenInfo) :
  exists rows0,
    Forall2 (fun g r => Row.groupIdentifier r = fst g
                        /\ Row.tokens r = snd g
                        /\ row_wf r)
            (group_by (GroupingEngine.groupId c) GroupId.eqb
                      (filter (GroupingEngine.matchQuery filters) collection))
            rows0
    /\ GroupingEngine.aggregate c filters collection
       = Ok (sort_by GroupingEngine.sort_before rows0).
Proof.
  unfold GroupingEngine.aggregate.
  set (groups := group_by _ _ _).
  destruct (mapM_total GroupingEngine.project groups) as [rows0 Hrows].
  { apply Forall_forall. intros [id members] Hin.
    pose proof (group_by_nonempty _ _ _ _ Hin) as Hne.
    destruct (project_row id members Hne) as [r [Hr _]]. eauto. }
  exists rows0. rewrite Hrows. split; [|reflexivity].
  eapply Forall2_impl_In; [|apply mapM_Ok_Forall2, Hrows].
  intros [id members] r Hin Hr.
  pose proof (group_by_nonempty _ _ _ _ Hin) as Hne.
  destruct (project_row id members Hne) as [r' [Hr' [Hid [Htok Hwf]]]].
  assert (r' = r) by congruence. subst r'. auto.
Qed.

Lemma stats_tokens_concat (wp : number) (rows : list Row.t) :
  concat (map Stats.tokens (map (GroupingEngine.stats wp) rows))
  = map GroupingEngine.member (flat_map Row.tokens rows).
Proof.
  rewrite flat_map_concat_map, concat_map, !map_map. reflexivity.
Qed.

(** The members of the returned groups are the matched records. *)
Lemma fetch_partition (c : Criteria.t) (filters : Filters.t)
      (collection : list TokenInfo) :
  exists rows,
    GroupingEngine.aggregate c filters collection = Ok rows
    /\ Forall row_wf rows
    /\ GroupingEngine.fetchProfitableTokenGroupsWithMigration c filters collection
       = Ok (map (GroupingEngine.stats (default (Fin 70) (Filters.winPercent filters)))
                 rows)
    /\ Permutation (flat_map Row.tokens rows)
                   (filter (GroupingEngine.matchQuery filters) collection).
Proof.
  destruct (aggregate_structure c filters collection) as [rows0 [H2 Hagg]].
  exists (sort_by GroupingEngine.sort_before rows0).
  split; [exact Hagg|].
  assert (Hwf : Forall row_wf rows0).
  { eapply Forall2_Forall_right; [|exact H2]. intros g r _ [_ [_ H]]. exact H. }
  split; [apply sort_by_Forall, Hwf|].
  split.
  { unfold GroupingEngine.fetchProfitableTokenGroupsWithMigration.
    rewrite Hagg. reflexivity. }
  eapply perm_trans.
  { apply Permutation_flat_map, sort_by_perm. }
  rewrite flat_map_concat_map.
  assert (Htok : map Row.tokens rows0
                 = map snd (group_by (GroupingEngine.groupId c) GroupId.eqb
                              (filter (GroupingEngine.matchQuery filters) collection))).
  { apply Forall2_map_eq.
    eapply Forall2_impl_In; [|exact H2]. intros g r _ [_ [H _]]. exact H. }
  rewrite Htok. apply group_by_perm.
Qed.

(** X1.  Whatever the criteria and filters, the member lists of the
    returned groups, put together, are exactly the records that pass the
    filters (each once): no matched record is lost or counted twice, no
    group is empty, and the [totalTokens] add up to the number of matched
    records. *)
Theorem groups_partition_the_matches :
  forall (c : Criteria.t) (filters : Filters.t) (collection : list TokenInfo),
  exists groups,
    GroupingEngine.fetchProfitableTokenGroupsWithMigration c filters collection
    = Ok groups
    /\ Permutation (concat (map Stats.tokens groups))
                   (map GroupingEngine.member
                        (filter (GroupingEngine.matchQuery filters) collection))
    /\ Forall (fun g => (1 <= Stats.totalTokens g)%nat) groups
    /\ list_sum (map Stats.totalTokens groups)
       = length (filter (GroupingEngine.matchQuery filters) collection).
Proof.
  intros c filters collection.
  destruct (fetch_partition c filters collection)
    as [rows [_ [Hwf [Hfetch Hperm]]]].
  eexists. split; [exact Hfetch|].
  split.
  { rewrite stats_tokens_concat. apply Permutation_map, Hperm. }
  split.
  { apply Forall_map. eapply Forall_impl; [|exact Hwf].
    intros r [Hne [Htot _]]. simpl. rewrite Htot.
    destruct (Row.tokens r); [contradiction | simpl; lia]. }
  rewrite <- (Permutation_length Hperm), length_flat_map, map_map.
  f_equal. apply map_ext_in. intros r Hr.
  rewrite Forall_forall in Hwf. destruct (Hwf r Hr) as [_ [Htot _]].
  simpl. exact Htot.
Qed.

(** Each row holds the matched records whose key matches its identifier,
    and no two rows have matching identifiers. *)
Lemma aggregate_identity (c : Criteria.t) (filters : Filters.t)
      (collection : list TokenInfo) :
  exists rows,
    GroupingEngine.aggregate c filters collection = Ok rows
    /\ Forall (fun r =>
                 Row.tokens r
                 = filter (fun t => GroupId.eqb (GroupingEngine.groupId c t)
                                                (Row.groupIdentifier r))
                          (filter (GroupingEngine.matchQuery filters) collection))
              rows
    /\ ForallOrdPairs (fun r1 r2 =>
                         GroupId.eqb (Row.groupIdentifier r1)
                                     (Row.groupIdentifier r2) = false)
                      rows.
Proof.
  destruct (aggregate_structure c filters collection) as [rows0 [H2 Hagg]].
  destruct (group_by_grouped (GroupingEngine.groupId c) GroupId.eqb
              GroupId_eqb_refl GroupId_eqb_sym GroupId_eqb_trans
              (filter (GroupingEngine.matchQuery filters) collection))
    as [Hmem [Hdist _]].
  exists (sort_by GroupingEngine.sort_before rows0).
  split; [exact Hagg|]. split.
  - apply sort_by_Forall.
    eapply Forall2_Forall_right; [|exact H2].
    intros g r Hin [Hid [Htok _]].
    rewrite Forall_forall in Hmem. destruct (Hmem g Hin) as [Hg _].
    rewrite Hid, Htok. exact Hg.
  - apply (ForallOrdPairs_perm _ rows0).
    + intros a b Hab. rewrite GroupId_eqb_sym. exact Hab.
    + apply Permutation_sym, sort_by_perm.
    + apply (ForallOrdPairs_map Row.groupIdentifier
               (fun k1 k2 => GroupId.eqb k1 k2 = false)).
      assert (Hids : map Row.groupIdentifier rows0
                     = map fst (group_by (GroupingEngine.groupId c) GroupId.eqb
                                  (filter (GroupingEngine.matchQuery filters)
                                          collection))).
      { apply Forall2_map_eq.
        eapply Forall2_impl_In; [|exact H2]. intros g r _ [H _]. exact H. }
      rewrite Hids. exact Hdist.
Qed.

(** X2.  A returned group is identified by its key: its members are
    exactly the matched records whose grouping key equals the group's
    identifier (numbers compared by value), and no two returned groups
    have equal identifiers. *)
Theorem groups_are_identified_by_their_key :
  forall (c : Criteria.t) (filters : Filters.t) (collection : list TokenInfo),
  exists rows,
    GroupingEngine.aggregate c filters collection = Ok rows
    /\ GroupingEngine.fetchProfitableTokenGroupsWithMigration c filters collection
       = Ok (map (GroupingEngine.stats (default (Fin 70) (Filters.winPercent filters)))
                 rows)
    /\ Forall (fun r =>
                 let g := GroupingEngine.stats
                            (default (Fin 70) (Filters.winPercent filters)) r in
                 Stats.groupIdentifier g = Row.groupIdentifier r
                 /\ Stats.tokens g
                    = map GroupingEngine.member
                        (filter (fun t =>
                                   GroupId.eqb (GroupingEngine.groupId c t)
                                               (Stats.groupIdentifier g))
                                (filter (GroupingEngine.matchQuery filters)
                                        collection)))
              rows
    /\ ForallOrdPairs (fun g1 g2 =>
                         GroupId.eqb (Stats.groupIdentifier g1)
                                     (Stats.groupIdentifier g2) = false)
         (map (GroupingEngine.stats (default (Fin 70) (Filters.winPercent filters)))
              rows).
Proof.
  intros c filters collection.
  destruct (aggregate_identity c filters collection) as [rows [Hagg [Hmem Hdist]]].
  exists rows. split; [exact Hagg|].
  split.
  { unfold GroupingEngine.fetchProfitableTokenGroupsWithMigration.
    rewrite Hagg. reflexivity. }
  split.
  - eapply Forall_impl; [|exact Hmem]. intros r Hr. simpl.
    split; [reflexivity|]. rewrite Hr at 1. reflexivity.
  - apply ForallOrdPairs_map. exact Hdist.
Qed.

(** ** Summary over the groups *)

Lemma stats_of_row_wf (wp : number) (r : Row.t) :
  row_wf r -> stats_wf (GroupingEngine.stats wp r).
Proof.
  intros [Hne [Htot [Hmig [Hrate _]]]]. unfold stats_wf.
  cbn [GroupingEngine.stats Stats.migrationRate Stats.migratedTokens
       Stats.totalTokens Stats.tokens].
  rewrite Hrate.
  split; [reflexivity|].
  split; [rewrite Htot; destruct (Row.tokens r); [contradiction | simpl; lia]|].
  split; [rewrite Hmig, Htot; apply filter_length_le|].
  split; [rewrite length_map; exact Htot|].
  rewrite members_migrated, length_map. exact Hmig.
Qed.

Lemma stats_wf_rate (g : Stats.t) :
  stats_wf g -> exists q, Stats.migrationRate g = Fin q /\ 0 <= q <= 100.
Proof.
  intros [Hrate [H1 [Hle _]]].
  destruct (reported_rate_value (Stats.migratedTokens g) (Stats.totalTokens g))
    as [q [Hq [Bq _]]]; [exact Hle | lia|].
  exists q. split; [congruence | exact Bq].
Qed.

Lemma reduce_count_sum (field : Stats.t -> nat) (groups : list Stats.t) :
  GroupingQueries.reduce_count field groups = list_sum (map field groups).
Proof.
  unfold GroupingQueries.reduce_count.
  assert (Hgen : forall acc,
             fold_left (fun sum g => (sum + field g)%nat) groups acc
             = (acc + list_sum (map field groups))%nat).
  { induction groups as [|g groups IH]; intros acc; simpl; [lia|].
    rewrite IH. lia. }
  apply (Hgen 0%nat).
Qed.

Lemma filter_length_perm {A : Type} (f : A -> bool) (l l' : list A) :
  Permutation l l' -> length (filter f l) = length (filter f l').
Proof.
  induction 1 as [|x l l' _ IH|x y l|l1 l2 l3 _ IH1 _ IH2]; simpl.
  - reflexivity.
  - destruct (f x); simpl; congruence.
  - destruct (f x), (f y); reflexivity.
  - congruence.
Qed.

Lemma filter_length_flat_map {A B : Type} (f : B -> bool) (g : A -> list B)
      (l : list A) :
  length (filter f (flat_map g l))
  = list_sum (map (fun x => length (filter f (g x))) l).
Proof.
  induction l as [|x l IH]; simpl; [reflexivity|].
  rewrite filter_app, length_app, IH. reflexivity.
Qed.

(** The sums a summary is made of, in terms of the matched records. *)
Lemma fetch_sums (c : Criteria.t) (filters : Filters.t)
      (collection : list TokenInfo) :
  exists groups,
    GroupingEngine.fetchProfitableTokenGroupsWithMigration c filters collection
    = Ok groups
    /\ Forall stats_wf groups
    /\ list_sum (map Stats.totalTokens groups)
       = length (filter (GroupingEngine.matchQuery filters) collection)
    /\ list_sum (map Stats.migratedTokens groups)
       = length (filter migrated
                        (filter (GroupingEngine.matchQuery filters) collection)).
Proof.
  destruct (fetch_partition c filters collection)
    as [rows [_ [Hwf [Hfetch Hperm]]]].
  eexists. split; [exact Hfetch|].
  split.
  { apply Forall_map. eapply Forall_impl; [|exact Hwf].
    intros r Hr. apply stats_of_row_wf, Hr. }
  rewrite Forall_forall in Hwf. split.
  - rewrite <- (Permutation_length Hperm), length_flat_map, !map_map.
    f_equal. apply map_ext_in. intros r Hr.
    destruct (Hwf r Hr) as [_ [Htot _]]. exact Htot.
  - rewrite <- (filter_length_perm migrated _ _ Hperm), filter_length_flat_map,
            !map_map.
    f_equal. apply map_ext_in. intros r Hr.
    destruct (Hwf r Hr) as [_ [_ [Hmig _]]]. exact Hmig.
Qed.

Lemma list_sum_ge_length (f : Stats.t -> nat) (groups : list Stats.t) :
  Forall (fun g => (1 <= f g)%nat) groups ->
  (length groups <= list_sum (map f groups))%nat.
Proof. induction 1; simpl; lia. Qed.

(** X3.  The totals of a summary do not depend on the grouping criteria:
    [totalTokens] is the number of records that pass the filters,
    [totalMigrated] the number of those that migrated, and
    [overallMigrationRate] their ratio in percent, computed on doubles and
    rounded to 2 decimals by [Math.round(x * 100) / 100] (0 when nothing
    matches): a number between 0 and 100 less than 0.0051 away from the
    exact percentage.  There are never more groups than tokens. *)
Theorem summary_totals :
  forall (c : Criteria.t) (filters : Filters.t) (collection : list TokenInfo),
  exists s,
    GroupingQueries.getGroupingSummary c filters collection = Ok s
    /\ Summary.totalTokens s
       = length (filter (GroupingEngine.matchQuery filters) collection)
    /\ Summary.totalMigrated s
       = length (filter migrated
                        (filter (GroupingEngine.matchQuery filters) collection))
    /\ Summary.overallMigrationRate s
       = (if (0 <? Summary.totalTokens s)%nat
          then GroupingEngine.round_to 100
                 (migration_rate (Summary.totalMigrated s)
                                 (Summary.totalTokens s))
          else Fin 0)
    /\ (exists q,
           Summary.overallMigrationRate s = Fin q
           /\ 0 <= q <= 100
           /\ Qabs (q - (if (0 <? Summary.totalTokens s)%nat
                         then migration_percent (Summary.totalMigrated s)
                                                (Summary.totalTokens s)
                         else 0))
              <= 51 # 10000)
    /\ (Summary.totalGroups s <= Summary.totalTokens s)%nat
    /\ (Summary.totalMigrated s <= Summary.totalTokens s)%nat.
Proof.
  intros c filters collection.
  destruct (fetch_sums c filters collection)
    as [groups [Hfetch [Hwf [Htot Hmig]]]].
  unfold GroupingQueries.getGroupingSummary. rewrite Hfetch. unfold bind.
  eexists. split; [reflexivity|].
  cbn [Summary.totalTokens Summary.totalMigrated Summary.overallMigrationRate
       Summary.totalGroups].
  rewrite !reduce_count_sum, Htot, Hmig.
  split; [reflexivity|]. split; [reflexivity|].
  set (n := length (filter (GroupingEngine.matchQuery filters) collection)).
  set (m := length (filter migrated
                           (filter (GroupingEngine.matchQuery filters)
                                   collection))).
  assert (Hmn : (m <= n)%nat) by apply filter_length_le.
  split.
  { destruct (0 <? n)%nat; reflexivity. }
  split.
  { destruct (0 <? n)%nat eqn:E.
    - apply Nat.ltb_lt in E.
      apply (reported_rate_value m n); [exact Hmn | lia].
    - exists 0. split; [reflexivity|]. split; [split; discriminate|].
      discriminate. }
  split.
  { unfold n. rewrite <- Htot. apply list_sum_ge_length.
    eapply Forall_impl; [|exact Hwf]. intros g H. apply H. }
  exact Hmn.
Qed.

Lemma reduce_number_bounded (groups : list Stats.t) :
  Forall stats_wf groups ->
  exists s,
    GroupingQueries.reduce_number Stats.migrationRate groups = Fin s
    /\ 0 <= s <= 100 * inject_Z (Z.of_nat (length groups)).
Proof.
  unfold GroupingQueries.reduce_number. intro Hwf.
  assert (Hgen : forall a,
             exists s,
               fold_left (fun sum g => num_add sum (Stats.migrationRate g))
                         groups (Fin a) = Fin s
               /\ a <= s <= a + 100 * inject_Z (Z.of_nat (length groups))).
  { induction Hwf as [|g groups Hg _ IH]; intros a; simpl.
    - exists a. split; [reflexivity|]. change (inject_Z 0) with 0. lra.
    - destruct (stats_wf_rate g Hg) as [q [-> Hq]]. simpl.
      destruct (IH (a + q)) as [s [Hs Hb]]. exists s. split; [exact Hs|].
      rewrite Zpos_P_of_succ_nat, <- Nat2Z.inj_succ, Nat2Z.inj_succ.
      unfold Z.succ. rewrite inject_Z_plus. change (inject_Z 1) with 1. lra. }
  destruct (Hgen 0) as [s [Hs Hb]]. exists s. split; [exact Hs | lra].
Qed.

(** The average of [k] rates that add up to [s]. *)
Lemma average_rate_bounded (s : Q) (k : nat) :
  (0 < k)%nat -> 0 <= s <= 100 * inject_Z (Z.of_nat k) ->
  exists a, Binary64.div (Fin s) (of_nat k) = Fin a /\ 0 <= a <= 100.
Proof.
  intros Hk Hs.
  assert (Hg : 0 < inject_Z (Z.of_nat k)).
  { change 0 with (inject_Z 0). rewrite <- Zlt_Qlt. lia. }
  assert (Hs' : 0 <= s / inject_Z (Z.of_nat k) <= 100).
  { split.
    - apply Qle_shift_div_l; [exact Hg | lra].
    - apply Qle_shift_div_r; [exact Hg | lra]. }
  assert (Ediv : Binary64.div (Fin s) (of_nat k)
                 = Binary64.round (s / inject_Z (Z.of_nat k))).
  { unfold Binary64.div, num_div, of_nat.
    rewrite of_nat_nonzero by lia. reflexivity. }
  rewrite Ediv.
  destruct (rounded_between _ 0 100 ltac:(reflexivity) ltac:(reflexivity) Hs')
    as [a [Ha Ba]].
  exists a. split; [exact Ha | exact Ba].
Qed.

Lemma mul_mono (s : Q) (a b : number) :
  0 < s -> num_le a b ->
  num_le (Binary64.mul a (Fin s)) (Binary64.mul b (Fin s)).
Proof.
  intros Hs H. unfold Binary64.mul. apply rounded_number_mono.
  assert (E : (s ?= 0) = Gt) by (apply Qgt_alt; exact Hs).
  destruct a as [x| | |], b as [y| | |]; simpl in *; unfold signed_inf;
    rewrite ?E; simpl; try contradiction; auto.
  apply Qmult_le_compat_r; lra.
Qed.

(** Rounding to a number of decimals is monotone on all numbers. *)
Lemma round_to_number_mono (s : Q) (a b : number) :
  0 < s -> num_le a b ->
  num_le (GroupingEngine.round_to s a) (GroupingEngine.round_to s b).
Proof.
  intros Hs H. unfold GroupingEngine.round_to.
  apply div_mono; [exact Hs|]. apply JS_round_mono.
  apply mul_mono; assumption.
Qed.

(** X4.  A summary is always produced, also when nothing matches: the two
    averages and the overall rate are then 0 (the divisions are guarded).
    Both rates lie between 0 and 100, and with at least one group the
    average number of tokens per group is 1 or more. *)
Theorem summary_is_guarded_and_bounded :
  forall (c : Criteria.t) (filters : Filters.t) (collection : list TokenInfo),
  exists s,
    GroupingQueries.getGroupingSummary c filters collection = Ok s
    /\ num_le (Fin 0) (Summary.overallMigrationRate s)
    /\ num_le (Summary.overallMigrationRate s) (Fin 100)
    /\ num_le (Fin 0) (Summary.avgMigrationRatePerGroup s)
    /\ num_le (Summary.avgMigrationRatePerGroup s) (Fin 100)
    /\ num_le (Fin (if (0 <? Summary.totalGroups s)%nat then 1 else 0))
              (Summary.avgTokensPerGroup s)
    /\ (if (0 <? Summary.totalGroups s)%nat
        then True
        else Summary.totalTokens s = 0%nat
             /\ Summary.totalMigrated s = 0%nat
             /\ num_eq (Summary.overallMigrationRate s) (Fin 0)
             /\ num_eq (Summary.avgTokensPerGroup s) (Fin 0)
             /\ num_eq (Summary.avgMigrationRatePerGroup s) (Fin 0)).
Proof.
  intros c filters collection.
  destruct (fetch_sums c filters collection)
    as [groups [Hfetch [Hwf [Htot Hmig]]]].
  unfold GroupingQueries.getGroupingSummary. rewrite Hfetch. unfold bind.
  eexists. split; [reflexivity|].
  cbn [Summary.totalTokens Summary.totalMigrated Summary.overallMigrationRate
       Summary.totalGroups Summary.avgTokensPerGroup
       Summary.avgMigrationRatePerGroup].
  rewrite !reduce_count_sum.
  assert (Hge : (length groups <= list_sum (map Stats.totalTokens groups))%nat).
  { apply list_sum_ge_length.
    eapply Forall_impl; [|exact Hwf]. intros g H. apply H. }
  assert (Hmt : (list_sum (map Stats.migratedTokens groups)
                 <= list_sum (map Stats.totalTokens groups))%nat).
  { rewrite Htot, Hmig. apply filter_length_le. }
  destruct (0 <? length groups)%nat eqn:Eg.
  - apply Nat.ltb_lt in Eg.
    set (n := list_sum (map Stats.totalTokens groups)) in *.
    set (m := list_sum (map Stats.migratedTokens groups)) in *.
    assert (En : (0 <? n)%nat = true) by (apply Nat.ltb_lt; lia).
    rewrite En.
    destruct (reduce_number_bounded groups Hwf) as [s [-> Hs]].
    assert (Hg : 0 < inject_Z (Z.of_nat (length groups))).
    { change 0 with (inject_Z 0). rewrite <- Zlt_Qlt. lia. }
    assert (Hng : inject_Z (Z.of_nat (length groups)) <= inject_Z (Z.of_nat n)).
    { rewrite <- Zle_Qle. lia. }
    (* the overall rate *)
    fold (migration_rate m n).
    destruct (reported_rate_value m n Hmt ltac:(lia)) as [q [-> [Bq _]]].
    split; [apply Bq|]. split; [apply Bq|].
    (* the average rate per group *)
    destruct (average_rate_bounded s (length groups) Eg Hs) as [a [-> Ba]].
    destruct (round_to_100_value a Ba) as [a' [-> [Ba' _]]].
    split; [apply Ba'|]. split; [apply Ba'|].
    split; [|exact I].
    (* the average number of tokens per group *)
    change (Fin 1) with (GroupingEngine.round_to 100 (Binary64.div (Fin 1) (Fin 1))).
    apply round_to_number_mono; [reflexivity|].
    unfold Binary64.div. rewrite ratio_of_counts by lia.
    apply (rounded_number_mono (Fin (1 / 1)) (Fin _)).
    cbn [num_le]. setoid_replace (1 / 1) with 1 by reflexivity.
    apply Qle_shift_div_l; [exact Hg | lra].
  - apply Nat.ltb_ge in Eg.
    assert (Hnil : groups = []) by (destruct groups; [reflexivity | simpl in Eg; lia]).
    subst groups. simpl.
    repeat split; try discriminate; reflexivity.
Qed.

(** ** The percentile as a function of the win-percentage *)

Lemma commonRiseSol_rank (tokens : list TokenInfo) (p : Q) :
  GroupingEngine.riseSols tokens <> [] ->
  1 # 1000000000000 <= p <= 100 ->
  (Z.of_nat (length tokens) < 2 ^ 32)%Z ->
  exists k : nat,
    GroupingEngine.percentileIndex
      (length (GroupingEngine.riseSols tokens)) (Fin p) = of_nat k
    /\ (k < length (GroupingEngine.riseSols tokens))%nat
    /\ GroupingEngine.commonRiseSol tokens (Fin p)
       = nth_error (GroupingEngine.riseSols tokens) k.
Proof.
  intros Hne [Hlow Hhi] Hlen.
  unfold GroupingEngine.commonRiseSol.
  set (rs := GroupingEngine.riseSols tokens) in *.
  assert (Hpos : (0 < length rs)%nat).
  { destruct rs; [contradiction | simpl; lia]. }
  assert (Hn : (Z.of_nat (length rs) < 2 ^ 32)%Z).
  { pose proof (riseSols_length tokens) as H. fold rs in H. lia. }
  destruct (percentileIndex_rank (length rs) p) as [k [Hk [_ [_ Hin]]]];
    [split; lra | exact Hn|].
  exists k. split; [exact Hk|]. split; [apply Hin; assumption|].
  apply Nat.ltb_lt in Hpos. rewrite Hpos, Hk. apply index_of_nat.
Qed.

Lemma StronglySorted_nth_error {A : Type} (R : A -> A -> Prop) (l : list A)
      (i j : nat) (a b : A) :
  StronglySorted R l -> (i < j)%nat ->
  nth_error l i = Some a -> nth_error l j = Some b -> R a b.
Proof.
  intro Hs. revert i j. induction Hs as [|x l Hs IH Hx]; intros i j Hij Ha Hb.
  - destruct i; discriminate.
  - destruct j as [|j]; [lia|]. simpl in Hb.
    destruct i as [|i]; simpl in Ha.
    + inversion Ha; subst. rewrite Forall_forall in Hx.
      apply Hx. eapply nth_error_In, Hb.
    + apply (IH i j); [lia | assumption | assumption].
Qed.

Lemma num_le_refl (a : number) : JS.isNaN a = false -> num_le a a.
Proof. intro H. destruct (num_le_total a a H H); assumption. Qed.

Lemma JS_floor_mono (a b : number) :
  num_le a b -> num_le (JS.floor a) (JS.floor b).
Proof.
  destruct a as [x| | |], b as [y| | |]; cbn [JS.floor num_le]; auto.
  intro H. rewrite <- Zle_Qle. apply Qfloor_resp_le. exact H.
Qed.

Lemma of_nat_le (m n : nat) : num_le (of_nat m) (of_nat n) <-> (m <= n)%nat.
Proof.
  unfold of_nat, num_le. rewrite <- Zle_Qle. lia.
Qed.

(** A higher win-percentage never gives a higher rank. *)
Lemma rank_antitone (n : nat) (p1 p2 : Q) (k1 k2 : nat) :
  0 <= p1 -> p1 <= p2 -> p2 <= 100 ->
  GroupingEngine.percentileIndex n (Fin p1) = of_nat k1 ->
  GroupingEngine.percentileIndex n (Fin p2) = of_nat k2 ->
  (k2 <= k1)%nat.
Proof.
  intros H0 H12 H100 E1 E2.
  destruct (percentile_factor p1) as [t1 [s1 [Ht1 [Hs1 [_ [Bs1 _]]]]]];
    [split; lra|].
  destruct (percentile_factor p2) as [t2 [s2 [Ht2 [Hs2 [_ [Bs2 _]]]]]];
    [split; lra|].
  pose proof (percentile_factor_antitone _ _ _ _ _ _ H12 Ht1 Ht2 Hs1 Hs2) as Hs.
  unfold GroupingEngine.percentileIndex in E1, E2.
  rewrite Ht1, Hs1 in E1. rewrite Ht2, Hs2 in E2.
  apply of_nat_le. rewrite <- E1, <- E2.
  apply JS_floor_mono.
  change (Binary64.mul (of_nat n) (Fin s2))
    with (Binary64.round (inject_Z (Z.of_nat n) * s2)).
  change (Binary64.mul (of_nat n) (Fin s1))
    with (Binary64.round (inject_Z (Z.of_nat n) * s1)).
  apply rounded_mono. apply Qmult_le_left; [|exact Hs].
  change 0 with (inject_Z 0). rewrite <- Zle_Qle. lia.
Qed.

(** At 100 the rank is 0. *)
Lemma rank_at_100 (n : nat) :
  GroupingEngine.percentileIndex n (Fin 100) = of_nat 0.
Proof.
  unfold GroupingEngine.percentileIndex.
  replace (Binary64.sub (Fin 1) (Binary64.div (Fin 100) (Fin 100)))
    with (Fin 0) by (vm_compute; reflexivity).
  change (Binary64.mul (of_nat n) (Fin 0))
    with (Binary64.round (inject_Z (Z.of_nat n) * 0)).
  rewrite (round_Qeq _ 0) by ring. reflexivity.
Qed.

Lemma riseSols_In (tokens : list TokenInfo) (v : number) :
  In v (GroupingEngine.riseSols tokens) ->
  In v (map GroupingEngine.riseSol tokens).
Proof.
  intro H. apply (Permutation_in _ (riseSols_perm tokens)) in H.
  apply filter_In in H. apply H.
Qed.

(** X5.  Asking for a higher win-percentage never raises the estimate: for
    [10^-12 <= p1 <= p2 <= 100] and a group of fewer than [2^32] members
    the common rise at [p2] is at most the one at [p1]; both are rises of
    members of the group, and at 100 the estimate is the smallest rise. *)
Theorem common_rise_is_antitone :
  forall (tokens : list TokenInfo) (p1 p2 : Q),
    GroupingEngine.riseSols tokens <> [] ->
    (Z.of_nat (length tokens) < 2 ^ 32)%Z ->
    1 # 1000000000000 <= p1 -> p1 <= p2 -> p2 <= 100 ->
    exists v1 v2 v100,
      GroupingEngine.commonRiseSol tokens (Fin p1) = Some v1
      /\ GroupingEngine.commonRiseSol tokens (Fin p2) = Some v2
      /\ GroupingEngine.commonRiseSol tokens (Fin 100) = Some v100
      /\ num_le v2 v1
      /\ In v1 (map GroupingEngine.riseSol tokens)
      /\ In v2 (map GroupingEngine.riseSol tokens)
      /\ Forall (num_le v100) (GroupingEngine.riseSols tokens).
Proof.
  intros tokens p1 p2 Hne Hlen Hp1 H12 Hp2.
  destruct (commonRiseSol_rank tokens p1 Hne) as [k1 [Hi1 [Hk1 He1]]];
    [split; lra | exact Hlen|].
  destruct (commonRiseSol_rank tokens p2 Hne) as [k2 [Hi2 [Hk2 He2]]];
    [split; lra | exact Hlen|].
  destruct (commonRiseSol_rank tokens 100 Hne) as [k3 [Hi3 [Hk3 He3]]];
    [split; discriminate | exact Hlen|].
  pose proof (riseSols_sorted tokens) as Hsorted.
  pose proof (riseSols_not_NaN tokens) as Hnan.
  set (rs := GroupingEngine.riseSols tokens) in *.
  assert (Hk21 : (k2 <= k1)%nat).
  { apply (rank_antitone (length rs) p1 p2); try assumption. lra. }
  assert (E3 : k3 = 0%nat).
  { rewrite rank_at_100 in Hi3. unfold of_nat in Hi3.
    inversion Hi3 as [Hz]. lia. }
  subst k3.
  destruct (nth_error rs k1) as [v1|] eqn:E1;
    [|apply nth_error_None in E1; lia].
  destruct (nth_error rs k2) as [v2|] eqn:E2;
    [|apply nth_error_None in E2; lia].
  destruct rs as [|v100 rest] eqn:Ers; [contradiction|].
  exists v1, v2, v100. simpl in He3.
  split; [exact He1|]. split; [exact He2|]. split; [exact He3|].
  rewrite Forall_forall in Hnan.
  split.
  { destruct (Nat.eq_dec k2 k1) as [Heq|Hneq].
    - rewrite Heq, E1 in E2. inversion E2; subst.
      apply num_le_refl, Hnan. eapply nth_error_In, E1.
    - apply (StronglySorted_nth_error num_le (v100 :: rest) k2 k1);
        [exact Hsorted | lia | exact E2 | exact E1]. }
  split; [apply riseSols_In; fold rs; rewrite Ers; eapply nth_error_In, E1|].
  split; [apply riseSols_In; fold rs; rewrite Ers; eapply nth_error_In, E2|].
  constructor.
  - apply num_le_refl, Hnan. left; reflexivity.
  - inversion Hsorted; assumption.
Qed.

Lemma common_rise_is_antitone_witness :
  GroupingEngine.riseSols scenario_A <> []
  /\ (Z.of_nat (length scenario_A) < 2 ^ 32)%Z
  /\ 1 # 1000000000000 <= 50 /\ 50 <= 70 /\ 70 <= 100
  /\ exists v1 v2 v100,
       GroupingEngine.commonRiseSol scenario_A (Fin 50) = Some v1
       /\ GroupingEngine.commonRiseSol scenario_A (Fin 70) = Some v2
       /\ GroupingEngine.commonRiseSol scenario_A (Fin 100) = Some v100
       /\ num_le v2 v1
       /\ In v1 (map GroupingEngine.riseSol scenario_A)
       /\ In v2 (map GroupingEngine.riseSol scenario_A)
       /\ Forall (num_le v100) (GroupingEngine.riseSols scenario_A).
Proof.
  split; [vm_compute; discriminate|].
  split; [reflexivity|].
  split; [discriminate|].
  split; [discriminate|].
  split; [discriminate|].
  apply (common_rise_is_antitone scenario_A 50 70).
  - vm_compute. discriminate.
  - reflexivity.
  - discriminate.
  - discriminate.
  - discriminate.
Defined.

(** ** Grouping on one key *)

Lemma pattern_id_eqb (t : TokenInfo) (id : GroupId.t) :
  GroupId.eqb (pattern_id (mintPattern t)) id = true ->
  id = pattern_id (mintPattern t).
Proof.
  destruct id as [[p|] [u|] [l|] [b|] [s|]]; unfold GroupId.eqb; simpl;
    rewrite ?andb_false_r; try discriminate.
  rewrite !andb_true_r. intro H. apply String.eqb_eq in H. subst. reflexivity.
Qed.

Lemma pattern_id_eqb_iff (p q : string) :
  GroupId.eqb (pattern_id p) (pattern_id q) = String.eqb p q.
Proof. unfold GroupId.eqb; simpl. rewrite !andb_true_r. reflexivity. Qed.

Lemma ForallOrdPairs_NoDup {B C : Type} (f : B -> C) (l : list B) :
  ForallOrdPairs (fun a b => f a <> f b) l -> NoDup (map f l).
Proof.
  induction 1 as [|x l Hx _ IH]; simpl; constructor; [|exact IH].
  intro Hin. apply in_map_iff in Hin. destruct Hin as [y [Hy Hyl]].
  rewrite Forall_forall in Hx. apply (Hx y Hyl). symmetry. exact Hy.
Qed.

Lemma ForallOrdPairs_impl {B : Type} (P : B -> Prop) (R R' : B -> B -> Prop)
      (l : list B) :
  (forall a b, P a -> P b -> R a b -> R' a b) ->
  Forall P l -> ForallOrdPairs R l -> ForallOrdPairs R' l.
Proof.
  intros H HP HR. induction HR as [|x l Hx _ IH]; constructor.
  - inversion HP as [|? ? Px Pl]; subst.
    rewrite Forall_forall in *. intros y Hy. apply H; auto.
  - apply IH. inversion HP; assumption.
Qed.

(** The rows obtained when grouping on the mint pattern alone. *)
Lemma pattern_rows (c : Criteria.t) (filters : Filters.t)
      (collection : list TokenInfo) :
  (forall t, GroupingEngine.groupId c t = pattern_id (mintPattern t)) ->
  exists rows,
    GroupingEngine.aggregate c filters collection = Ok rows
    /\ Forall row_wf rows
    /\ Forall (fun r =>
                 exists p,
                   Row.groupIdentifier r = pattern_id p
                   /\ Row.tokens r
                      = filter (fun t => String.eqb (mintPattern t) p)
                          (filter (GroupingEngine.matchQuery filters) collection))
              rows
    /\ NoDup (map Row.groupIdentifier rows).
Proof.
  intro Hkey.
  destruct (aggregate_identity c filters collection) as [rows [Hagg [Hmem Hdist]]].
  destruct (aggregate_rows c filters collection) as [rows' [Hagg' Hwf]].
  assert (rows' = rows) by congruence. subst rows'.
  exists rows. split; [exact Hagg|]. split; [exact Hwf|].
  assert (Hids : Forall (fun r =>
                   exists p,
                     Row.groupIdentifier r = pattern_id p
                     /\ Row.tokens r
                        = filter (fun t => String.eqb (mintPattern t) p)
                            (filter (GroupingEngine.matchQuery filters) collection))
                 rows).
  { rewrite Forall_forall in *. intros r Hr.
    pose proof (Hmem r Hr) as Htok. destruct (Hwf r Hr) as [Hne _].
    destruct (Row.tokens r) as [|t0 rest] eqn:E; [contradiction|].
    assert (Hin : In t0 (filter (fun t => GroupId.eqb (GroupingEngine.groupId c t)
                                             (Row.groupIdentifier r))
                           (filter (GroupingEngine.matchQuery filters) collection))).
    { rewrite <- Htok. left; reflexivity. }
    apply filter_In in Hin. destruct Hin as [_ Hid].
    rewrite Hkey in Hid. apply pattern_id_eqb in Hid.
    exists (mintPattern t0). split; [exact Hid|].
    rewrite Htok, Hid. apply filter_ext. intro t.
    rewrite Hkey, pattern_id_eqb_iff. reflexivity. }
  split; [exact Hids|].
  apply (ForallOrdPairs_NoDup Row.groupIdentifier).
  eapply ForallOrdPairs_impl; [|exact Hwf|exact Hdist].
  intros a b _ _ Hab Heq. cbv beta in Hab.
  rewrite Heq, GroupId_eqb_refl in Hab. discriminate.
Qed.

(** X6.  Grouping by the single key [mintPattern] yields one group per
    mint pattern that occurs among the matched records: a group's members
    are exactly the matched records with its pattern, and no pattern has
    two groups. *)
Theorem one_group_per_mint_pattern :
  forall (filters : Filters.t) (collection : list TokenInfo),
  exists rows,
    GroupingEngine.aggregate (GroupingQueries.criteria_of_key key_mintPattern)
                             filters collection = Ok rows
    /\ GroupingQueries.fetchTokenGroupsByKey key_mintPattern filters collection
       = Ok (map (GroupingEngine.stats (default (Fin 70) (Filters.winPercent filters)))
                 rows)
    /\ Forall (fun r =>
                 exists p,
                   Stats.groupIdentifier
                     (GroupingEngine.stats
                        (default (Fin 70) (Filters.winPercent filters)) r)
                   = pattern_id p
                   /\ Row.tokens r
                      = filter (fun t => String.eqb (mintPattern t) p)
                          (filter (GroupingEngine.matchQuery filters) collection)
                   /\ Row.tokens r <> [])
              rows
    /\ NoDup (map Stats.groupIdentifier
                  (map (GroupingEngine.stats
                          (default (Fin 70) (Filters.winPercent filters))) rows)).
Proof.
  intros filters collection.
  destruct (pattern_rows (GroupingQueries.criteria_of_key key_mintPattern)
              filters collection) as [rows [Hagg [Hwf [Hids Hnd]]]];
    [intro t; reflexivity|].
  exists rows. split; [exact Hagg|].
  split.
  { unfold GroupingQueries.fetchTokenGroupsByKey,
           GroupingEngine.fetchProfitableTokenGroupsWithMigration.
    rewrite Hagg. reflexivity. }
  split.
  - rewrite Forall_forall in *. intros r Hr.
    destruct (Hids r Hr) as [p [Hp Htok]]. exists p.
    split; [exact Hp|]. split; [exact Htok|]. apply (Hwf r Hr).
  - rewrite map_map. exact Hnd.
Qed.

(** ** Sorting what is already sorted, and sorting by a numeric key *)

Lemma sort_by_sorted_id {A : Type} (leb : A -> A -> bool) (l : list A) :
  StronglySorted (fun a b => leb a b = true) l -> sort_by leb l = l.
Proof.
  induction 1 as [|x l Hs IH Hx]; simpl; [reflexivity|].
  rewrite IH. destruct l as [|y l]; [reflexivity|]. simpl.
  inversion Hx as [|? ? Hxy _]; subst. rewrite Hxy. reflexivity.
Qed.

Lemma descending_num_le (a b : number) :
  JS.isNaN a = false -> JS.isNaN b = false ->
  (JS.descending a b = true <-> num_le b a).
Proof.
  intros Ha Hb. change (JS.descending a b) with (JS.ascending b a).
  apply ascending_num_le; assumption.
Qed.

Lemma sort_descending_sorted {A : Type} (f : A -> number) (l : list A) :
  Forall (fun x => JS.isNaN (f x) = false) l ->
  StronglySorted (fun a b => num_le (f b) (f a))
                 (sort_by (fun a b => JS.descending (f a) (f b)) l).
Proof.
  intro Hl.
  apply (StronglySorted_weaken (fun x => JS.isNaN (f x) = false)
           (fun a b => JS.descending (f a) (f b) = true)).
  - intros a b Ha Hb. apply descending_num_le; assumption.
  - apply sort_by_Forall, Hl.
  - apply (sort_by_sorted (fun a b => JS.descending (f a) (f b))
             (fun x => JS.isNaN (f x) = false)).
    + intros a b Ha Hb.
      destruct (num_le_total (f a) (f b) Ha Hb) as [H|H]; [right | left];
        apply descending_num_le; assumption.
    + intros a b c Ha Hb Hc Hab Hbc.
      apply descending_num_le; [assumption..|].
      apply (num_le_trans (f c) (f b) (f a));
        apply descending_num_le; assumption.
    + exact Hl.
Qed.

Lemma ge_not_NaN (a b : number) : JS.ge a b = true -> JS.isNaN a = false.
Proof. destruct a; simpl; try reflexivity. discriminate. Qed.

(** The groups come out of the engine in the order the comparator
    [(a, b) => b.migrationRate - a.migrationRate] asks for. *)
Lemma fetch_sorted_descending (c : Criteria.t) (filters : Filters.t)
      (collection : list TokenInfo) :
  exists groups,
    GroupingEngine.fetchProfitableTokenGroupsWithMigration c filters collection
    = Ok groups
    /\ Forall stats_wf groups
    /\ StronglySorted ranks_before groups
    /\ StronglySorted
         (fun a b => JS.descending (Stats.migrationRate a) (Stats.migrationRate b)
                     = true)
         groups.
Proof.
  destruct (fetch_sums c filters collection) as [groups [Hfetch [Hwf _]]].
  destruct (fetch_ranked c filters collection) as [groups' [Hfetch' Hsorted]].
  assert (groups' = groups) by congruence. subst groups'.
  exists groups. split; [exact Hfetch|]. split; [exact Hwf|].
  split; [exact Hsorted|].
  apply (StronglySorted_weaken stats_wf ranks_before); [|exact Hwf|exact Hsorted].
  intros a b Ha Hb [Hab _].
  destruct (stats_wf_rate a Ha) as [qa [Hqa _]].
  destruct (stats_wf_rate b Hb) as [qb [Hqb _]].
  apply descending_num_le; [rewrite Hqa; reflexivity | rewrite Hqb; reflexivity|].
  exact Hab.
Qed.

(** ** The ready-made query patterns *)

(** X7.  [getConsistentPerformers] returns the groups of the engine that
    reach both thresholds, in the engine's order: the sort by migration
    rate applied after the filter never moves a group. *)
Theorem consistent_performers_keep_engine_order :
  forall (minMigrationRate minTokens : option number)
         (collection : list TokenInfo),
  exists allGroups,
    GroupingEngine.fetchProfitableTokenGroupsWithMigration
      CommonQueries.pattern_price
      (CommonQueries.filters_of (Some (Fin 1)) None) collection = Ok allGroups
    /\ CommonQueries.getConsistentPerformers minMigrationRate minTokens collection
       = Ok (filter (fun g =>
                       JS.ge (Stats.migrationRate g)
                             (default (Fin 70) minMigrationRate)
                       && JS.ge (of_nat (Stats.totalTokens g))
                                (default (Fin 5) minTokens))
                    allGroups)
    /\ StronglySorted ranks_before
         (filter (fun g =>
                    JS.ge (Stats.migrationRate g)
                          (default (Fin 70) minMigrationRate)
                    && JS.ge (of_nat (Stats.totalTokens g))
                             (default (Fin 5) minTokens))
                 allGroups).
Proof.
  intros minMigrationRate minTokens collection.
  destruct (fetch_sorted_descending CommonQueries.pattern_price
              (CommonQueries.filters_of (Some (Fin 1)) None) collection)
    as [groups [Hfetch [_ [Hranked Hsorted]]]].
  exists groups. split; [exact Hfetch|].
  split.
  - unfold CommonQueries.getConsistentPerformers. rewrite Hfetch. unfold bind.
    f_equal. apply sort_by_sorted_id.
    apply StronglySorted_filter. exact Hsorted.
  - apply StronglySorted_filter. exact Hranked.
Qed.

(** X8.  [getHighValueGroups] returns exactly the groups of the engine
    that reach both thresholds (each once), ordered by [avgMaxSol] from
    high to low. *)
Theorem high_value_groups_sorted :
  forall (minAvgSol minTokens : option number) (collection : list TokenInfo),
  exists allGroups out,
    GroupingEngine.fetchProfitableTokenGroupsWithMigration
      CommonQueries.pattern_price
      (CommonQueries.filters_of (Some (Fin 2)) None) collection = Ok allGroups
    /\ CommonQueries.getHighValueGroups minAvgSol minTokens collection = Ok out
    /\ Permutation out
         (filter (fun g =>
                    JS.ge (Stats.avgMaxSol g) (default (Fin 5) minAvgSol)
                    && JS.ge (of_nat (Stats.totalTokens g))
                             (default (Fin 3) minTokens))
                 allGroups)
    /\ StronglySorted (fun a b => num_le (Stats.avgMaxSol b) (Stats.avgMaxSol a))
                      out
    /\ Forall (fun g =>
                 JS.ge (Stats.avgMaxSol g) (default (Fin 5) minAvgSol) = true
                 /\ JS.ge (of_nat (Stats.totalTokens g))
                          (default (Fin 3) minTokens) = true)
              out.
Proof.
  intros minAvgSol minTokens collection.
  destruct (fetch_sums CommonQueries.pattern_price
              (CommonQueries.filters_of (Some (Fin 2)) None) collection)
    as [groups [Hfetch _]].
  exists groups. eexists. split; [exact Hfetch|].
  unfold CommonQueries.getHighValueGroups. rewrite Hfetch. unfold bind.
  split; [reflexivity|].
  set (kept := filter _ groups).
  assert (Hkept : Forall (fun g =>
                    JS.ge (Stats.avgMaxSol g) (default (Fin 5) minAvgSol) = true
                    /\ JS.ge (of_nat (Stats.totalTokens g))
                             (default (Fin 3) minTokens) = true) kept).
  { apply Forall_forall. intros g Hg. apply filter_In in Hg.
    destruct Hg as [_ Hg]. apply andb_true_iff in Hg. exact Hg. }
  split; [apply sort_by_perm|].
  split.
  - apply (sort_descending_sorted Stats.avgMaxSol).
    eapply Forall_impl; [|exact Hkept]. intros g [Hg _].
    apply (ge_not_NaN _ _ Hg).
  - apply sort_by_Forall. exact Hkept.
Qed.

Lemma ge_weaken (a : number) (x y : Q) :
  y <= x -> JS.ge a (Fin x) = true -> JS.ge a (Fin y) = true.
Proof.
  intros Hyx. destruct a as [q| | |]; simpl; try discriminate; try reflexivity.
  rewrite !negb_true_iff, !Qltb_false. intro H. lra.
Qed.

Lemma count_group_fold (groups : list Stats.t) (d : Distribution.buckets) :
  let rate := Stats.migrationRate in
  let counted := fold_left CommonQueries.count_group groups d in
  Distribution.veryHigh counted
  = (Distribution.veryHigh d
     + length (filter (fun g => JS.ge (rate g) (Fin 90)) groups))%nat
  /\ Distribution.high counted
     = (Distribution.high d
        + length (filter (fun g => negb (JS.ge (rate g) (Fin 90))
                                   && JS.ge (rate g) (Fin 70)) groups))%nat
  /\ Distribution.medium counted
     = (Distribution.medium d
        + length (filter (fun g => negb (JS.ge (rate g) (Fin 70))
                                   && JS.ge (rate g) (Fin 50)) groups))%nat
  /\ Distribution.low counted
     = (Distribution.low d
        + length (filter (fun g => negb (JS.ge (rate g) (Fin 50))
                                   && JS.ge (rate g) (Fin 30)) groups))%nat
  /\ Distribution.veryLow counted
     = (Distribution.veryLow d
        + length (filter (fun g => negb (JS.ge (rate g) (Fin 30))) groups))%nat
  /\ (Distribution.veryHigh counted + Distribution.high counted
      + Distribution.medium counted + Distribution.low counted
      + Distribution.veryLow counted
      = Distribution.veryHigh d + Distribution.high d + Distribution.medium d
        + Distribution.low d + Distribution.veryLow d + length groups)%nat.
Proof.
  cbv zeta. revert d. induction groups as [|g groups IH]; intro d; simpl.
  - repeat split; lia.
  - destruct (IH (CommonQueries.count_group d g)) as [H1 [H2 [H3 [H4 [H5 H6]]]]].
    rewrite H6, H1, H2, H3, H4, H5. clear H1 H2 H3 H4 H5 H6 IH.
    unfold CommonQueries.count_group. cbv zeta.
    pose proof (ge_weaken (Stats.migrationRate g) 90 70 ltac:(discriminate)) as W1.
    pose proof (ge_weaken (Stats.migrationRate g) 70 50 ltac:(discriminate)) as W2.
    pose proof (ge_weaken (Stats.migrationRate g) 50 30 ltac:(discriminate)) as W3.
    destruct (JS.ge (Stats.migrationRate g) (Fin 90)) eqn:E90;
      destruct (JS.ge (Stats.migrationRate g) (Fin 70)) eqn:E70;
      destruct (JS.ge (Stats.migrationRate g) (Fin 50)) eqn:E50;
      destruct (JS.ge (Stats.migrationRate g) (Fin 30)) eqn:E30;
      try (specialize (W1 eq_refl); discriminate);
      try (specialize (W2 eq_refl); discriminate);
      try (specialize (W3 eq_refl); discriminate);
      simpl; repeat split; lia.
Qed.

(** X9.  [getMigrationRateDistribution] puts every group in exactly one of
    its five counters, which therefore add up to [totalGroups]; the
    counters count the rates [>= 90], [70 <= . < 90], [50 <= . < 70],
    [30 <= . < 50] and [< 30].  The average rate lies between 0 and 100
    when there is a group and is NaN when there is none (the division is
    not guarded). *)
Theorem distribution_counts_every_group_once :
  forall (minSol : option number) (collection : list TokenInfo),
  exists allGroups d,
    GroupingEngine.fetchProfitableTokenGroupsWithMigration
      CommonQueries.pattern_only
      (CommonQueries.filters_of (Some (default (Fin 1) minSol)) None) collection
    = Ok allGroups
    /\ CommonQueries.getMigrationRateDistribution minSol collection = Ok d
    /\ Distribution.totalGroups d = length allGroups
    /\ (Distribution.veryHigh (Distribution.distribution d)
        + Distribution.high (Distribution.distribution d)
        + Distribution.medium (Distribution.distribution d)
        + Distribution.low (Distribution.distribution d)
        + Distribution.veryLow (Distribution.distribution d)
        = Distribution.totalGroups d)%nat
    /\ Distribution.veryHigh (Distribution.distribution d)
       = length (filter (fun g => JS.ge (Stats.migrationRate g) (Fin 90)) allGroups)
    /\ Distribution.high (Distribution.distribution d)
       = length (filter (fun g => negb (JS.ge (Stats.migrationRate g) (Fin 90))
                                  && JS.ge (Stats.migrationRate g) (Fin 70))
                        allGroups)
    /\ Distribution.medium (Distribution.distribution d)
       = length (filter (fun g => negb (JS.ge (Stats.migrationRate g) (Fin 70))
                                  && JS.ge (Stats.migrationRate g) (Fin 50))
                        allGroups)
    /\ Distribution.low (Distribution.distribution d)
       = length (filter (fun g => negb (JS.ge (Stats.migrationRate g) (Fin 50))
                                  && JS.ge (Stats.migrationRate g) (Fin 30))
                        allGroups)
    /\ Distribution.veryLow (Distribution.distribution d)
       = length (filter (fun g => negb (JS.ge (Stats.migrationRate g) (Fin 30)))
                        allGroups)
    /\ (if (0 <? Distribution.totalGroups d)%nat
        then num_le (Fin 0) (Distribution.avgMigrationRate d)
             /\ num_le (Distribution.avgMigrationRate d) (Fin 100)
        else Distribution.avgMigrationRate d = NaN).
Proof.
  intros minSol collection.
  destruct (fetch_sums CommonQueries.pattern_only
              (CommonQueries.filters_of (Some (default (Fin 1) minSol)) None)
              collection) as [groups [Hfetch [Hwf _]]].
  exists groups. eexists. split; [exact Hfetch|].
  unfold CommonQueries.getMigrationRateDistribution. rewrite Hfetch. unfold bind.
  split; [reflexivity|].
  cbn [Distribution.totalGroups Distribution.distribution
       Distribution.avgMigrationRate].
  destruct (count_group_fold groups CommonQueries.no_group)
    as [H1 [H2 [H3 [H4 [H5 H6]]]]].
  cbv zeta in *. simpl in H1, H2, H3, H4, H5, H6.
  split; [reflexivity|]. split; [exact H6|].
  split; [exact H1|]. split; [exact H2|]. split; [exact H3|].
  split; [exact H4|]. split; [exact H5|].
  destruct (0 <? length groups)%nat eqn:Eg.
  - apply Nat.ltb_lt in Eg.
    destruct (reduce_number_bounded groups Hwf) as [s [-> Hs]].
    destruct (average_rate_bounded s (length groups) Eg Hs) as [a [-> Ba]].
    split; apply Ba.
  - apply Nat.ltb_ge in Eg.
    assert (Hnil : groups = []) by (destruct groups; [reflexivity | simpl in Eg; lia]).
    subst groups. reflexivity.
Qed.

(** ** The token queries *)

Lemma StronglySorted_app_inv {A : Type} (R : A -> A -> Prop) (l1 l2 : list A) :
  StronglySorted R (l1 ++ l2) ->
  Forall (fun a => Forall (R a) l2) l1.
Proof.
  induction l1 as [|a l1 IH]; simpl; intro Hs.
  - constructor.
  - inversion Hs as [|? ? Hs' Hall]; subst. constructor.
    + apply Forall_app in Hall. exact (proj2 Hall).
    + apply IH. exact Hs'.
Qed.

Lemma sort_bson_descending {A : Type} (field : A -> number) (l : list A) :
  StronglySorted (fun a b => bson_le (field b) (field a))
                 (sort_by (ThresholdSimulator.descending field) l).
Proof.
  apply StronglySorted_weaken
    with (P := fun _ => True)
         (R := fun a b => ThresholdSimulator.descending field a b = true).
  - intros a b _ _ H. apply gte_bson_le. exact H.
  - apply Forall_forall. intros; exact I.
  - apply sort_by_sorted with (P := fun _ => True).
    + intros a b _ _. unfold ThresholdSimulator.descending.
      rewrite !gte_bson_le. destruct (bson_le_total (field a) (field b)); auto.
    + intros a b c _ _ _. unfold ThresholdSimulator.descending.
      rewrite !gte_bson_le. intros H1 H2. eapply bson_le_trans; eauto.
    + apply Forall_forall. intros; exact I.
Qed.

(** The first [k] documents of a descending [$sort]: they and the
    documents left out are the input, they are sorted, and no document
    left out has a larger field than one that was kept. *)
Lemma top_by_field {A : Type} (field : A -> number) (k : nat) (l : list A) :
  let sorted := sort_by (ThresholdSimulator.descending field) l in
  Permutation (firstn k sorted ++ skipn k sorted) l
  /\ length (firstn k sorted) = Nat.min k (length l)
  /\ StronglySorted (fun a b => bson_le (field b) (field a)) (firstn k sorted)
  /\ Forall (fun t => Forall (fun r => bson_le (field r) (field t))
                             (skipn k sorted))
            (firstn k sorted).
Proof.
  intro sorted.
  pose proof (sort_bson_descending field l) as Hs. fold sorted in Hs.
  split; [rewrite firstn_skipn; apply sort_by_perm|].
  split; [rewrite length_firstn; unfold sorted; rewrite sort_by_length;
          reflexivity|].
  split; [apply StronglySorted_firstn; exact Hs|].
  rewrite <- (firstn_skipn k sorted) in Hs.
  apply StronglySorted_app_inv in Hs.
  eapply Forall_impl; [|exact Hs]. intros a Ha. exact Ha.
Qed.

Lemma limit_rejects {A : Type} (n : number) (docs : list A) :
  (forall k, ~ num_eq n (of_nat (S k))) ->
  Mongo.limit n docs = Err InvalidLimit.
Proof.
  intro Hn. unfold Mongo.limit. destruct n as [q| | |]; try reflexivity.
  destruct (Qle_bool 1 q) eqn:E1; [|reflexivity].
  destruct (Qeq_bool q (inject_Z (Qfloor q))) eqn:E2; [|reflexivity].
  exfalso. apply Qle_bool_iff in E1. apply Qeq_bool_iff in E2.
  assert (Hf : (1 <= Qfloor q)%Z).
  { rewrite E2 in E1. change 1 with (inject_Z 1) in E1.
    rewrite <- Zle_Qle in E1. exact E1. }
  apply (Hn (Z.to_nat (Qfloor q) - 1)%nat). unfold of_nat, num_eq.
  replace (Z.of_nat (S (Z.to_nat (Qfloor q) - 1))) with (Qfloor q) by lia.
  exact E2.
Qed.

Lemma filter_Forall {A : Type} (f : A -> bool) (l : list A) :
  Forall (fun x => f x = true) (filter f l).
Proof.
  apply Forall_forall. intros x Hx. apply filter_In in Hx. exact (proj2 Hx).
Qed.

Lemma firstn_Forall {A : Type} (P : A -> Prop) (n : nat) (l : list A) :
  Forall P l -> Forall P (firstn n l).
Proof.
  intro H. apply Forall_forall. intros x Hx.
  rewrite Forall_forall in H. apply H.
  rewrite <- (firstn_skipn n l). apply in_or_app. left. exact Hx.
Qed.

(** X10.  [findMostProfitableTokens] with a limit of [k + 1] returns the
    [k + 1] records of largest rise among those whose rise reaches
    [minRiseSol] (all of them when there are fewer), largest first: the
    records kept and the records left out are the matching records, and
    no record left out rises more than one that was kept.  The default
    limit is 20, and a limit that is not a positive integer makes the
    aggregation fail. *)
Theorem most_profitable_tokens_are_the_top :
  (forall (k : nat) (minRiseSol : option number) (collection : list TokenInfo),
      let rise := ThresholdSimulator.riseSol in
      let matched :=
        filter (fun t => Mongo.match_gte (rise t) (default (Fin 0) minRiseSol))
               collection in
      exists top rest,
        TokenQueries.findMostProfitableTokens (Some (of_nat (S k))) minRiseSol
                                              collection
        = Ok (map TokenQueries.profitable top)
        /\ Permutation (top ++ rest) matched
        /\ length top = Nat.min (S k) (length matched)
        /\ StronglySorted (fun a b => bson_le (rise b) (rise a)) top
        /\ Forall (fun t => Forall (fun r => bson_le (rise r) (rise t)) rest) top
        /\ Forall (fun t => Mongo.match_gte (rise t) (default (Fin 0) minRiseSol)
                            = true) top)
  /\ (forall (minRiseSol : option number) (collection : list TokenInfo),
         TokenQueries.findMostProfitableTokens None minRiseSol collection
         = TokenQueries.findMostProfitableTokens (Some (of_nat 20)) minRiseSol
                                                 collection)
  /\ (forall (limit minRiseSol : option number) (collection : list TokenInfo),
         (forall k, ~ num_eq (default (Fin 20) limit) (of_nat (S k))) ->
         TokenQueries.findMostProfitableTokens limit minRiseSol collection
         = Err InvalidLimit).
Proof.
  split; [|split].
  - intros k minRiseSol collection rise matched.
    destruct (top_by_field rise (S k) matched) as [Hp [Hl [Hs Ht]]].
    cbv zeta in Hp, Hl, Hs, Ht.
    exists (firstn (S k) (sort_by (ThresholdSimulator.descending rise) matched)),
           (skipn (S k) (sort_by (ThresholdSimulator.descending rise) matched)).
    split.
    { unfold TokenQueries.findMostProfitableTokens. cbv zeta.
      change (default (Fin 20) (Some (of_nat (S k)))) with (of_nat (S k)).
      rewrite limit_count. reflexivity. }
    split; [exact Hp|]. split; [exact Hl|]. split; [exact Hs|].
    split; [exact Ht|].
    apply firstn_Forall. apply sort_by_Forall.
    apply (filter_Forall
             (fun t => Mongo.match_gte (rise t) (default (Fin 0) minRiseSol))).
  - intros minRiseSol collection. reflexivity.
  - intros limit minRiseSol collection Hn.
    unfold TokenQueries.findMostProfitableTokens. cbv zeta.
    rewrite limit_rejects by exact Hn. reflexivity.
Qed.

Lemma most_profitable_tokens_are_the_top_witness :
  (forall k, ~ num_eq (default (Fin 20) (Some (Fin (5 # 2)))) (of_nat (S k)))
  /\ TokenQueries.findMostProfitableTokens (Some (Fin (5 # 2))) None scenario_A
     = Err InvalidLimit.
Proof.
  assert (H : forall k,
             ~ num_eq (default (Fin 20) (Some (Fin (5 # 2)))) (of_nat (S k))).
  { intros k Hk. unfold of_nat, num_eq, default, Qeq in Hk. simpl in Hk. lia. }
  split; [exact H|].
  exact (proj2 (proj2 most_profitable_tokens_are_the_top)
               (Some (Fin (5 # 2))) None scenario_A H).
Defined.

(** X11.  [findHighLiquidityTokens] returns the 50 records of largest
    [maxSol] among those with [maxSol >= minMaxSol] (all of them when
    there are fewer), largest first; no record left out has a larger
    [maxSol] than one that was returned. *)
Theorem high_liquidity_tokens_are_the_top :
  forall (minMaxSol : option number) (collection : list TokenInfo),
    let matched :=
      filter (fun t => Mongo.match_gte (maxSol t) (default (Fin 5) minMaxSol))
             collection in
    let top := TokenQueries.findHighLiquidityTokens minMaxSol collection in
    exists rest,
      Permutation (top ++ rest) matched
      /\ length top = Nat.min 50 (length matched)
      /\ StronglySorted (fun a b => bson_le (maxSol b) (maxSol a)) top
      /\ Forall (fun t => Forall (fun r => bson_le (maxSol r) (maxSol t)) rest) top
      /\ Forall (fun t => Mongo.match_gte (maxSol t) (default (Fin 5) minMaxSol)
                          = true) top.
Proof.
  intros minMaxSol collection matched top.
  destruct (top_by_field maxSol 50 matched) as [Hp [Hl [Hs Ht]]].
  cbv zeta in Hp, Hl, Hs, Ht.
  exists (skipn 50 (sort_by (ThresholdSimulator.descending maxSol) matched)).
  split; [exact Hp|]. split; [exact Hl|]. split; [exact Hs|].
  split; [exact Ht|].
  apply firstn_Forall. apply sort_by_Forall.
  apply (filter_Forall
           (fun t => Mongo.match_gte (maxSol t) (default (Fin 5) minMaxSol))).
Qed.

(** X12.  [getLatestToken] returns null exactly on an empty collection;
    otherwise it returns a record of the collection whose [createdAt] is
    not exceeded by any other. *)
Theorem latest_token_is_newest :
  forall collection : list TokenInfo,
    match TokenQueries.getLatestToken collection with
    | None => collection = []
    | Some t =>
        In t collection
        /\ Forall (fun u => bson_le (createdAt u) (createdAt t)) collection
    end.
Proof.
  intro collection. unfold TokenQueries.getLatestToken.
  pose proof (sort_bson_descending createdAt collection) as Hs.
  pose proof (sort_by_perm (ThresholdSimulator.descending createdAt) collection)
    as Hp.
  destruct (sort_by (ThresholdSimulator.descending createdAt) collection)
    as [|t rest]; simpl.
  - apply Permutation_nil. exact Hp.
  - split.
    + apply (Permutation_in t Hp). left. reflexivity.
    + inversion Hs as [|? ? _ Hall]; subst.
      apply (Permutation_Forall Hp). constructor.
      * apply bson_le_refl.
      * exact Hall.
Qed.

Lemma list_sum_perm (l l' : list nat) :
  Permutation l l' -> list_sum l = list_sum l'.
Proof.
  induction 1; simpl; lia.
Qed.

Lemma filter_filter_sub {A : Type} (f g : A -> bool) (l : list A) :
  (forall x, f x = true -> g x = true) ->
  filter f (filter g l) = filter f l.
Proof.
  intro Hsub. induction l as [|x l IH]; simpl; [reflexivity|].
  destruct (g x) eqn:Eg; simpl.
  - rewrite IH. reflexivity.
  - destruct (f x) eqn:Ef; [|exact IH].
    rewrite (Hsub x Ef) in Eg. discriminate.
Qed.

Lemma leb_count_sorted {A : Type} (count : A -> nat) (l : list A) :
  StronglySorted (fun a b => (count b <= count a)%nat)
                 (sort_by (fun a b => (count b <=? count a)%nat) l).
Proof.
  apply StronglySorted_weaken
    with (P := fun _ => True)
         (R := fun a b => (count b <=? count a)%nat = true).
  - intros a b _ _ H. apply Nat.leb_le. exact H.
  - apply Forall_forall. intros; exact I.
  - apply sort_by_sorted with (P := fun _ => True).
    + intros a b _ _. rewrite !Nat.leb_le. lia.
    + intros a b c _ _ _. rewrite !Nat.leb_le. lia.
    + apply Forall_forall. intros; exact I.
Qed.

(** The groups of [getPatternFrequency] before [$sort] and [$limit]. *)
Lemma pattern_groups (collection : list TokenInfo) :
  let matched :=
    filter (fun t => negb (String.eqb (mintPattern t) EmptyString)) collection in
  let gs := group_by mintPattern String.eqb matched in
  Forall (fun g =>
            fst g <> EmptyString
            /\ snd g = filter (fun t => String.eqb (mintPattern t) (fst g))
                              collection
            /\ snd g <> [])
         gs
  /\ NoDup (map fst gs)
  /\ Permutation (concat (map snd gs)) matched.
Proof.
  intros matched gs.
  destruct (group_by_grouped mintPattern String.eqb String.eqb_refl
              String.eqb_sym string_eqb_trans matched) as [Hg [Hk _]].
  fold gs in Hg, Hk.
  split; [|split].
  - eapply Forall_impl; [|exact Hg]. intros [p members]. simpl.
    intros [Hm Hne].
    assert (Hp : p <> EmptyString).
    { destruct members as [|t members]; [congruence|].
      assert (Hin : In t (filter (fun x => String.eqb (mintPattern x) p) matched)).
      { rewrite <- Hm. left. reflexivity. }
      apply filter_In in Hin. destruct Hin as [Hin Ht].
      apply filter_In in Hin. destruct Hin as [_ Hne'].
      apply String.eqb_eq in Ht. subst p.
      intro Heq. rewrite Heq in Hne'. discriminate. }
    split; [exact Hp|]. split; [|exact Hne].
    rewrite Hm. unfold matched. apply filter_filter_sub.
    intros x Hx. apply String.eqb_eq in Hx. subst p.
    apply negb_true_iff. apply String.eqb_neq. exact Hp.
  - rewrite <- (map_id (map fst gs)).
    apply ForallOrdPairs_NoDup with (f := fun p : string => p).
    eapply ForallOrdPairs_impl with (P := fun _ => True);
      [| apply Forall_forall; intros; exact I | exact Hk].
    intros a b _ _ Hab. apply String.eqb_neq. exact Hab.
  - apply group_by_perm.
Qed.

(** X13.  [getPatternFrequency] reports every non-empty mint pattern of
    the collection once, with the number of records that carry it (at
    least one) and their mint addresses; the counts add up to the number
    of records with a non-empty pattern; the patterns are listed by
    decreasing count and the first [limit] of them are returned. *)
Theorem pattern_frequency_counts :
  forall (k : nat) (collection : list TokenInfo),
  exists all,
    TokenQueries.getPatternFrequency (Some (of_nat (S k))) collection
    = Ok (firstn (S k) all)
    /\ Forall (fun d =>
                 let carriers :=
                   filter (fun t => String.eqb (mintPattern t) (Frequency._id d))
                          collection in
                 Frequency._id d <> EmptyString
                 /\ Frequency.count d = length carriers
                 /\ (1 <= Frequency.count d)%nat
                 /\ Frequency.tokens d = map mint carriers)
              all
    /\ NoDup (map Frequency._id all)
    /\ list_sum (map Frequency.count all)
       = length (filter (fun t => negb (String.eqb (mintPattern t) EmptyString))
                        collection)
    /\ StronglySorted (fun a b => (Frequency.count b <= Frequency.count a)%nat)
                      all.
Proof.
  intros k collection.
  destruct (pattern_groups collection) as [Hg [Hnd Hperm]]. cbv zeta in *.
  set (matched := filter (fun t => negb (String.eqb (mintPattern t) EmptyString))
                         collection) in *.
  set (gs := group_by mintPattern String.eqb matched) in *.
  set (leb := fun a b : Frequency.t => (Frequency.count b <=? Frequency.count a)%nat).
  exists (sort_by leb (map TokenQueries.frequency gs)).
  assert (Hp : Permutation (sort_by leb (map TokenQueries.frequency gs))
                           (map TokenQueries.frequency gs))
    by apply sort_by_perm.
  split.
  { unfold TokenQueries.getPatternFrequency. cbv zeta.
    change (default (Fin 20) (Some (of_nat (S k)))) with (of_nat (S k)).
    rewrite limit_count. reflexivity. }
  split.
  { apply sort_by_Forall. apply Forall_map.
    eapply Forall_impl; [|exact Hg]. intros [p members]. simpl.
    intros [Hne [Hm Hnil]]. split; [exact Hne|].
    rewrite <- Hm. split; [reflexivity|]. split; [|reflexivity].
    destruct members; [congruence|simpl; lia]. }
  split.
  { apply (Permutation_NoDup (l := map Frequency._id (map TokenQueries.frequency gs))).
    - apply Permutation_map. symmetry. exact Hp.
    - rewrite map_map.
      replace (map (fun x => Frequency._id (TokenQueries.frequency x)) gs)
        with (map fst gs); [exact Hnd|].
      apply map_ext. intros [p members]. reflexivity. }
  split.
  { rewrite (list_sum_perm _ _ (Permutation_map Frequency.count Hp)).
    rewrite map_map. rewrite <- (Permutation_length Hperm), length_concat, map_map.
    f_equal. apply map_ext. intros [p members]. reflexivity. }
  apply leb_count_sorted.
Qed.

(** ** Custom analysis and the deep dive *)

(** X14.  [customAnalysis] returns a prefix of a rearrangement of the
    engine's groups.  With the default sort key, [migrationRate], the
    groups are already in that order, so the result is the prefix of the
    engine's own list (its tie-break on the group size is kept); with
    [totalTokens] the result is sorted by decreasing group size. *)
Theorem custom_analysis_order :
  forall (c : Criteria.t) (filters : Filters.t) (limit : option number)
         (collection : list TokenInfo),
  exists groups,
    GroupingEngine.fetchProfitableTokenGroupsWithMigration c filters collection
    = Ok groups
    /\ CommonQueries.customAnalysis c filters None limit collection
       = Ok (JS.slice0 groups (default (Fin 10) limit))
    /\ CommonQueries.customAnalysis c filters (Some sort_migrationRate) limit
                                    collection
       = Ok (JS.slice0 groups (default (Fin 10) limit))
    /\ (forall sortBy : option SortKey,
         exists sorted m,
           CommonQueries.customAnalysis c filters sortBy limit collection
           = Ok (firstn m sorted)
           /\ Permutation sorted groups)
    /\ (exists bySize,
           CommonQueries.customAnalysis c filters (Some sort_totalTokens) limit
                                        collection = Ok bySize
           /\ StronglySorted
                (fun a b => (Stats.totalTokens b <= Stats.totalTokens a)%nat)
                bySize).
Proof.
  intros c filters limit collection.
  destruct (fetch_sorted_descending c filters collection)
    as [groups [Hfetch [_ [_ Hsorted]]]].
  exists groups. split; [exact Hfetch|].
  assert (Hdefault :
            CommonQueries.customAnalysis c filters (Some sort_migrationRate) limit
                                         collection
            = Ok (JS.slice0 groups (default (Fin 10) limit))).
  { unfold CommonQueries.customAnalysis. rewrite Hfetch. unfold bind. cbv zeta.
    f_equal. f_equal. apply sort_by_sorted_id. exact Hsorted. }
  split; [exact Hdefault|]. split; [exact Hdefault|]. split.
  - intro sortBy.
    set (key := CommonQueries.sort_key (default sort_migrationRate sortBy)).
    set (sorted := sort_by (fun a b => JS.descending (key a) (key b)) groups).
    destruct (slice0_prefix sorted (default (Fin 10) limit)) as [m Hm].
    exists sorted, m. split.
    + unfold CommonQueries.customAnalysis. rewrite Hfetch. unfold bind. cbv zeta.
      fold key. fold sorted. rewrite Hm. reflexivity.
    + apply sort_by_perm.
  - eexists. split.
    + unfold CommonQueries.customAnalysis. rewrite Hfetch. unfold bind. cbv zeta.
      reflexivity.
    + destruct (slice0_prefix
                  (sort_by (fun a b =>
                              JS.descending
                                (CommonQueries.sort_key sort_totalTokens a)
                                (CommonQueries.sort_key sort_totalTokens b))
                           groups)
                  (default (Fin 10) limit)) as [m Hm].
      change (default sort_migrationRate (Some sort_totalTokens))
        with sort_totalTokens.
      rewrite Hm. apply StronglySorted_firstn.
      apply StronglySorted_weaken
        with (P := fun _ => True)
             (R := fun a b => num_le (of_nat (Stats.totalTokens b))
                                     (of_nat (Stats.totalTokens a))).
      * intros a b _ _ H. apply of_nat_le. exact H.
      * apply Forall_forall. intros; exact I.
      * apply (sort_descending_sorted (fun g => of_nat (Stats.totalTokens g))).
        apply Forall_forall. intros; reflexivity.
Qed.

(** The [$match] stage of the two queries of [deepDivePattern]: the
    pattern is the only condition, and an empty pattern is none. *)
Lemma match_pattern (minMaxSol : option number) (pattern : string)
      (t : TokenInfo) :
  minMaxSol = None \/ minMaxSol = Some (Fin 0) ->
  GroupingEngine.matchQuery
    (CommonQueries.filters_of minMaxSol (Some pattern)) t
  = if String.eqb pattern EmptyString then true
    else String.eqb (mintPattern t) pattern.
Proof.
  intros [-> | ->]; unfold GroupingEngine.matchQuery; simpl;
    rewrite !andb_true_r; reflexivity.
Qed.

Lemma GroupId_eqb_pattern (a b : GroupId.t) :
  GroupId.eqb a b = true -> GroupId.mintPattern a = GroupId.mintPattern b.
Proof.
  unfold GroupId.eqb. rewrite !andb_true_iff. intros [[[[H _] _] _] _].
  destruct (GroupId.mintPattern a) as [p|], (GroupId.mintPattern b) as [q|];
    simpl in H; try discriminate; [|reflexivity].
  apply String.eqb_eq in H. subst q. reflexivity.
Qed.

Lemma NoDup_constant {A : Type} (a : A) (l : list A) :
  NoDup l -> Forall (fun x => x = a) l -> (length l <= 1)%nat.
Proof.
  intros Hnd Hall. destruct l as [|x [|y l]]; simpl; try lia.
  exfalso. inversion Hall as [|? ? Hx Hall']; subst.
  inversion Hall' as [|? ? Hy _]; subst.
  inversion Hnd as [|? ? Hnin _]; subst. apply Hnin. left. reflexivity.
Qed.

(** Every returned group is keyed by a record that passed the [$match]
    stage. *)
Lemma groups_key_rows (c : Criteria.t) (filters : Filters.t)
      (collection : list TokenInfo) :
  exists groups,
    GroupingEngine.fetchProfitableTokenGroupsWithMigration c filters collection
    = Ok groups
    /\ Forall (fun g =>
                 exists t,
                   In t (filter (GroupingEngine.matchQuery filters) collection)
                   /\ GroupId.mintPattern (Stats.groupIdentifier g)
                      = GroupId.mintPattern (GroupingEngine.groupId c t))
              groups.
Proof.
  destruct (aggregate_identity c filters collection) as [rows [Hagg [Hmem _]]].
  destruct (aggregate_rows c filters collection) as [rows' [Hagg' Hwf]].
  rewrite Hagg in Hagg'. injection Hagg' as <-.
  eexists. split.
  { unfold GroupingEngine.fetchProfitableTokenGroupsWithMigration.
    rewrite Hagg. reflexivity. }
  apply Forall_map. rewrite Forall_forall in *. intros r Hr.
  specialize (Hmem r Hr). destruct (Hwf r Hr) as [Hne _].
  destruct (Row.tokens r) as [|t members] eqn:Etok; [congruence|].
  assert (Hin : In t (filter (fun t0 => GroupId.eqb (GroupingEngine.groupId c t0)
                                                    (Row.groupIdentifier r))
                             (filter (GroupingEngine.matchQuery filters)
                                     collection))).
  { rewrite <- Hmem. left. reflexivity. }
  apply filter_In in Hin. destruct Hin as [Hin Heq].
  exists t. split; [exact Hin|].
  change (Stats.groupIdentifier
            (GroupingEngine.stats (default (Fin 70) (Filters.winPercent filters)) r))
    with (Row.groupIdentifier r).
  symmetry. apply GroupId_eqb_pattern. exact Heq.
Qed.

(** The summary of a grouping by mint pattern. *)
Lemma summary_of_pattern (filters : Filters.t) (collection : list TokenInfo) :
  exists s,
    GroupingQueries.getGroupingSummary CommonQueries.pattern_only filters
                                       collection = Ok s
    /\ Summary.totalTokens s
       = length (filter (GroupingEngine.matchQuery filters) collection)
    /\ Summary.totalMigrated s
       = length (filter migrated
                        (filter (GroupingEngine.matchQuery filters) collection))
    /\ forall pattern,
         (forall t, In t (filter (GroupingEngine.matchQuery filters) collection) ->
                    mintPattern t = pattern) ->
         (Summary.totalGroups s <= 1)%nat.
Proof.
  destruct (fetch_sums CommonQueries.pattern_only filters collection)
    as [groups [Hfetch [_ [Htot Hmig]]]].
  destruct (pattern_rows CommonQueries.pattern_only filters collection)
    as [rows [Hagg [Hwf [Hids Hnd]]]]; [intro t; reflexivity|].
  assert (Hgroups : groups
                    = map (GroupingEngine.stats
                             (default (Fin 70) (Filters.winPercent filters))) rows).
  { unfold GroupingEngine.fetchProfitableTokenGroupsWithMigration in Hfetch.
    rewrite Hagg in Hfetch. unfold bind in Hfetch. congruence. }
  unfold GroupingQueries.getGroupingSummary. rewrite Hfetch. unfold bind.
  eexists. split; [reflexivity|].
  cbn [Summary.totalTokens Summary.totalMigrated Summary.totalGroups].
  rewrite !reduce_count_sum, Htot, Hmig.
  split; [reflexivity|]. split; [reflexivity|].
  intros pattern Hall. rewrite Hgroups, length_map.
  rewrite <- (length_map Row.groupIdentifier).
  apply NoDup_constant with (a := pattern_id pattern); [exact Hnd|].
  apply Forall_map. rewrite Forall_forall in *. intros r Hr.
  destruct (Hids r Hr) as [p [Hp Htok]]. destruct (Hwf r Hr) as [Hne _].
  rewrite Hp. f_equal.
  destruct (Row.tokens r) as [|t members] eqn:Etok; [congruence|].
  assert (Hin : In t (filter (fun t0 => String.eqb (mintPattern t0) p)
                             (filter (GroupingEngine.matchQuery filters)
                                     collection))).
  { rewrite <- Htok. left. reflexivity. }
  apply filter_In in Hin. destruct Hin as [Hin Heq].
  apply String.eqb_eq in Heq. rewrite <- Heq. apply Hall. exact Hin.
Qed.

(** X15.  In the result of [deepDivePattern] the summary and the
    sub-groups describe the same records: the summary's totals are the
    sums over the sub-groups and count the records that carry the
    pattern.  For a non-empty pattern the summary covers at most one
    group and every sub-group is keyed by that pattern; an empty pattern
    filters nothing. *)
Theorem deep_dive_is_consistent :
  forall (pattern : string) (collection : list TokenInfo),
  exists d,
    CommonQueries.deepDivePattern pattern collection = Ok d
    /\ DeepDive.pattern d = pattern
    /\ Summary.totalTokens (DeepDive.summary d)
       = list_sum (map Stats.totalTokens (DeepDive.subGroups d))
    /\ Summary.totalMigrated (DeepDive.summary d)
       = list_sum (map Stats.migratedTokens (DeepDive.subGroups d))
    /\ Summary.totalTokens (DeepDive.summary d)
       = length (filter (fun t => if String.eqb pattern EmptyString then true
                                  else String.eqb (mintPattern t) pattern)
                        collection)
    /\ (if String.eqb pattern EmptyString
        then Summary.totalTokens (DeepDive.summary d) = length collection
        else (Summary.totalGroups (DeepDive.summary d) <= 1)%nat
             /\ Forall (fun g => GroupId.mintPattern (Stats.groupIdentifier g)
                                 = Some pattern)
                       (DeepDive.subGroups d)).
Proof.
  intros pattern collection.
  set (f0 := CommonQueries.filters_of (Some (Fin 0)) (Some pattern)).
  set (f1 := CommonQueries.filters_of None (Some pattern)).
  set (keep := fun t : TokenInfo =>
                 if String.eqb pattern EmptyString then true
                 else String.eqb (mintPattern t) pattern).
  assert (Hm0 : filter (GroupingEngine.matchQuery f0) collection
                = filter keep collection).
  { apply filter_ext. intro t. apply match_pattern. right. reflexivity. }
  assert (Hm1 : filter (GroupingEngine.matchQuery f1) collection
                = filter keep collection).
  { apply filter_ext. intro t. apply match_pattern. left. reflexivity. }
  destruct (fetch_sums CommonQueries.pattern_price_limit f0 collection)
    as [groups [Hfetch [_ [Htot Hmig]]]].
  destruct (groups_key_rows CommonQueries.pattern_price_limit f0 collection)
    as [groups' [Hfetch' Hkeys]].
  rewrite Hfetch in Hfetch'. injection Hfetch' as <-.
  destruct (summary_of_pattern f1 collection) as [s [Hsum [Hst [Hsm Hsg]]]].
  eexists. split.
  { unfold CommonQueries.deepDivePattern. fold f0 f1.
    rewrite Hfetch. unfold bind at 1. rewrite Hsum. unfold bind. reflexivity. }
  cbn [DeepDive.pattern DeepDive.summary DeepDive.subGroups].
  split; [reflexivity|].
  split; [rewrite Hst, Htot, Hm0, Hm1; reflexivity|].
  split; [rewrite Hsm, Hmig, Hm0, Hm1; reflexivity|].
  split; [rewrite Hst, Hm1; reflexivity|].
  destruct (String.eqb pattern EmptyString) eqn:Ep.
  - rewrite Hst, Hm1. unfold keep.
    f_equal. clear. induction collection as [|t l IH]; simpl; congruence.
  - split.
    + apply (Hsg pattern). intros t Ht. rewrite Hm1 in Ht. apply filter_In in Ht.
      destruct Ht as [_ Ht]. unfold keep in Ht.
      apply String.eqb_eq in Ht. exact Ht.
    + eapply Forall_impl; [|exact Hkeys]. intros g [t [Ht Hg]].
      rewrite Hm0 in Ht. apply filter_In in Ht. destruct Ht as [_ Ht].
      unfold keep in Ht. apply String.eqb_eq in Ht.
      rewrite Hg. simpl. rewrite Ht. reflexivity.
Qed.

(** ** The reports of the threshold simulator *)

(** Every report is the projection of a scored group of the pipeline. *)
Lemma report_of_group (options : Options.t) (startDate : number)
      (collection : list TokenInfo) (reports : list Report.t) :
  ThresholdSimulator.findProfitableTokenGroups options startDate collection = Ok reports ->
  Forall (fun r =>
            exists s,
              r = ThresholdSimulator.report s
              /\ In (Scored.group s)
                    (ThresholdSimulator.groups options startDate collection)
              /\ group_wf (Scored.group s)
              /\ Scored.thresholdScores s
                 = map (score_at (Scored.group s))
                       (ThresholdSimulator.thresholdCandidates (Scored.group s))
              /\ Scored.optimalThresholdData s
                 = ThresholdSimulator.best Score.profitabilityScore
                                           (Scored.thresholdScores s)
              /\ Scored.conservativeThresholdData s
                 = ThresholdSimulator.best Score.winRate (Scored.thresholdScores s)
              /\ Scored.aggressiveThresholdData s
                 = ThresholdSimulator.best Score.avgProfit
                                           (Scored.thresholdScores s))
         reports.
Proof.
  intro Hfind.
  destruct (find_reports options startDate collection reports Hfind)
    as [limited [-> Hall]].
  apply Forall_map. eapply Forall_impl; [|exact Hall].
  intros s [Hin Hs]. exists s. split; [reflexivity|]. split; [exact Hin|].
  pose proof (groups_wf options startDate collection) as Hwfs.
  rewrite Forall_forall in Hwfs. pose proof (Hwfs _ Hin) as Hwf.
  split; [exact Hwf|].
  unfold ThresholdSimulator.scored in Hs.
  rewrite (scores_of_group _ Hwf) in Hs. unfold bind in Hs.
  injection Hs as Hs. rewrite <- Hs. cbn. repeat split; reflexivity.
Qed.

Lemma scores_nonempty (g : Group.t) :
  map (score_at g) (ThresholdSimulator.thresholdCandidates g) <> [].
Proof.
  pose proof (candidates_nonempty g) as Hne.
  destruct (ThresholdSimulator.thresholdCandidates g);
    [contradiction | discriminate].
Qed.

(** Among the entries of one group the win rate orders as the win count. *)
Lemma win_rate_orders_counts (g : Group.t) (t1 t2 : number) :
  group_wf g ->
  bson_le (Score.winRate (score_at g t1)) (Score.winRate (score_at g t2)) ->
  (Score.winCount (score_at g t1) <= Score.winCount (score_at g t2))%nat.
Proof.
  intros [Hne [Htot _]] Hle.
  unfold score_at, score_of in *.
  cbn [Score.winRate Score.winCount] in *.
  set (w1 := Analysis.winCount
               (ThresholdSimulator.analysis
                  {| Simulation.threshold := t1;
                     Simulation.results :=
                       map (ThresholdSimulator.outcome t1) (Group.tokens g) |}))
    in *.
  set (w2 := Analysis.winCount
               (ThresholdSimulator.analysis
                  {| Simulation.threshold := t2;
                     Simulation.results :=
                       map (ThresholdSimulator.outcome t2) (Group.tokens g) |}))
    in *.
  apply bson_le_fin in Hle.
  assert (Hn : 0 < inject_Z (Z.of_nat (Group.totalTokens g))).
  { change 0 with (inject_Z 0). rewrite <- Zlt_Qlt. rewrite Htot.
    destruct (Group.tokens g); [contradiction | simpl; lia]. }
  assert (H12 : inject_Z (Z.of_nat w1) <= inject_Z (Z.of_nat w2)).
  { apply Qmult_le_r with (z := / inject_Z (Z.of_nat (Group.totalTokens g))).
    - apply Qinv_lt_0_compat. exact Hn.
    - exact Hle. }
  rewrite <- Zle_Qle in H12. lia.
Qed.

(** X16.  The three strategies of a report are consistent with the list
    of options they are picked from: each is an entry of
    [allThresholdOptions]; the conservative one has the largest win count
    of all entries, so at least that of the recommended and of the
    aggressive one; the aggressive one has the largest average profit;
    the recommended one has the largest profitability score. *)
Theorem strategies_are_consistent :
  forall (options : Options.t) (startDate : number) (collection : list TokenInfo)
         (reports : list Report.t),
    ThresholdSimulator.findProfitableTokenGroups options startDate collection = Ok reports ->
    Forall (fun r =>
              exists o c a,
                In o (Report.allThresholdOptions r)
                /\ In c (Report.allThresholdOptions r)
                /\ In a (Report.allThresholdOptions r)
                /\ Report.recommendedSellThreshold r = Some (Score.threshold o)
                /\ Report.recommendedWinCount r = Some (Score.winCount o)
                /\ Report.recommendedAvgProfit r = Some (Score.avgProfit o)
                /\ Report.conservativeThreshold r = Some (Score.threshold c)
                /\ Report.conservativeWinCount r = Some (Score.winCount c)
                /\ Report.aggressiveThreshold r = Some (Score.threshold a)
                /\ Report.aggressiveWinCount r = Some (Score.winCount a)
                /\ Report.aggressiveAvgProfit r = Some (Score.avgProfit a)
                /\ Forall (fun d =>
                             (Score.winCount d <= Score.winCount c)%nat
                             /\ bson_le (Score.avgProfit d) (Score.avgProfit a)
                             /\ bson_le (Score.profitabilityScore d)
                                        (Score.profitabilityScore o))
                          (Report.allThresholdOptions r)
                /\ (Score.winCount c <= Report.totalTokens r)%nat)
           reports.
Proof.
  intros options startDate collection reports Hfind.
  eapply Forall_impl; [|apply (report_of_group _ _ _ _ Hfind)].
  intros r [s [-> [_ [Hwf [Hscores [Hopt [Hcon Hagg]]]]]]].
  pose proof (scores_nonempty (Scored.group s)) as Hne.
  rewrite <- Hscores in Hne.
  destruct (best_maximal Score.profitabilityScore _ Hne) as [o [Ho [Hoin Homax]]].
  destruct (best_maximal Score.winRate _ Hne) as [c [Hc [Hcin Hcmax]]].
  destruct (best_maximal Score.avgProfit _ Hne) as [a [Ha [Hain Hamax]]].
  exists o, c, a. unfold ThresholdSimulator.report.
  cbn [Report.allThresholdOptions Report.recommendedSellThreshold
       Report.recommendedWinCount Report.recommendedAvgProfit
       Report.conservativeThreshold Report.conservativeWinCount
       Report.aggressiveThreshold Report.aggressiveWinCount
       Report.aggressiveAvgProfit Report.totalTokens].
  rewrite Hopt, Hcon, Hagg, Ho, Hc, Ha. cbn [option_map].
  repeat (split; [first [assumption | reflexivity]|]).
  assert (Hcs : exists tc, c = score_at (Scored.group s) tc).
  { rewrite Hscores in Hcin. apply in_map_iff in Hcin.
    destruct Hcin as [tc [<- _]]. exists tc. reflexivity. }
  destruct Hcs as [tc ->].
  split.
  - apply Forall_forall. intros d Hd.
    split; [|split; [apply Hamax, Hd | apply Homax, Hd]].
    pose proof (Hcmax d Hd) as Hle.
    rewrite Hscores in Hd. apply in_map_iff in Hd. destruct Hd as [td [<- _]].
    apply win_rate_orders_counts; assumption.
  - destruct (score_at_counts (Scored.group s) tc) as [_ [-> _]].
    destruct Hwf as [_ [-> _]]. unfold wins_at. apply filter_length_le.
Qed.

Lemma strategies_are_consistent_witness :
  exists reports,
    ThresholdSimulator.findProfitableTokenGroups Options.empty (Fin 0) rising_group
    = Ok reports
    /\ map Report.conservativeWinCount reports = [Some 4%nat]
    /\ Forall (fun r =>
                 exists o c,
                   In o (Report.allThresholdOptions r)
                   /\ In c (Report.allThresholdOptions r)
                   /\ Report.recommendedWinCount r = Some (Score.winCount o)
                   /\ Report.conservativeWinCount r = Some (Score.winCount c)
                   /\ (Score.winCount o <= Score.winCount c)%nat)
              reports.
Proof.
  eexists. split; [vm_compute; reflexivity|].
  split; [reflexivity|].
  eapply Forall_impl;
    [|apply (strategies_are_consistent Options.empty (Fin 0) rising_group);
      vm_compute; reflexivity].
  intros r [o [c [a [Ho [Hc [_ [_ [Hrec [_ [_ [Hcon [_ [_ [_ [Hall _]]]]]]]]]]]]]]].
  exists o, c. repeat (split; [assumption|]).
  rewrite Forall_forall in Hall. apply (Hall o Ho).
Defined.

(** The simulated profit of one member lies between 0 and the threshold,
    whatever its rise. *)
Lemma member_profit_range (threshold rise : number) :
  bson_le (Fin 0) threshold ->
  bson_le (Fin 0) (member_profit threshold rise)
  /\ bson_le (member_profit threshold rise) threshold.
Proof.
  intro Ht. unfold member_profit, num_max.
  destruct (Mongo.gte rise threshold) eqn:Ege.
  - split; [exact Ht | apply bson_le_refl].
  - destruct (Mongo.gt rise (Fin 0)) eqn:Egt.
    + split.
      * unfold bson_le. rewrite cmp_antisym. unfold Mongo.gt in Egt.
        destruct (Mongo.cmp rise (Fin 0)); simpl; congruence.
      * unfold bson_le. unfold Mongo.gte in Ege.
        destruct (Mongo.cmp rise threshold); congruence.
    + split; [apply bson_le_refl | exact Ht].
Qed.

Lemma candidates_within (P : number -> Prop) (g : Group.t) :
  (forall m, 0 < m -> m <= 9 # 10 ->
             P (Mongo.multiply (Group.avgRiseSol g) (Fin m))) ->
  Forall P (ThresholdSimulator.thresholdCandidates g).
Proof.
  intro H. unfold ThresholdSimulator.thresholdCandidates,
                  ThresholdSimulator.multipliers. cbn [map].
  repeat first [apply Forall_cons | apply Forall_nil]; apply H;
    first [reflexivity | discriminate].
Qed.

Lemma multiply_shrinks (a : number) (m : Q) :
  bson_le (Fin 0) a -> 0 < m -> m <= 1 ->
  bson_le (Mongo.multiply a (Fin m)) a.
Proof.
  intros Ha Hm0 Hm1.
  destruct a as [x| | |]; unfold bson_le in *; simpl in *; try congruence.
  - rewrite <- Qle_alt in *. nra.
  - unfold signed_inf.
    assert (H1 : (m ?= 0) = Gt) by (apply Qgt_alt; exact Hm0).
    rewrite H1. simpl. discriminate.
Qed.

(** X17.  With a minimum rise that is not negative (0 by default) the
    simulation never reports a loss: the average rise of every returned
    group is not negative and, at every candidate threshold, the
    threshold is not negative and does not exceed the group's average
    rise, and the total and the average simulated profit are not
    negative. *)
Theorem simulated_profit_is_bounded :
  forall (options : Options.t) (startDate : number) (collection : list TokenInfo)
         (reports : list Report.t) (q : Q),
    ThresholdSimulator.findProfitableTokenGroups options startDate collection = Ok reports ->
    default (Fin 0) (Options.minRiseSol options) = Fin q ->
    0 <= q ->
    Forall (fun r =>
              bson_le (Fin 0) (Report.avgRiseSol r)
              /\ Forall (fun d =>
                           bson_le (Fin 0) (Score.threshold d)
                           /\ bson_le (Score.threshold d) (Report.avgRiseSol r)
                           /\ bson_le (Fin 0) (Score.totalProfit d)
                           /\ bson_le (Fin 0) (Score.avgProfit d))
                        (Report.allThresholdOptions r))
           reports.
Proof.
  intros options startDate collection reports q Hfind Hq Hq0.
  eapply Forall_impl; [|apply (report_of_group _ _ _ _ Hfind)].
  intros r [s [-> [Hin [Hwf [Hscores _]]]]].
  unfold ThresholdSimulator.report.
  cbn [Report.avgRiseSol Report.allThresholdOptions].
  set (g := Scored.group s) in *.
  assert (Havg : bson_le (Fin 0) (Group.avgRiseSol g)).
  { destruct Hwf as [Hne [_ ->]]. apply avg_nonneg.
    - destruct (Group.tokens g); [contradiction | discriminate].
    - apply Forall_map.
      eapply Forall_impl; [|apply (groups_rises options startDate collection g Hin)].
      intros token Htoken. rewrite Hq in Htoken.
      apply (match_gte_nonneg _ q Hq0 Htoken). }
  split; [exact Havg|].
  rewrite Hscores. apply Forall_map.
  apply candidates_within. intros m Hm0 Hm1.
  set (t := Mongo.multiply (Group.avgRiseSol g) (Fin m)).
  assert (Ht : bson_le (Fin 0) t) by (apply multiply_nonneg; assumption).
  destruct (score_at_counts g t) as [Hth _]. rewrite Hth.
  split; [exact Ht|].
  split; [apply multiply_shrinks; [exact Havg | exact Hm0 | lra]|].
  destruct (analysis_counts t (Group.tokens g)) as [_ [_ [_ [Htotal Hmean]]]].
  cbv zeta in Htotal, Hmean.
  unfold score_at, score_of. cbn [Score.totalProfit Score.avgProfit].
  rewrite Htotal, Hmean.
  assert (Hprofits : Forall (bson_le (Fin 0))
                       (map (fun token =>
                               member_profit t (Sample.riseSol token))
                            (Group.tokens g))).
  { apply Forall_map. apply Forall_forall. intros token _.
    apply member_profit_range. exact Ht. }
  split; [apply sum_nonneg, Hprofits|].
  apply avg_nonneg; [|exact Hprofits].
  destruct Hwf as [Hne _]. destruct (Group.tokens g); [contradiction | discriminate].
Qed.

Lemma simulated_profit_is_bounded_witness :
  exists reports,
    ThresholdSimulator.findProfitableTokenGroups Options.empty (Fin 0) rising_group
    = Ok reports
    /\ default (Fin 0) (Options.minRiseSol Options.empty) = Fin 0
    /\ 0 <= 0
    /\ length reports = 1%nat
    /\ Forall (fun r =>
                 Forall (fun d => bson_le (Fin 0) (Score.threshold d)
                                  /\ bson_le (Fin 0) (Score.avgProfit d))
                        (Report.allThresholdOptions r))
              reports.
Proof.
  eexists. split; [vm_compute; reflexivity|].
  split; [reflexivity|]. split; [discriminate|]. split; [reflexivity|].
  eapply Forall_impl;
    [|apply (simulated_profit_is_bounded Options.empty (Fin 0) rising_group _ 0);
      [vm_compute; reflexivity | reflexivity | discriminate]].
  intros r [_ Hall]. eapply Forall_impl; [|exact Hall].
  intros d [Ht [_ [_ H0]]]. split; assumption.
Defined.

Lemma Forall2_map_both {A B C : Type} (P : B -> C -> Prop) (f : A -> B)
      (g : A -> C) (l : list A) :
  Forall (fun x => P (f x) (g x)) l -> Forall2 P (map f l) (map g l).
Proof.
  induction 1; simpl; constructor; assumption.
Qed.

(** The scoring stages succeed on the groups of the pipeline and keep
    them, one scored document per group and in the same order. *)
Lemma analysed_groups (options : Options.t) (startDate : number)
      (collection : list TokenInfo) :
  exists analysed,
    mapM ThresholdSimulator.scored
         (ThresholdSimulator.groups options startDate collection) = Ok analysed
    /\ map Scored.group analysed
       = ThresholdSimulator.groups options startDate collection.
Proof.
  pose proof (groups_wf options startDate collection) as Hwf.
  induction (ThresholdSimulator.groups options startDate collection) as [|g gs IH].
  - exists []. split; reflexivity.
  - inversion Hwf as [|? ? Hg Hgs]; subst.
    destruct (IH Hgs) as [analysed [Ha Hmap]].
    destruct (scored_total g Hg) as [s [Hs [Hgroup _]]].
    exists (s :: analysed). split.
    + simpl. rewrite Hs. unfold bind. simpl in Ha |- *. rewrite Ha. reflexivity.
    + simpl. rewrite Hgroup, Hmap. reflexivity.
Qed.

(** X18.  With a limit of [k + 1], [findProfitableTokenGroups] reports
    the [k + 1] groups of largest sort field (all groups when there are
    fewer), largest first: the groups reported and the groups left out
    are the groups of the pipeline, and no group left out has a larger
    sort field than one that was reported.  A report carries its group's
    identifier and size and at most 5 sample tokens. *)
Theorem reports_are_the_top_groups :
  forall (options : Options.t) (startDate : number) (collection : list TokenInfo)
         (k : nat),
    default (Fin 50) (Options.limit options) = of_nat (S k) ->
    let field := fun g : Group.t =>
      match default by_avgRiseSol (Options.sortBy options) with
      | by_totalTokens => of_nat (Group.totalTokens g)
      | by_maxRiseSol => Group.maxRiseSol g
      | by_avgRiseSol => Group.avgRiseSol g
      end in
    exists reports kept rest,
      ThresholdSimulator.findProfitableTokenGroups options startDate collection
      = Ok reports
      /\ Permutation (kept ++ rest)
                     (ThresholdSimulator.groups options startDate collection)
      /\ length kept
         = Nat.min (S k)
                   (length (ThresholdSimulator.groups options startDate collection))
      /\ StronglySorted (fun a b => bson_le (field b) (field a)) kept
      /\ Forall (fun g => Forall (fun g' => bson_le (field g') (field g)) rest)
                kept
      /\ Forall2 (fun r g =>
                    Report._id r = Group._id g
                    /\ Report.totalTokens r = Group.totalTokens g
                    /\ Report.avgRiseSol r = Group.avgRiseSol g
                    /\ Report.maxRiseSol r = Group.maxRiseSol g
                    /\ Report.tokens r = firstn 5 (Group.tokens g)
                    /\ length (Report.tokens r)
                       = Nat.min 5 (Group.totalTokens g))
                 reports kept.
Proof.
  intros options startDate collection k Hk field.
  destruct (analysed_groups options startDate collection) as [analysed [Ha Hmap]].
  set (sortBy := default by_avgRiseSol (Options.sortBy options)) in *.
  assert (Hfield : forall s,
             ThresholdSimulator.sortField sortBy s = field (Scored.group s)).
  { intro s. unfold field. destruct sortBy; reflexivity. }
  destruct (top_by_field (ThresholdSimulator.sortField sortBy) (S k) analysed)
    as [Hp [Hl [Hs Ht]]].
  cbv zeta in Hp, Hl, Hs, Ht.
  set (sorted := sort_by (ThresholdSimulator.descending
                            (ThresholdSimulator.sortField sortBy)) analysed) in *.
  exists (map ThresholdSimulator.report (firstn (S k) sorted)),
         (map Scored.group (firstn (S k) sorted)),
         (map Scored.group (skipn (S k) sorted)).
  split.
  { unfold ThresholdSimulator.findProfitableTokenGroups. cbv zeta.
    rewrite Ha, Hk. unfold bind. fold sortBy. fold sorted.
    rewrite limit_count. reflexivity. }
  split.
  { rewrite <- map_app, <- Hmap. apply Permutation_map. exact Hp. }
  split.
  { rewrite length_map, Hl, <- Hmap, length_map. reflexivity. }
  split.
  { apply StronglySorted_map.
    eapply StronglySorted_weaken with (P := fun _ => True); [| |exact Hs].
    - intros a b _ _ H. rewrite <- !Hfield. exact H.
    - apply Forall_forall. intros; exact I. }
  split.
  { apply Forall_map. eapply Forall_impl; [|exact Ht].
    intros s Hrest. apply Forall_map. eapply Forall_impl; [|exact Hrest].
    intros s' H. rewrite <- !Hfield. exact H. }
  assert (Hwf : Forall (fun s => group_wf (Scored.group s)) (firstn (S k) sorted)).
  { apply firstn_Forall. unfold sorted. apply sort_by_Forall.
    pose proof (groups_wf options startDate collection) as Hg.
    rewrite <- Hmap in Hg. rewrite Forall_forall in Hg.
    apply Forall_forall. intros s Hs'. apply Hg. apply in_map. exact Hs'. }
  apply Forall2_map_both. eapply Forall_impl; [|exact Hwf].
  intros s [_ [Htot _]]. unfold ThresholdSimulator.report.
  cbn [Report._id Report.totalTokens Report.avgRiseSol Report.maxRiseSol
       Report.tokens].
  repeat (split; [reflexivity|]).
  rewrite length_firstn, Htot. reflexivity.
Qed.

Lemma reports_are_the_top_groups_witness :
  default (Fin 50) (Options.limit Options.empty) = of_nat 50
  /\ exists reports kept rest,
       ThresholdSimulator.findProfitableTokenGroups Options.empty (Fin 0)
                                                    rising_group = Ok reports
       /\ Permutation (kept ++ rest)
                      (ThresholdSimulator.groups Options.empty (Fin 0) rising_group)
       /\ length kept
          = Nat.min 50
              (length (ThresholdSimulator.groups Options.empty (Fin 0)
                                                 rising_group))
       /\ length reports = length kept.
Proof.
  split; [reflexivity|].
  destruct (reports_are_the_top_groups Options.empty (Fin 0) rising_group 49
              eq_refl)
    as [reports [kept [rest [Hfind [Hp [Hl [_ [_ Hall]]]]]]]].
  exists reports, kept, rest.
  split; [exact Hfind|]. split; [exact Hp|]. split; [exact Hl|].
  apply (Forall2_length Hall).
Defined.

(** ** The rise statistics of a group *)

Lemma max_spec (l : list number) :
  l <> [] ->
  In (Mongo.max l) l /\ Forall (fun x => bson_le x (Mongo.max l)) l.
Proof.
  destruct l as [|x l]; [congruence|]. intros _. unfold Mongo.max.
  assert (Hgen : forall m seen,
             In m seen -> Forall (fun y => bson_le y m) seen ->
             let r := fold_left (fun m y => if Mongo.gt y m then y else m) l m in
             In r (seen ++ l) /\ Forall (fun y => bson_le y r) (seen ++ l)).
  { induction l as [|y l IH]; intros m seen Hin Hall; simpl.
    - rewrite app_nil_r. split; assumption.
    - replace (seen ++ y :: l) with ((seen ++ [y]) ++ l)
        by (rewrite <- app_assoc; reflexivity).
      apply IH.
      + destruct (Mongo.gt y m); apply in_or_app;
          [right; left; reflexivity | left; exact Hin].
      + apply Forall_app. split.
        * destruct (Mongo.gt y m) eqn:E; [|exact Hall].
          eapply Forall_impl; [|exact Hall]. intros z Hz.
          apply (bson_le_trans _ m); [exact Hz|].
          unfold bson_le. rewrite cmp_antisym. unfold Mongo.gt in E.
          destruct (Mongo.cmp y m); simpl; congruence.
        * constructor; [|constructor].
          destruct (Mongo.gt y m) eqn:E; [apply bson_le_refl|].
          unfold bson_le. unfold Mongo.gt in E.
          destruct (Mongo.cmp y m); congruence. }
  apply (Hgen x [x]).
  - left. reflexivity.
  - constructor; [apply bson_le_refl | constructor].
Qed.

Lemma min_spec (l : list number) :
  l <> [] ->
  In (Mongo.min l) l /\ Forall (fun x => bson_le (Mongo.min l) x) l.
Proof.
  destruct l as [|x l]; [congruence|]. intros _. unfold Mongo.min.
  assert (Hgen : forall m seen,
             In m seen -> Forall (fun y => bson_le m y) seen ->
             let r := fold_left (fun m y => if Mongo.lt y m then y else m) l m in
             In r (seen ++ l) /\ Forall (fun y => bson_le r y) (seen ++ l)).
  { induction l as [|y l IH]; intros m seen Hin Hall; simpl.
    - rewrite app_nil_r. split; assumption.
    - replace (seen ++ y :: l) with ((seen ++ [y]) ++ l)
        by (rewrite <- app_assoc; reflexivity).
      apply IH.
      + destruct (Mongo.lt y m); apply in_or_app;
          [right; left; reflexivity | left; exact Hin].
      + apply Forall_app. split.
        * destruct (Mongo.lt y m) eqn:E; [|exact Hall].
          eapply Forall_impl; [|exact Hall]. intros z Hz.
          apply (bson_le_trans _ m); [|exact Hz].
          unfold bson_le. unfold Mongo.lt in E.
          destruct (Mongo.cmp y m); congruence.
        * constructor; [|constructor].
          destruct (Mongo.lt y m) eqn:E; [apply bson_le_refl|].
          unfold bson_le. rewrite cmp_antisym. unfold Mongo.lt in E.
          destruct (Mongo.cmp y m); simpl; congruence. }
  apply (Hgen x [x]).
  - left. reflexivity.
  - constructor; [apply bson_le_refl | constructor].
Qed.

Lemma sum_between (l : list number) (lo hi : Q) :
  Forall (fun x => bson_le (Fin lo) x /\ bson_le x (Fin hi)) l ->
  exists s,
    Mongo.sum l = Fin s
    /\ lo * inject_Z (Z.of_nat (length l)) <= s
    /\ s <= hi * inject_Z (Z.of_nat (length l)).
Proof.
  unfold Mongo.sum.
  assert (Hgen : forall a,
             Forall (fun x => bson_le (Fin lo) x /\ bson_le x (Fin hi)) l ->
             exists s,
               fold_left num_add l (Fin a) = Fin s
               /\ a + lo * inject_Z (Z.of_nat (length l)) <= s
               /\ s <= a + hi * inject_Z (Z.of_nat (length l))).
  { induction l as [|x l IH]; intros a Hl.
    - exists a. split; [reflexivity|].
      change (inject_Z (Z.of_nat (length (@nil number)))) with 0.
      rewrite !Qmult_0_r. split; lra.
    - inversion Hl as [|? ? [Hx0 Hxt] Hl']; subst.
      destruct x as [x| | |]; unfold bson_le in Hx0, Hxt; simpl in Hx0, Hxt;
        try congruence.
      rewrite <- Qle_alt in Hx0, Hxt.
      destruct (IH (a + x) Hl') as [s [Hs [Hlo Hhi]]].
      exists s. split; [exact Hs|].
      change (length (Fin x :: l)) with (S (length l)).
      rewrite Nat2Z.inj_succ. unfold Z.succ. rewrite inject_Z_plus.
      change (inject_Z 1) with 1. rewrite !Qmult_plus_distr_r. split; lra. }
  intro Hl. destruct (Hgen 0 Hl) as [s [Hs [Hlo Hhi]]].
  exists s. split; [exact Hs|]. split; lra.
Qed.

Lemma sum_with_infinity (l : list number) (q : Q) :
  Forall (bson_le (Fin q)) l -> In PInf l -> Mongo.sum l = PInf.
Proof.
  unfold Mongo.sum.
  assert (Hgen : forall acc,
             Forall (bson_le (Fin q)) l ->
             (acc = PInf \/ ((exists a, acc = Fin a) /\ In PInf l)) ->
             fold_left num_add l acc = PInf).
  { induction l as [|x l IH]; intros acc Hl Hacc; simpl.
    - destruct Hacc as [-> | [_ []]]. reflexivity.
    - inversion Hl as [|? ? Hx Hl']; subst. apply IH; [exact Hl'|].
      destruct x as [x| | |]; unfold bson_le in Hx; simpl in Hx; try congruence.
      + destruct Hacc as [-> | [[a ->] [Hin | Hin]]].
        * left. reflexivity.
        * discriminate.
        * right. split; [eexists; reflexivity | exact Hin].
      + left. destruct Hacc as [-> | [[a ->] _]]; reflexivity. }
  intros Hl Hin. apply Hgen; [exact Hl|]. right.
  split; [eexists; reflexivity | exact Hin].
Qed.

(** The average of numbers that are all at least some finite bound lies
    between their minimum and their maximum. *)
Lemma avg_between (l : list number) (q : Q) :
  l <> [] -> Forall (bson_le (Fin q)) l ->
  bson_le (Fin q) (Mongo.min l)
  /\ bson_le (Mongo.min l) (Mongo.avg l)
  /\ bson_le (Mongo.avg l) (Mongo.max l).
Proof.
  intros Hne Hl.
  destruct (max_spec l Hne) as [Hmax_in Hmax].
  destruct (min_spec l Hne) as [Hmin_in Hmin].
  rewrite Forall_forall in Hl.
  split; [apply Hl, Hmin_in|].
  assert (Hn : 0 < inject_Z (Z.of_nat (length l))).
  { change 0 with (inject_Z 0). rewrite <- Zlt_Qlt.
    destruct l; [contradiction | simpl; lia]. }
  pose proof (Hl _ Hmax_in) as Hqmax. pose proof (Hl _ Hmin_in) as Hqmin.
  destruct (Mongo.max l) as [hi| | |] eqn:Emax;
    try (unfold bson_le in Hqmax; simpl in Hqmax; congruence).
  - destruct (Mongo.min l) as [lo| | |] eqn:Emin;
      try (unfold bson_le in Hqmin; simpl in Hqmin; congruence).
    + destruct (sum_between l lo hi) as [s [Hs [Hlo Hhi]]].
      { rewrite Forall_forall in *. intros x Hx. split; auto. }
      unfold Mongo.avg. rewrite Hs. unfold of_nat. simpl.
      destruct (Qeq_bool (inject_Z (Z.of_nat (length l))) 0) eqn:E.
      { apply Qeq_bool_iff in E. lra. }
      split; apply bson_le_fin.
      * apply Qle_shift_div_l; [exact Hn | lra].
      * apply Qle_shift_div_r; [exact Hn | lra].
    + exfalso. rewrite Forall_forall in Hmax.
      specialize (Hmax _ Hmin_in). unfold bson_le in Hmax. simpl in Hmax.
      congruence.
  - assert (Hsum : Mongo.sum l = PInf).
    { apply (sum_with_infinity l q); [apply Forall_forall; exact Hl|].
      exact Hmax_in. }
    unfold Mongo.avg. rewrite Hsum. unfold of_nat. simpl.
    assert (H0 : Qle_bool 0 (inject_Z (Z.of_nat (length l))) = true).
    { apply Qle_bool_iff. lra. }
    rewrite H0. split.
    + unfold bson_le. destruct (Mongo.min l); simpl; discriminate.
    + apply bson_le_refl.
Qed.

Lemma match_gte_bson_le (x : number) (q : Q) :
  Mongo.match_gte x (Fin q) = true -> bson_le (Fin q) x.
Proof.
  intro H. apply gte_bson_le.
  destruct x as [r| | |]; simpl in H; try discriminate; exact H.
Qed.

(** What the stages before the threshold simulation establish for a
    group: its key is shared by its members, which are the recent records
    of sufficient rise with that key, and it is large enough. *)
Lemma group_members (options : Options.t) (startDate : number)
      (collection : list TokenInfo) (g : Group.t) :
  let b := default false (Options.groupByComputeUnits options) in
  let rising :=
    filter (fun t => Mongo.match_gte (ThresholdSimulator.riseSol t)
                       (default (Fin 0) (Options.minRiseSol options)))
      (filter (fun t => negb (String.eqb (mintPattern t) EmptyString)
                        && Mongo.match_gte (createdAt t) startDate)
              collection) in
  In g (ThresholdSimulator.groups options startDate collection) ->
  exists members,
    g = ThresholdSimulator.accumulate (Group._id g, members)
    /\ members <> []
    /\ members = filter (fun t => GroupId.eqb (ThresholdSimulator.groupId b t)
                                              (Group._id g)) rising
    /\ Mongo.match_gte (of_nat (Group.totalTokens g))
                       (default (Fin 2) (Options.minTokensInGroup options))
       = true.
Proof.
  intros b rising Hg. unfold ThresholdSimulator.groups in Hg.
  cbv zeta in Hg. fold b rising in Hg.
  apply filter_In in Hg. destruct Hg as [Hg Hsize].
  apply in_map_iff in Hg. destruct Hg as [[id members] [<- Hin]].
  destruct (group_by_grouped (ThresholdSimulator.groupId b) GroupId.eqb
              GroupId_eqb_refl GroupId_eqb_sym GroupId_eqb_trans rising)
    as [Hmem _].
  rewrite Forall_forall in Hmem. destruct (Hmem _ Hin) as [Hm Hne].
  simpl in Hm, Hne. exists members. simpl.
  split; [reflexivity|]. split; [exact Hne|]. split; [exact Hm | exact Hsize].
Qed.

(** X19.  For a finite minimum rise the rise statistics of every report
    are consistent: the minimum rise of the group is at least the
    option's minimum and at most the maximum rise, the group has the
    required number of members, and its mint pattern is not empty. *)
Theorem rise_statistics_are_consistent :
  forall (options : Options.t) (startDate : number) (collection : list TokenInfo)
         (reports : list Report.t) (q : Q),
    ThresholdSimulator.findProfitableTokenGroups options startDate collection = Ok reports ->
    default (Fin 0) (Options.minRiseSol options) = Fin q ->
    Forall (fun r =>
              bson_le (Fin q) (Report.minRiseSol r)
              /\ bson_le (Report.minRiseSol r) (Report.maxRiseSol r)
              /\ Mongo.match_gte
                   (of_nat (Report.totalTokens r))
                   (default (Fin 2) (Options.minTokensInGroup options)) = true
              /\ (1 <= Report.totalTokens r)%nat
              /\ exists p, Report.mintPattern r = Some p /\ p <> EmptyString)
           reports.
Proof.
  intros options startDate collection reports q Hfind Hq.
  eapply Forall_impl; [|apply (report_of_group _ _ _ _ Hfind)].
  intros r [s [-> [Hin _]]].
  destruct (group_members options startDate collection _ Hin)
    as [members [Hg [Hne [Hm Hsize]]]].
  cbv zeta in Hm. rewrite Hq in Hm.
  unfold ThresholdSimulator.report.
  cbn [Report.minRiseSol Report.avgRiseSol Report.maxRiseSol Report.totalTokens
       Report.mintPattern].
  set (g := Scored.group s) in *.
  assert (Hall : Forall (fun t => In t members) members)
    by (apply Forall_forall; auto).
  assert (Hrise : Forall (bson_le (Fin q))
                         (map ThresholdSimulator.riseSol members)).
  { apply Forall_map. eapply Forall_impl; [|exact Hall]. intros t Ht.
    rewrite Hm in Ht. apply filter_In in Ht. destruct Ht as [Ht _].
    apply filter_In in Ht. destruct Ht as [_ Ht].
    apply match_gte_bson_le. exact Ht. }
  assert (Hne' : map ThresholdSimulator.riseSol members <> []).
  { destruct members; [contradiction | discriminate]. }
  destruct (avg_between _ q Hne' Hrise) as [H1 [H2 H3]].
  rewrite Hg. cbn [ThresholdSimulator.accumulate Group.minRiseSol
                   Group.avgRiseSol Group.maxRiseSol Group.totalTokens Group._id].
  split; [exact H1|].
  split; [exact (bson_le_trans _ _ _ H2 H3)|].
  split; [rewrite Hg in Hsize; exact Hsize|].
  split; [destruct members; [contradiction | simpl; lia]|].
  destruct members as [|t members']; [contradiction|].
  assert (Ht : In t (t :: members')) by (left; reflexivity).
  rewrite Hm in Ht. apply filter_In in Ht. destruct Ht as [Ht Hkey].
  apply filter_In in Ht. destruct Ht as [Ht _].
  apply filter_In in Ht. destruct Ht as [_ Ht].
  apply andb_true_iff in Ht. destruct Ht as [Hp _].
  apply GroupId_eqb_pattern in Hkey. simpl in Hkey.
  exists (mintPattern t). split; [symmetry; exact Hkey|].
  apply negb_true_iff in Hp. apply String.eqb_neq. exact Hp.
Qed.

Lemma rise_statistics_are_consistent_witness :
  exists reports,
    ThresholdSimulator.findProfitableTokenGroups allow_losses (Fin 0) sinking_group
    = Ok reports
    /\ default (Fin 0) (Options.minRiseSol allow_losses) = Fin (-5)
    /\ length reports = 1%nat
    /\ Forall (fun r =>
                 bson_le (Fin (-5)) (Report.minRiseSol r)
                 /\ bson_le (Report.minRiseSol r) (Report.maxRiseSol r))
              reports.
Proof.
  eexists. split; [vm_compute; reflexivity|].
  split; [reflexivity|]. split; [reflexivity|].
  eapply Forall_impl;
    [|apply (rise_statistics_are_consistent allow_losses (Fin 0) sinking_group
               _ (-5));
      [vm_compute; reflexivity | reflexivity]].
  intros r [H1 [H2 _]]. split; assumption.
Defined.

Lemma limit_prefix {A : Type} (n : number) (docs limited : list A) :
  Mongo.limit n docs = Ok limited -> exists m, limited = firstn m docs.
Proof.
  unfold Mongo.limit. destruct n as [q| | |]; try discriminate.
  destruct (Qle_bool 1 q && Qeq_bool q (inject_Z (Qfloor q))); [|discriminate].
  intro H. injection H as <-. eexists. reflexivity.
Qed.

(** The reports stem from some of the groups of the pipeline, each group
    being reported at most once. *)
Lemma reports_kept (options : Options.t) (startDate : number)
      (collection : list TokenInfo) (reports : list Report.t) :
  ThresholdSimulator.findProfitableTokenGroups options startDate collection = Ok reports ->
  exists limited rest,
    reports = map ThresholdSimulator.report limited
    /\ Permutation (map Scored.group limited ++ rest)
                   (ThresholdSimulator.groups options startDate collection).
Proof.
  intro Hfind. unfold ThresholdSimulator.findProfitableTokenGroups in Hfind.
  cbv zeta in Hfind.
  destruct (analysed_groups options startDate collection) as [analysed [Ha Hmap]].
  rewrite Ha in Hfind. unfold bind at 1 in Hfind.
  destruct (Mongo.limit _ _) as [limited|e] eqn:Hl; simpl in Hfind;
    [|discriminate].
  injection Hfind as <-.
  destruct (limit_prefix _ _ _ Hl) as [m ->].
  match goal with
  | |- context [firstn m ?l] => set (sorted := l)
  end.
  exists (firstn m sorted), (map Scored.group (skipn m sorted)).
  split; [reflexivity|].
  rewrite <- map_app, firstn_skipn, <- Hmap.
  apply Permutation_map. apply sort_by_perm.
Qed.

Lemma ForallOrdPairs_filter {A : Type} (R : A -> A -> Prop) (f : A -> bool)
      (l : list A) :
  ForallOrdPairs R l -> ForallOrdPairs R (filter f l).
Proof.
  induction 1 as [|a l Ha _ IH]; simpl; [constructor|].
  destruct (f a); [|exact IH]. constructor; [|exact IH].
  apply Forall_forall. intros x Hx. apply filter_In in Hx.
  rewrite Forall_forall in Ha. apply Ha, Hx.
Qed.

Lemma ForallOrdPairs_app_l {A : Type} (R : A -> A -> Prop) (l l' : list A) :
  ForallOrdPairs R (l ++ l') -> ForallOrdPairs R l.
Proof.
  induction l as [|a l IH]; simpl; intro H; [constructor|].
  inversion H as [|? ? Ha Hl]; subst. constructor.
  - apply Forall_app in Ha. exact (proj1 Ha).
  - apply IH. exact Hl.
Qed.

Lemma list_sum_filter_le {A : Type} (f : A -> bool) (size : A -> nat)
      (l : list A) :
  (list_sum (map size (filter f l)) <= list_sum (map size l))%nat.
Proof.
  induction l as [|a l IH]; simpl; [lia|].
  destruct (f a); simpl; lia.
Qed.

(** X20.  No record is counted in two reports: the reports have pairwise
    different group keys, the size of each is the number of records with
    a mint pattern, created at [startDate] or later and of sufficient
    rise, that carry its key, and the sizes add up to at most the number
    of such records. *)
Theorem reports_have_distinct_keys :
  forall (options : Options.t) (startDate : number) (collection : list TokenInfo)
         (reports : list Report.t),
    ThresholdSimulator.findProfitableTokenGroups options startDate collection = Ok reports ->
    let b := default false (Options.groupByComputeUnits options) in
    let rising :=
      filter (fun t => Mongo.match_gte (ThresholdSimulator.riseSol t)
                         (default (Fin 0) (Options.minRiseSol options)))
        (filter (fun t => negb (String.eqb (mintPattern t) EmptyString)
                          && Mongo.match_gte (createdAt t) startDate)
                collection) in
    ForallOrdPairs (fun r1 r2 => GroupId.eqb (Report._id r1) (Report._id r2)
                                 = false) reports
    /\ Forall (fun r =>
                 Report.totalTokens r
                 = length (filter (fun t =>
                                     GroupId.eqb (ThresholdSimulator.groupId b t)
                                                 (Report._id r))
                                  rising))
              reports
    /\ (list_sum (map Report.totalTokens reports) <= length rising)%nat.
Proof.
  intros options startDate collection reports Hfind b rising.
  destruct (reports_kept _ _ _ _ Hfind) as [limited [rest [-> Hperm]]].
  set (gs := group_by (ThresholdSimulator.groupId b) GroupId.eqb rising).
  assert (Hgroups : ThresholdSimulator.groups options startDate collection
                    = filter (fun g =>
                                Mongo.match_gte
                                  (of_nat (Group.totalTokens g))
                                  (default (Fin 2)
                                     (Options.minTokensInGroup options)))
                             (map ThresholdSimulator.accumulate gs))
    by reflexivity.
  destruct (group_by_grouped (ThresholdSimulator.groupId b) GroupId.eqb
              GroupId_eqb_refl GroupId_eqb_sym GroupId_eqb_trans rising)
    as [_ [Hkeys _]].
  fold gs in Hkeys.
  assert (Hdistinct : ForallOrdPairs
                        (fun g1 g2 => GroupId.eqb (Group._id g1) (Group._id g2)
                                      = false)
                        (ThresholdSimulator.groups options startDate collection)).
  { rewrite Hgroups. apply ForallOrdPairs_filter.
    apply ForallOrdPairs_map in Hkeys.
    apply (ForallOrdPairs_map ThresholdSimulator.accumulate
             (fun g1 g2 => GroupId.eqb (Group._id g1) (Group._id g2) = false)).
    eapply ForallOrdPairs_impl with (P := fun _ => True);
      [| apply Forall_forall; intros; exact I | exact Hkeys].
    intros [id1 m1] [id2 m2] _ _ H. exact H. }
  split; [|split].
  - apply (ForallOrdPairs_map ThresholdSimulator.report
             (fun r1 r2 => GroupId.eqb (Report._id r1) (Report._id r2) = false)).
    apply (ForallOrdPairs_map Scored.group
             (fun g1 g2 => GroupId.eqb (Group._id g1) (Group._id g2) = false)).
    apply ForallOrdPairs_app_l with (l' := rest).
    apply ForallOrdPairs_perm
      with (l := ThresholdSimulator.groups options startDate collection).
    + intros g1 g2 H. rewrite GroupId_eqb_sym. exact H.
    + symmetry. exact Hperm.
    + exact Hdistinct.
  - apply Forall_map. apply Forall_forall. intros s Hs.
    assert (Hin : In (Scored.group s)
                     (ThresholdSimulator.groups options startDate collection)).
    { apply (Permutation_in _ Hperm). apply in_or_app. left.
      apply in_map. exact Hs. }
    destruct (group_members options startDate collection _ Hin)
      as [members [Hg [_ [Hm _]]]].
    cbv zeta in Hm. fold b rising in Hm.
    unfold ThresholdSimulator.report. cbn [Report.totalTokens Report._id].
    rewrite <- Hm. rewrite Hg at 1. reflexivity.
  - rewrite map_map.
    change (fun x => Report.totalTokens (ThresholdSimulator.report x))
      with (fun x => Group.totalTokens (Scored.group x)).
    rewrite <- (map_map Scored.group Group.totalTokens).
    apply Nat.le_trans
      with (list_sum (map Group.totalTokens
                          (ThresholdSimulator.groups options startDate collection))).
    + rewrite <- (list_sum_perm _ _ (Permutation_map Group.totalTokens Hperm)).
      rewrite map_app, list_sum_app. lia.
    + rewrite Hgroups.
      eapply Nat.le_trans; [apply list_sum_filter_le|].
      rewrite map_map.
      rewrite <- (Permutation_length
                    (group_by_perm (ThresholdSimulator.groupId b) GroupId.eqb
                                   rising)).
      fold gs. rewrite length_concat, map_map.
      apply Nat.eq_le_incl. f_equal. apply map_ext. intros [id members].
      reflexivity.
Qed.

Lemma reports_have_distinct_keys_witness :
  exists reports,
    ThresholdSimulator.findProfitableTokenGroups Options.empty (Fin 0) rising_group
    = Ok reports
    /\ map Report.totalTokens reports = [5%nat]
    /\ ForallOrdPairs (fun r1 r2 => GroupId.eqb (Report._id r1) (Report._id r2)
                                    = false) reports.
Proof.
  eexists. split; [vm_compute; reflexivity|].
  split; [reflexivity|].
  refine (proj1 (reports_have_distinct_keys Options.empty (Fin 0) rising_group
                   _ _)).
  vm_compute. reflexivity.
Defined.

(** ** The most successful mint patterns *)

Lemma NoDup_map_filter {B C : Type} (key : B -> C) (keep : B -> bool)
      (xs : list B) (Hnd : NoDup (map key xs)) :
  NoDup (map key (filter keep xs)).
Proof.
  revert Hnd. induction xs as [|b xs IH]; simpl; intro Hnd; [constructor|].
  inversion Hnd as [|? ? Hfresh Hrest]; subst.
  destruct (keep b); simpl; [|apply IH, Hrest].
  constructor; [|apply IH, Hrest].
  intro Hin. apply Hfresh. apply in_map_iff in Hin.
  destruct Hin as [b' [Hb' Hin]]. apply filter_In in Hin.
  apply in_map_iff. exists b'. split; [exact Hb' | apply Hin].
Qed.

Lemma NoDup_map_firstn {A B : Type} (f : A -> B) (n : nat) (l : list A) :
  NoDup (map f l) -> NoDup (map f (firstn n l)).
Proof.
  intro H. rewrite <- (firstn_skipn n l), map_app in H.
  apply NoDup_app_remove_r in H. exact H.
Qed.

(** X21.  [getMostSuccessfulMintPatterns] returns at most 20 groups, one
    per mint pattern and no pattern twice; each has at least 2 members,
    namely the records with that pattern that pass the filter; the
    groups are the best ranked ones: together with the qualifying groups
    left out they form a list sorted by decreasing migration rate. *)
Theorem most_successful_mint_patterns :
  forall (minSol : option number) (collection : list TokenInfo),
    let filters :=
      CommonQueries.filters_of (Some (default (Fin 1) minSol)) None in
    let matched := filter (GroupingEngine.matchQuery filters) collection in
    exists groups top rest,
      GroupingEngine.fetchProfitableTokenGroupsWithMigration
        CommonQueries.pattern_only filters collection = Ok groups
      /\ CommonQueries.getMostSuccessfulMintPatterns minSol collection = Ok top
      /\ top ++ rest = filter (fun g => (2 <=? Stats.totalTokens g)%nat) groups
      /\ length top
         = Nat.min 20
             (length (filter (fun g => (2 <=? Stats.totalTokens g)%nat) groups))
      /\ StronglySorted ranks_before (top ++ rest)
      /\ NoDup (map Stats.groupIdentifier top)
      /\ Forall (fun g =>
                   exists p,
                     Stats.groupIdentifier g = pattern_id p
                     /\ Stats.totalTokens g
                        = length (filter (fun t => String.eqb (mintPattern t) p)
                                         matched)
                     /\ (2 <= Stats.totalTokens g)%nat)
                top.
Proof.
  intros minSol collection filters matched.
  destruct (fetch_ranked CommonQueries.pattern_only filters collection)
    as [groups [Hfetch Hsorted]].
  destruct (pattern_rows CommonQueries.pattern_only filters collection)
    as [rows [Hagg [Hwf [Hids Hnd]]]]; [intro t; reflexivity|].
  assert (Hgroups : groups
                    = map (GroupingEngine.stats
                             (default (Fin 70) (Filters.winPercent filters))) rows).
  { unfold GroupingEngine.fetchProfitableTokenGroupsWithMigration in Hfetch.
    rewrite Hagg in Hfetch. unfold bind in Hfetch. congruence. }
  set (qualified := filter (fun g => (2 <=? Stats.totalTokens g)%nat) groups).
  exists groups, (firstn 20 qualified), (skipn 20 qualified).
  split; [exact Hfetch|].
  split.
  { unfold CommonQueries.getMostSuccessfulMintPatterns,
           GroupingEngine.getTopMigratingGroups.
    fold filters. rewrite Hfetch. unfold bind.
    change (default (Fin 10) (Some (Fin 20))) with (of_nat 20).
    rewrite slice0_count. reflexivity. }
  split; [apply firstn_skipn|].
  split; [apply length_firstn|].
  split; [rewrite firstn_skipn; apply StronglySorted_filter, Hsorted|].
  split.
  { apply NoDup_map_firstn, NoDup_map_filter.
    rewrite Hgroups, map_map. exact Hnd. }
  apply firstn_Forall. apply Forall_forall. intros g Hg.
  apply filter_In in Hg. destruct Hg as [Hg Hsize].
  rewrite Hgroups in Hg. apply in_map_iff in Hg. destruct Hg as [r [<- Hr]].
  rewrite Forall_forall in Hids, Hwf.
  destruct (Hids r Hr) as [p [Hp Htok]]. destruct (Hwf r Hr) as [_ [Htot _]].
  exists p. split; [exact Hp|].
  split; [|apply Nat.leb_le; exact Hsize].
  cbn [GroupingEngine.stats Stats.totalTokens]. rewrite Htot, Htok. reflexivity.
Qed.

(** ** The leaders by total value *)

Lemma rows_maxSol (c : Criteria.t) (filters : Filters.t)
      (collection : list TokenInfo) (rows : list Row.t) :
  GroupingEngine.aggregate c filters collection = Ok rows ->
  Forall (fun r =>
            Row.totalMaxSol r
            = Mongo.round (Mongo.sum (map maxSol (Row.tokens r))) 4
            /\ Row.avgMaxSol r
               = Mongo.round (Mongo.avg (map maxSol (Row.tokens r))) 4)
         rows.
Proof.
  unfold GroupingEngine.aggregate. cbv zeta.
  destruct (mapM GroupingEngine.project _) as [rows0|e] eqn:Hm; simpl;
    [|discriminate].
  intro H. injection H as <-. apply sort_by_Forall.
  revert Hm. apply mapM_Ok_Forall.
  intros [id members] r _. unfold GroupingEngine.project.
  destruct (Mongo.divide _ _) as [ratio|e]; simpl; [|discriminate].
  intro H. injection H as <-. split; reflexivity.
Qed.

Lemma sum_not_NaN (l : list number) (q : Q) :
  Forall (bson_le (Fin q)) l -> JS.isNaN (Mongo.sum l) = false.
Proof.
  intro Hl. destruct l as [|x l]; [reflexivity|].
  assert (Hne : x :: l <> []) by discriminate.
  destruct (max_spec _ Hne) as [Hin Hmax].
  pose proof Hl as Hl'. rewrite Forall_forall in Hl'.
  pose proof (Hl' _ Hin) as Hq.
  destruct (Mongo.max (x :: l)) as [hi| | |] eqn:Emax;
    try (unfold bson_le in Hq; simpl in Hq; congruence).
  - destruct (sum_between (x :: l) q hi) as [s [Hs _]].
    { rewrite Forall_forall in *. intros y Hy. split; auto. }
    rewrite Hs. reflexivity.
  - rewrite (sum_with_infinity _ q Hl Hin). reflexivity.
Qed.

Lemma round_not_NaN (a : number) (place : nat) :
  JS.isNaN a = false -> JS.isNaN (Mongo.round a place) = false.
Proof.
  destruct a; simpl; auto.
Qed.

Lemma match_minMaxSol (filters : Filters.t) (q : Q) (t : TokenInfo) :
  Filters.minMaxSol filters = Some (Fin q) -> 0 < q ->
  GroupingEngine.matchQuery filters t = true ->
  Mongo.match_gte (maxSol t) (Fin q) = true.
Proof.
  intros Hf Hq. unfold GroupingEngine.matchQuery. rewrite Hf. cbv zeta.
  change (default (Fin 0) (Some (Fin q))) with (Fin q).
  assert (Hgt : JS.gt (Fin q) (Fin 0) = true).
  { unfold JS.gt, JS.lt. apply Qltb_true. exact Hq. }
  rewrite Hgt. rewrite !andb_true_iff. intros [[[[[H _] _] _] _] _]. exact H.
Qed.

(** X22.  With a positive minimum value (1 by default) every group total
    is a number, so the order of [getRoiLeaders] is determined: it
    returns a prefix of the engine's groups rearranged by decreasing
    [totalMaxSol]; no group left out has a larger total than one that
    was returned. *)
Theorem roi_leaders_are_the_top :
  forall (minSol limit : option number) (collection : list TokenInfo) (q : Q),
    default (Fin 1) minSol = Fin q ->
    0 < q ->
    exists groups top rest,
      GroupingEngine.fetchProfitableTokenGroupsWithMigration
        CommonQueries.pattern_price
        (CommonQueries.filters_of (Some (Fin q)) None) collection = Ok groups
      /\ CommonQueries.getRoiLeaders minSol limit collection = Ok top
      /\ Permutation (top ++ rest) groups
      /\ StronglySorted
           (fun a b => num_le (Stats.totalMaxSol b) (Stats.totalMaxSol a))
           (top ++ rest)
      /\ Forall (fun g => JS.isNaN (Stats.totalMaxSol g) = false) groups.
Proof.
  intros minSol limit collection q Hq Hq0.
  set (filters := CommonQueries.filters_of (Some (Fin q)) None).
  destruct (aggregate_identity CommonQueries.pattern_price filters collection)
    as [rows [Hagg [Hmem _]]].
  pose proof (rows_maxSol _ _ _ _ Hagg) as Hmax.
  assert (Hfetch : GroupingEngine.fetchProfitableTokenGroupsWithMigration
                     CommonQueries.pattern_price filters collection
                   = Ok (map (GroupingEngine.stats
                                (default (Fin 70) (Filters.winPercent filters)))
                             rows)).
  { unfold GroupingEngine.fetchProfitableTokenGroupsWithMigration.
    rewrite Hagg. reflexivity. }
  set (groups := map (GroupingEngine.stats
                        (default (Fin 70) (Filters.winPercent filters))) rows)
    in *.
  assert (Hnum : Forall (fun g => JS.isNaN (Stats.totalMaxSol g) = false) groups).
  { apply Forall_map. rewrite Forall_forall in *. intros r Hr.
    destruct (Hmax r Hr) as [Htotal _].
    cbn [GroupingEngine.stats Stats.totalMaxSol]. rewrite Htotal.
    apply round_not_NaN. apply (sum_not_NaN _ q).
    apply Forall_map. apply Forall_forall. intros t Ht.
    rewrite (Hmem r Hr) in Ht. apply filter_In in Ht. destruct Ht as [Ht _].
    apply filter_In in Ht. destruct Ht as [_ Ht].
    apply match_gte_bson_le.
    apply (match_minMaxSol filters q t eq_refl Hq0 Ht). }
  set (sorted := sort_by (fun a b => JS.descending (Stats.totalMaxSol a)
                                                   (Stats.totalMaxSol b))
                         groups).
  destruct (slice0_prefix sorted (default (Fin 20) limit)) as [m Hm].
  exists groups, (firstn m sorted), (skipn m sorted).
  split; [exact Hfetch|].
  split.
  { unfold CommonQueries.getRoiLeaders. rewrite Hq. fold filters.
    rewrite Hfetch. unfold bind. fold sorted. rewrite Hm. reflexivity. }
  rewrite firstn_skipn.
  split; [apply sort_by_perm|].
  split; [|exact Hnum].
  apply (sort_descending_sorted Stats.totalMaxSol). exact Hnum.
Qed.

Lemma roi_leaders_are_the_top_witness :
  default (Fin 1) None = Fin 1
  /\ 0 < 1
  /\ exists groups top rest,
       GroupingEngine.fetchProfitableTokenGroupsWithMigration
         CommonQueries.pattern_price
         (CommonQueries.filters_of (Some (Fin 1)) None) scenario_A = Ok groups
       /\ CommonQueries.getRoiLeaders None None scenario_A = Ok top
       /\ Permutation (top ++ rest) groups
       /\ StronglySorted
            (fun a b => num_le (Stats.totalMaxSol b) (Stats.totalMaxSol a))
            (top ++ rest)
       /\ Forall (fun g => JS.isNaN (Stats.totalMaxSol g) = false) groups.
Proof.
  split; [reflexivity|]. split; [reflexivity|].
  apply (roi_leaders_are_the_top None None scenario_A 1); reflexivity.
Defined.

(** ** The minimum value of the query patterns *)





(** ** The comparison of two time periods *)




